(** * gr-aoa: the [switch_sync] block of [python/aoa/switch_sync.py]

    A shallow embedding of the synchronisation state machine, the frame
    binner and the AOA estimator of [switch_sync.work] and
    [switch_sync.calculate_aoa], and of the serial driver of the antenna
    switch, with the properties of the design document stated over it.

    Sample counts and indices are [nat]: every counter of the block starts
    at 0 and is only incremented or reset to 0.  The floating-point
    arithmetic of numpy is kept behind an interface ([float_ops]); the state
    machine is verified for every implementation of that interface.  Two
    instances serve for worked inputs: IEEE 754 binary arithmetic
    ([B64_ops]), which is what numpy computes with, and the exact real
    numbers ([R_ops]), used on samples of power 0 and 1 only.

    The block is modelled twice.  In the first model the bins hold the
    samples themselves; it says what one call does.  In the second
    ([Views]) the bins hold views of the input arrays, as they do in
    numpy, and the contents of the arrays can change from one call to the
    next; the two agree as long as the memory is left as it is. *)

From Stdlib Require Import List Arith Lia Bool Reals Lra.
From Stdlib Require Import ZArith SpecFloat.
From Stdlib Require String Ascii DecimalString.
Import ListNotations.

Set Implicit Arguments.

(** ** Arithmetic interface *)

(** The operations on floating-point numbers used by the block. *)
Record float_ops (F : Type) : Type := {
  f0      : F;                 (* 0.0 *)
  fadd    : F -> F -> F;       (* a + b *)
  fmul    : F -> F -> F;       (* a * b *)
  fdiv    : F -> F -> F;       (* a / b *)
  fge     : F -> F -> bool;    (* a >= b *)
  of_nat  : nat -> F;          (* int to float *)
  fpi     : F;                 (* numpy.pi *)
  radians : F -> F;            (* numpy.radians *)
  fcos    : F -> F;            (* numpy.cos *)
  fsin    : F -> F;            (* numpy.sin *)
  np_abs  : F * F -> F;        (* numpy.abs of a complex number *)
  np_sum  : list F -> F;       (* numpy.sum *)
  to_f32  : F -> F;            (* conversion to single precision *)
  to_f32_zero : to_f32 f0 = f0 (* which keeps 0.0 *)
}.

(** Exact real arithmetic as an instance. *)
Definition R_ops : float_ops R := {|
  f0      := 0%R;
  fadd    := Rplus;
  fmul    := Rmult;
  fdiv    := Rdiv;
  fge     := fun a b => if Rle_dec b a then true else false;
  of_nat  := INR;
  fpi     := PI;
  radians := fun d => (d * PI / 180)%R;
  fcos    := cos;
  fsin    := sin;
  np_abs  := fun z => sqrt (fst z * fst z + snd z * snd z);
  np_sum  := fun l => fold_right Rplus 0%R l;
  to_f32  := fun a => a;
  to_f32_zero := eq_refl
|}.

(** ** Outcomes of a call *)

(** [Done a]: the call returns; [IndexError]: a list index out of range is
    raised; [OutOfFuel]: the [while] loop has not finished within the
    allowed number of iterations. *)
Inductive outcome (A : Type) : Type :=
| Done (a : A)
| IndexError
| OutOfFuel.

Arguments IndexError {A}.
Arguments OutOfFuel {A}.

(** ** Generic list helpers *)

(** Python's [l[a:b]] for [0 <= a]. *)
Definition slice {A : Type} (a b : nat) (l : list A) : list A :=
  firstn (b - a) (skipn a l).

(** [numpy.flatnonzero]: the indices of the true entries, in order. *)
Fixpoint flatnonzero_from (k : nat) (l : list bool) : list nat :=
  match l with
  | [] => []
  | b :: l' =>
      if b then k :: flatnonzero_from (S k) l'
      else flatnonzero_from (S k) l'
  end.

Definition flatnonzero (l : list bool) : list nat := flatnonzero_from 0 l.

(** [data[i].append(x)]; [None] stands for the IndexError of Python. *)
Fixpoint append_at {A : Type} (i : nat) (x : A) (data : list (list A))
  : option (list (list A)) :=
  match data, i with
  | [], _ => None
  | d :: ds, 0 => Some ((d ++ [x]) :: ds)
  | d :: ds, S j =>
      match append_at j x ds with
      | Some ds' => Some (d :: ds')
      | None => None
      end
  end.

(** ** The block *)

Inductive sync_state : Type := SEARCH_RFX | CAPTURE_FRAME.

Section Block.

Context {F : Type} (ops : float_ops F).

(** A complex sample: real and imaginary part. *)
Definition complex : Type := (F * F)%type.

(** The attributes fixed by [__init__]. *)
Record config : Type := {
  threshold           : F;
  max_antennas        : nat;
  samples_per_antenna : nat;
  settling_samp       : nat;
  rfx_gap_threshold   : nat;
  antenna_angles      : list F
}.

(** The attributes mutated by [work]. *)
Record block : Type := {
  state                : sync_state;
  counter              : nat;
  total_sample_counter : nat;
  lastAOA              : complex;
  antenna_data         : list (list (list complex))
}.

(** [reset_arrays]: one empty list of chunks per antenna. *)
Definition reset_arrays (cfg : config) : list (list (list complex)) :=
  map (fun _ => []) (seq 0 (max_antennas cfg)).

(** [__init__], from the truncated products
    [spa = int(sample_rate * dwell_time)] and
    [settling = int(sample_rate * settling_time)].
    [int(spa * 0.75)] is [3 * spa / 4]: the product is exact in binary64. *)
Definition init_config (spa settling n_ant : nat) (thr offset_deg : F)
  : config :=
  let offset_rad := radians ops offset_deg in
  {| threshold := thr;
     max_antennas := n_ant;
     samples_per_antenna := spa;
     settling_samp := settling;
     rfx_gap_threshold := (3 * spa) / 4;
     antenna_angles :=
       map (fun i =>
              fadd ops
                (fmul ops (of_nat ops i)
                   (fdiv ops (fmul ops (of_nat ops 2) (fpi ops))
                      (of_nat ops n_ant)))
                offset_rad)
           (seq 0 n_ant) |}.

Definition init_block (cfg : config) : block :=
  {| state := SEARCH_RFX;
     counter := 0;
     total_sample_counter := 0;
     lastAOA := (f0 ops, f0 ops);
     antenna_data := reset_arrays cfg |}.

(** *** Power estimator *)

Definition power_of (z : complex) : F :=
  fadd ops (fmul ops (fst z) (fst z)) (fmul ops (snd z) (snd z)).

(** Whether the power of a sample is at or above the threshold: its entry
    in [p_view >= self.threshold]. *)
Definition is_high (cfg : config) (z : complex) : bool :=
  fge ops (power_of z) (threshold cfg).

(** *** Frame binner *)

(** The body of [for i in range(self.max_antennas)] of [work], over the
    remaining indices [idxs]. *)
Fixpoint bin_loop (cfg : config) (start_frame_idx n_process : nat)
    (chunk : list complex) (idxs : list nat)
    (data : list (list (list complex)))
  : option (list (list (list complex))) :=
  match idxs with
  | [] => Some data
  | i :: idxs' =>
      let w_start := i * samples_per_antenna cfg + settling_samp cfg in
      let w_end := (i + 1) * samples_per_antenna cfg in
      let istart := Nat.max start_frame_idx w_start in
      let iend := Nat.min (start_frame_idx + n_process) w_end in
      if istart <? iend then
        let c_start := istart - start_frame_idx in
        let c_end := iend - start_frame_idx in
        match append_at i (slice c_start c_end chunk) data with
        | Some data' =>
            bin_loop cfg start_frame_idx n_process chunk idxs' data'
        | None => None
        end
      else bin_loop cfg start_frame_idx n_process chunk idxs' data
  end.

(** *** AOA estimator *)

(** The summation loop of [calculate_aoa] over the remaining indices. *)
Fixpoint aoa_loop (cfg : config) (raw_arrays : list (list complex))
    (idxs : list nat) (x_sum y_sum : F) : option (F * F) :=
  match idxs with
  | [] => Some (x_sum, y_sum)
  | i :: idxs' =>
      match nth_error raw_arrays i, nth_error (antenna_angles cfg) i with
      | Some arr, Some ang =>
          let magnitude_sum := np_sum ops (map (np_abs ops) arr) in
          aoa_loop cfg raw_arrays idxs'
            (fadd ops x_sum (fmul ops magnitude_sum (fcos ops ang)))
            (fadd ops y_sum (fmul ops magnitude_sum (fsin ops ang)))
      | _, _ => None
      end
  end.

Definition set_lastAOA (st : block) (z : complex) : block :=
  {| state := state st;
     counter := counter st;
     total_sample_counter := total_sample_counter st;
     lastAOA := z;
     antenna_data := antenna_data st |}.

Definition calculate_aoa (cfg : config) (st : block) : option block :=
  let raw_arrays := map (@concat complex) (antenna_data st) in
  if existsb (fun arr => length arr =? 0) raw_arrays then Some st
  else
    match aoa_loop cfg raw_arrays (seq 0 (max_antennas cfg))
            (f0 ops) (f0 ops) with
    | Some z => Some (set_lastAOA st z)
    | None => None
    end.

(** *** One iteration of the [while] loop of [work] *)

(** [power] is computed by [work] once for each buffer, before the loop; it
    depends on the buffer only. *)

Definition search_step (cfg : config) (iq : list complex) (st : block)
    (idx : nat) : block * nat :=
  let n_items := length iq in
  let power := map power_of iq in
  let p_view := skipn idx power in
  let high_indices :=
    flatnonzero (map (fun p => fge ops p (threshold cfg)) p_view) in
  match high_indices with
  | [] =>
      ({| state := SEARCH_RFX;
          counter := counter st + length p_view;
          total_sample_counter := total_sample_counter st;
          lastAOA := lastAOA st;
          antenna_data := antenna_data st |}, n_items)
  | first_high :: _ =>
      let c := counter st + first_high in
      if rfx_gap_threshold cfg <=? c then
        ({| state := CAPTURE_FRAME;
            counter := 0;
            total_sample_counter := 0;
            lastAOA := lastAOA st;
            antenna_data := reset_arrays cfg |}, idx + first_high)
      else
        ({| state := SEARCH_RFX;
            counter := 0;
            total_sample_counter := total_sample_counter st;
            lastAOA := lastAOA st;
            antenna_data := antenna_data st |}, idx + first_high + 1)
  end.

Definition total_frame_size (cfg : config) : nat :=
  samples_per_antenna cfg * max_antennas cfg.

(** [n_process] of the capture branch.  When the counter is beyond the
    frame size Python computes a negative number where this is 0; both
    fail the test [n_process > 0]. *)
Definition n_process_of (cfg : config) (iq : list complex) (st : block)
    (idx : nat) : nat :=
  let remaining_in_frame := total_frame_size cfg - total_sample_counter st in
  let remaining_in_input := length iq - idx in
  Nat.min remaining_in_frame remaining_in_input.

(** The state after the [if n_process > 0] block. *)
Definition capture_chunk (cfg : config) (iq : list complex) (st : block)
    (idx : nat) : option (block * nat) :=
  let n_process := n_process_of cfg iq st idx in
  if 0 <? n_process then
    let chunk := slice idx (idx + n_process) iq in
    let start_frame_idx := total_sample_counter st in
    match bin_loop cfg start_frame_idx n_process chunk
            (seq 0 (max_antennas cfg)) (antenna_data st) with
    | Some data' =>
        Some ({| state := state st;
                 counter := counter st;
                 total_sample_counter := total_sample_counter st + n_process;
                 lastAOA := lastAOA st;
                 antenna_data := data' |}, idx + n_process)
    | None => None
    end
  else Some (st, idx).

(** The end of the capture branch: the frame is complete. *)
Definition finish_frame (st : block) : block :=
  {| state := SEARCH_RFX;
     counter := 0;
     total_sample_counter := total_sample_counter st;
     lastAOA := lastAOA st;
     antenna_data := antenna_data st |}.

Definition capture_step (cfg : config) (iq : list complex) (st : block)
    (idx : nat) : option (block * nat) :=
  match capture_chunk cfg iq st idx with
  | Some (st1, idx1) =>
      if total_frame_size cfg <=? total_sample_counter st1 then
        match calculate_aoa cfg st1 with
        | Some st2 => Some (finish_frame st2, idx1)
        | None => None
        end
      else Some (st1, idx1)
  | None => None
  end.

Definition loop_body (cfg : config) (iq : list complex) (st : block)
    (idx : nat) : option (block * nat) :=
  match state st with
  | SEARCH_RFX => Some (search_step cfg iq st idx)
  | CAPTURE_FRAME => capture_step cfg iq st idx
  end.

(** *** The [while idx < n_items] loop, with a bound on its iterations *)

Fixpoint work_loop (fuel : nat) (cfg : config) (iq : list complex)
    (st : block) (idx : nat) : outcome block :=
  if idx <? length iq then
    match fuel with
    | 0 => OutOfFuel
    | S fuel' =>
        match loop_body cfg iq st idx with
        | Some (st', idx') => work_loop fuel' cfg iq st' idx'
        | None => IndexError
        end
    end
  else Done st.

(** What an item of a [numpy.complex64] array holds after the Python
    complex [z] is assigned to it: both parts in single precision. *)
Definition to_complex64 (z : complex) : complex :=
  (to_f32 ops (fst z), to_f32 ops (snd z)).

(** [work]: [iq] is [input_items[0]] and [out] is [output_items[0]], an
    array of [numpy.complex64].  The result is the block afterwards, the
    output buffer as written by [out[:] = self.lastAOA], and the returned
    [len(out)]. *)
Definition work_fuel (fuel : nat) (cfg : config) (st : block)
    (iq out : list complex) : outcome (block * list complex * nat) :=
  let out' := repeat (to_complex64 (lastAOA st)) (length out) in
  match work_loop fuel cfg iq st 0 with
  | Done st' => Done (st', out', length out')
  | IndexError => IndexError
  | OutOfFuel => OutOfFuel
  end.

(** [work] with three iterations allowed for each sample and three more:
    enough whenever the frame holds at least one sample. *)
Definition work (cfg : config) (st : block) (iq out : list complex)
  : outcome (block * list complex * nat) :=
  work_fuel (3 * length iq + 3) cfg st iq out.

End Block.

Unset Implicit Arguments.

(** ** Notions used to state the properties *)

Section Notions.

Context {F : Type} (ops : float_ops F).

(** Frame position [q] lies in the dwell window of antenna [i], after its
    settling samples. *)
Definition in_window (cfg : @config F) (i q : nat) : bool :=
  (i * samples_per_antenna cfg + settling_samp cfg <=? q)
  && (q <? (i + 1) * samples_per_antenna cfg).

(** The samples of [chunk], whose first sample is at frame position [p],
    that lie in the window of antenna [i], in order of arrival. *)
Definition window_part (cfg : @config F) (i p : nat)
    (chunk : list (@complex F)) : list (@complex F) :=
  map snd
    (filter (fun qz => in_window cfg i (fst qz))
       (combine (seq p (length chunk)) chunk)).

(** The samples held by each antenna bin: its chunks joined. *)
Definition bins (st : @block F) : list (list (@complex F)) :=
  map (@concat _) (antenna_data st).

(** The bins after the samples of [chunk] have been added. *)
Definition binned (cfg : @config F) (p : nat) (chunk : list (@complex F))
    (flat : list (list (@complex F))) : list (list (@complex F)) :=
  map (fun ib => snd ib ++ window_part cfg (fst ib) p chunk)
    (combine (seq 0 (length flat)) flat).

(** The strength of an antenna: the sum of the magnitudes of the samples
    in its bin. *)
Definition magnitude_sum (b : list (@complex F)) : F :=
  np_sum ops (map (np_abs ops) b).

(** The vector sum of the design document: [x] is the sum of
    [mag_i * cos angle_i] and [y] the sum of [mag_i * sin angle_i], the
    antennas taken in order. *)
Definition vector_sum (mags angles : list F) : F * F :=
  fold_left
    (fun acc ma =>
       (fadd ops (fst acc) (fmul ops (fst ma) (fcos ops (snd ma))),
        fadd ops (snd acc) (fmul ops (fst ma) (fsin ops (snd ma)))))
    (combine mags angles) (f0 ops, f0 ops).

(** What [__init__] and [reset_arrays] establish: one angle and one bin
    for each antenna. *)
Definition wf_config (cfg : @config F) : Prop :=
  length (antenna_angles cfg) = max_antennas cfg.

Definition wf_block (cfg : @config F) (st : @block F) : Prop :=
  length (antenna_data st) = max_antennas cfg.

(** Two blocks with the same state, counters, estimate and bin contents;
    how a bin is cut into chunks is not compared. *)
Definition same_block (st st' : @block F) : Prop :=
  state st = state st' /\
  counter st = counter st' /\
  total_sample_counter st = total_sample_counter st' /\
  lastAOA st = lastAOA st' /\
  bins st = bins st'.

(** The [while] loop as a relation: from [st] at [idx] it ends in the
    block [stf]. *)
Inductive loop_rel (cfg : @config F) (iq : list (@complex F))
  : @block F -> nat -> @block F -> Prop :=
| loop_exit st idx :
    length iq <= idx -> loop_rel cfg iq st idx st
| loop_iter st idx st' idx' stf :
    idx < length iq ->
    loop_body ops cfg iq st idx = Some (st', idx') ->
    loop_rel cfg iq st' idx' stf ->
    loop_rel cfg iq st idx stf.

(** A bound on the iterations left: three for each remaining sample, and
    the position of the block in the cycle search, capture, search. *)
Definition phase (cfg : @config F) (st : @block F) : nat :=
  match state st with
  | SEARCH_RFX => 1
  | CAPTURE_FRAME =>
      if total_frame_size cfg <=? total_sample_counter st then 2 else 0
  end.

Definition measure (cfg : @config F) (iq : list (@complex F))
    (st : @block F) (idx : nat) : nat :=
  3 * (length iq - idx) + phase cfg st.

(** The bound on the iterations left when the frame is empty and the gap
    threshold is not 0: a capture iteration completes the frame at once
    and leaves the silence counter at 0, so the search that follows moves
    on. *)
Definition phase_empty (st : @block F) : nat :=
  match state st with
  | SEARCH_RFX => if counter st =? 0 then 1 else 3
  | CAPTURE_FRAME => 2
  end.

Definition measure_empty (iq : list (@complex F)) (st : @block F)
    (idx : nat) : nat :=
  3 * (length iq - idx) + phase_empty st.

(** While capturing, the frame is not yet complete. *)
Definition frame_inv (cfg : @config F) (st : @block F) : Prop :=
  state st = CAPTURE_FRAME ->
  total_sample_counter st < total_frame_size cfg.

(** Successive calls of [work], one for each buffer; the output buffer of
    a call has the length of its input. *)
Fixpoint work_seq (cfg : @config F) (st : @block F)
    (bufs : list (list (@complex F))) : outcome (@block F) :=
  match bufs with
  | [] => Done st
  | iq :: bufs' =>
      match work ops cfg st iq iq with
      | Done (st', _, _) => work_seq cfg st' bufs'
      | IndexError => IndexError
      | OutOfFuel => OutOfFuel
      end
  end.

End Notions.

(** ** Concrete samples, configurations and blocks, in exact arithmetic *)

(** A sample of power 1 and a sample of power 0. *)
Definition hi : @complex R := (1%R, 0%R).
Definition lo : @complex R := (0%R, 0%R).

(** One antenna with one sample, no settling sample, threshold 1. *)
Definition cfg_one : @config R := init_config R_ops 1 0 1 1%R 0%R.

(** Two antennas with four samples each, of which one settling sample;
    the gap threshold is 3. *)
Definition cfg_two : @config R := init_config R_ops 4 1 2 1%R 0%R.

(** A dwell time shorter than one sample period. *)
Definition cfg_none : @config R := init_config R_ops 0 0 1 1%R 0%R.

(** No antenna, with a dwell of four samples: the gap threshold is 3. *)
Definition cfg_bare : @config R := init_config R_ops 4 0 0 1%R 0%R.

(** The block as a synchronisation leaves it. *)
Definition synced (cfg : @config R) : @block R :=
  {| state := CAPTURE_FRAME;
     counter := 0;
     total_sample_counter := 0;
     lastAOA := (0%R, 0%R);
     antenna_data := reset_arrays cfg |}.

(** A searching block that has seen [c] samples of silence. *)
Definition searching (cfg : @config R) (c : nat) : @block R :=
  {| state := SEARCH_RFX;
     counter := c;
     total_sample_counter := 0;
     lastAOA := (0%R, 0%R);
     antenna_data := reset_arrays cfg |}.

(** One antenna whose only sample is a settling sample. *)
Definition cfg_settle : @config R := init_config R_ops 1 1 1 1%R 0%R.

(** ** The frame held by the bins *)

Section Held.

Context {F : Type}.

(** The contents of the bins as [reset_arrays] leaves them. *)
Definition empty_bins (cfg : @config F) : list (list (@complex F)) :=
  map (fun _ => []) (seq 0 (max_antennas cfg)).

(** The frame position is within the frame, and the bins hold what the
    binner has kept of the samples captured since the last
    synchronisation, as many as the frame position says. *)
Definition captured_inv (cfg : @config F) (st : @block F) : Prop :=
  total_sample_counter st <= total_frame_size cfg /\
  exists captured,
    length captured = total_sample_counter st /\
    bins st = binned cfg 0 captured (empty_bins cfg).

End Held.

(** ** The frame and the samples it was cut from *)

Section Seen.

Context {F : Type} (ops : float_ops F).

(** [seen] are the samples the block has gone over so far.  The samples
    captured since the last synchronisation are a run of them, as many as
    the frame position says; the run starts with a sample at or above the
    threshold, it ends where [seen] ends while the block is capturing,
    and the bins hold what the binner keeps of it. *)
Definition holds_frame (cfg : @config F) (seen : list (@complex F))
    (st : @block F) : Prop :=
  total_sample_counter st <= total_frame_size cfg /\
  exists before captured after,
    seen = before ++ captured ++ after /\
    length captured = total_sample_counter st /\
    bins st = binned cfg 0 captured (empty_bins cfg) /\
    (state st = CAPTURE_FRAME -> after = []) /\
    (forall z rest, captured = z :: rest -> is_high ops cfg z = true).

(** Just after a synchronisation the scan index is on the rising edge. *)
Definition edge_next (cfg : @config F) (iq : list (@complex F))
    (st : @block F) (idx : nat) : Prop :=
  state st = CAPTURE_FRAME ->
  total_sample_counter st = 0 ->
  1 <= total_frame_size cfg ->
  exists z, nth_error iq idx = Some z /\ is_high ops cfg z = true.

(** Between two calls no frame is waiting for its first sample. *)
Definition frame_begun (cfg : @config F) (st : @block F) : Prop :=
  state st = CAPTURE_FRAME ->
  total_sample_counter st = 0 ->
  total_frame_size cfg = 0.

End Seen.

(** ** Buffers in memory *)

(** A slice of a numpy array is a view: it holds no samples of its own,
    and reads the memory of the array it was cut from each time it is
    used.  [work] appends slices of its input buffer to the bins, and
    [calculate_aoa] reads them when the frame is complete, which can be
    several calls later.  Here arrays are named by numbers, a [memory]
    gives what each array holds at the time of a call, and the bins hold
    views.  The functions follow those of the block above line for line;
    only [bin_loop] and [calculate_aoa] touch the views. *)
Module Views.

Section Block.

Context {F : Type} (ops : float_ops F).

(** The items [first] to [past - 1] of the array [base]. *)
Record view : Type := {
  base  : nat;
  first : nat;
  past  : nat
}.

Definition memory : Type := nat -> list (@complex F).

(** What a view shows in the memory [m]. *)
Definition read (m : memory) (v : view) : list (@complex F) :=
  slice (first v) (past v) (m (base v)).

(** [v[a:b]]: a view of the same array; Python cuts the bounds to the
    length of [v]. *)
Definition subview (v : view) (a b : nat) : view :=
  let n := past v - first v in
  {| base := base v;
     first := first v + Nat.min a n;
     past := first v + Nat.min b n |}.

(** An array of [n] items as a view of itself. *)
Definition whole (b n : nat) : view :=
  {| base := b; first := 0; past := n |}.

Record block : Type := {
  state                : sync_state;
  counter              : nat;
  total_sample_counter : nat;
  lastAOA              : @complex F;
  antenna_data         : list (list view)
}.

Definition reset_arrays (cfg : @config F) : list (list view) :=
  map (fun _ => []) (seq 0 (max_antennas cfg)).

Definition init_block (cfg : @config F) : block :=
  {| state := SEARCH_RFX;
     counter := 0;
     total_sample_counter := 0;
     lastAOA := (f0 ops, f0 ops);
     antenna_data := reset_arrays cfg |}.

(** The body of [for i in range(self.max_antennas)]: [chunk] is the view
    [iq[idx : idx + n_process]], and what is appended is the view
    [chunk[c_start:c_end]]. *)
Fixpoint bin_loop (cfg : @config F) (start_frame_idx n_process : nat)
    (chunk : view) (idxs : list nat) (data : list (list view))
  : option (list (list view)) :=
  match idxs with
  | [] => Some data
  | i :: idxs' =>
      let w_start := i * samples_per_antenna cfg + settling_samp cfg in
      let w_end := (i + 1) * samples_per_antenna cfg in
      let istart := Nat.max start_frame_idx w_start in
      let iend := Nat.min (start_frame_idx + n_process) w_end in
      if istart <? iend then
        let c_start := istart - start_frame_idx in
        let c_end := iend - start_frame_idx in
        match append_at i (subview chunk c_start c_end) data with
        | Some data' =>
            bin_loop cfg start_frame_idx n_process chunk idxs' data'
        | None => None
        end
      else bin_loop cfg start_frame_idx n_process chunk idxs' data
  end.

Definition set_lastAOA (st : block) (z : @complex F) : block :=
  {| state := state st;
     counter := counter st;
     total_sample_counter := total_sample_counter st;
     lastAOA := z;
     antenna_data := antenna_data st |}.

(** [calculate_aoa]: [numpy.concatenate(chunks)] copies what the views
    show now, in the memory [m]. *)
Definition calculate_aoa (m : memory) (cfg : @config F) (st : block)
  : option block :=
  let raw_arrays :=
    map (fun chunks => concat (map (read m) chunks)) (antenna_data st) in
  if existsb (fun arr => length arr =? 0) raw_arrays then Some st
  else
    match aoa_loop ops cfg raw_arrays (seq 0 (max_antennas cfg))
            (f0 ops) (f0 ops) with
    | Some z => Some (set_lastAOA st z)
    | None => None
    end.

(** The search branch reads [power], computed from the buffer at the
    beginning of the call. *)
Definition search_step (cfg : @config F) (iq : list (@complex F))
    (st : block) (idx : nat) : block * nat :=
  let n_items := length iq in
  let power := map (power_of ops) iq in
  let p_view := skipn idx power in
  let high_indices :=
    flatnonzero (map (fun p => fge ops p (threshold cfg)) p_view) in
  match high_indices with
  | [] =>
      ({| state := SEARCH_RFX;
          counter := counter st + length p_view;
          total_sample_counter := total_sample_counter st;
          lastAOA := lastAOA st;
          antenna_data := antenna_data st |}, n_items)
  | first_high :: _ =>
      let c := counter st + first_high in
      if rfx_gap_threshold cfg <=? c then
        ({| state := CAPTURE_FRAME;
            counter := 0;
            total_sample_counter := 0;
            lastAOA := lastAOA st;
            antenna_data := reset_arrays cfg |}, idx + first_high)
      else
        ({| state := SEARCH_RFX;
            counter := 0;
            total_sample_counter := total_sample_counter st;
            lastAOA := lastAOA st;
            antenna_data := antenna_data st |}, idx + first_high + 1)
  end.

Definition n_process_of (cfg : @config F) (n_items : nat) (st : block)
    (idx : nat) : nat :=
  let remaining_in_frame := total_frame_size cfg - total_sample_counter st in
  let remaining_in_input := n_items - idx in
  Nat.min remaining_in_frame remaining_in_input.

(** The [if n_process > 0] block; [iq] names the input array, of
    [n_items] items. *)
Definition capture_chunk (cfg : @config F) (iq n_items : nat) (st : block)
    (idx : nat) : option (block * nat) :=
  let n_process := n_process_of cfg n_items st idx in
  if 0 <? n_process then
    let chunk := subview (whole iq n_items) idx (idx + n_process) in
    let start_frame_idx := total_sample_counter st in
    match bin_loop cfg start_frame_idx n_process chunk
            (seq 0 (max_antennas cfg)) (antenna_data st) with
    | Some data' =>
        Some ({| state := state st;
                 counter := counter st;
                 total_sample_counter := total_sample_counter st + n_process;
                 lastAOA := lastAOA st;
                 antenna_data := data' |}, idx + n_process)
    | None => None
    end
  else Some (st, idx).

Definition finish_frame (st : block) : block :=
  {| state := SEARCH_RFX;
     counter := 0;
     total_sample_counter := total_sample_counter st;
     lastAOA := lastAOA st;
     antenna_data := antenna_data st |}.

Definition capture_step (m : memory) (cfg : @config F) (iq : nat)
    (st : block) (idx : nat) : option (block * nat) :=
  match capture_chunk cfg iq (length (m iq)) st idx with
  | Some (st1, idx1) =>
      if total_frame_size cfg <=? total_sample_counter st1 then
        match calculate_aoa m cfg st1 with
        | Some st2 => Some (finish_frame st2, idx1)
        | None => None
        end
      else Some (st1, idx1)
  | None => None
  end.

Definition loop_body (m : memory) (cfg : @config F) (iq : nat)
    (st : block) (idx : nat) : option (block * nat) :=
  match state st with
  | SEARCH_RFX => Some (search_step cfg (m iq) st idx)
  | CAPTURE_FRAME => capture_step m cfg iq st idx
  end.

Fixpoint work_loop (fuel : nat) (m : memory) (cfg : @config F) (iq : nat)
    (st : block) (idx : nat) : outcome block :=
  if idx <? length (m iq) then
    match fuel with
    | 0 => OutOfFuel
    | S fuel' =>
        match loop_body m cfg iq st idx with
        | Some (st', idx') => work_loop fuel' m cfg iq st' idx'
        | None => IndexError
        end
    end
  else Done st.

(** [work] in the memory [m]: [iq] names the array [input_items[0]],
    which holds [m iq] during the call; [out] is [output_items[0]]. *)
Definition work_fuel (fuel : nat) (m : memory) (cfg : @config F)
    (st : block) (iq : nat) (out : list (@complex F))
  : outcome (block * list (@complex F) * nat) :=
  let out' := repeat (to_complex64 ops (lastAOA st)) (length out) in
  match work_loop fuel m cfg iq st 0 with
  | Done st' => Done (st', out', length out')
  | IndexError => IndexError
  | OutOfFuel => OutOfFuel
  end.

Definition work (m : memory) (cfg : @config F) (st : block) (iq : nat)
    (out : list (@complex F))
  : outcome (block * list (@complex F) * nat) :=
  work_fuel (3 * length (m iq) + 3) m cfg st iq out.

(** Successive calls: each with the memory as it is during the call and
    the array it is given; the output buffer has the length of the
    input. *)
Fixpoint work_seq (cfg : @config F) (st : block)
    (calls : list (memory * nat)) : outcome block :=
  match calls with
  | [] => Done st
  | (m, iq) :: calls' =>
      match work m cfg st iq (m iq) with
      | Done (st', _, _) => work_seq cfg st' calls'
      | IndexError => IndexError
      | OutOfFuel => OutOfFuel
      end
  end.

End Block.

End Views.

(** The block with what its views show in the memory [m]: the bins as
    [calculate_aoa] would find them if it ran now. *)
Definition shown {F : Type} (m : @Views.memory F) (st : @Views.block F)
  : @block F :=
  {| state := Views.state st;
     counter := Views.counter st;
     total_sample_counter := Views.total_sample_counter st;
     lastAOA := Views.lastAOA st;
     antenna_data := map (map (Views.read m)) (Views.antenna_data st) |}.

(** The outcome of a call, with its result changed by [f]. *)
Definition outcome_map {A B : Type} (f : A -> B) (o : outcome A)
  : outcome B :=
  match o with
  | Done a => Done (f a)
  | IndexError => IndexError
  | OutOfFuel => OutOfFuel
  end.

(** The memory in which the arrays 0, 1, ... hold the lists of
    [arrays]. *)
Definition memory_of {F : Type} (arrays : list (list (@complex F)))
  : @Views.memory F :=
  fun b => nth b arrays [].

(** ** Binary floating-point arithmetic as an instance *)

(** The arithmetic of numpy on this block is that of IEEE 754: double
    precision for Python floats and [numpy.float64], single precision for
    the parts of a [numpy.complex64] and for [numpy.float32].  Numbers
    are kept as doubles; a single-precision number is a double that
    [to_single] leaves as it is.  Sums, products, quotients, comparisons
    and conversions are those of the standard, rounded to nearest even.
    Cosine and sine are computed to 512 binary digits and then rounded,
    for arguments up to 64 in magnitude. *)
Module Binary64.

Local Open Scope Z_scope.

(** Double precision: 53 bits, exponents below 1024; single precision: 24
    bits, exponents below 128. *)
Definition add (a b : spec_float) : spec_float := SFadd 53 1024 a b.
Definition mul (a b : spec_float) : spec_float := SFmul 53 1024 a b.
Definition div (a b : spec_float) : spec_float := SFdiv 53 1024 a b.
Definition ge (a b : spec_float) : bool := SFleb b a.

(** The double that is nearest to [m * 2 ^ e]. *)
Definition nearest (m e : Z) : spec_float := binary_normalize 53 1024 m e false.

Definition of_int (n : nat) : spec_float := nearest (Z.of_nat n) 0.

(** A double rounded to single precision, kept as a double. *)
Definition to_single (a : spec_float) : spec_float :=
  match a with
  | S754_finite s m e =>
      match binary_round 24 128 s m e with
      | S754_finite s' m' e' => binary_round 53 1024 s' m' e'
      | r => r
      end
  | _ => a
  end.

(** [numpy.pi]. *)
Definition pi : spec_float := nearest 7074237752028440 (-51).

(** *** Cosine and sine *)

(** Numbers with [frac_bits] binary digits after the point, as integers. *)
Definition frac_bits : Z := 512.

Definition fixed_of (s : bool) (m : positive) (e : Z) : Z :=
  cond_Zopp s (Z.shiftl (Zpos m) (e + frac_bits)).

(** The sum of [n] more terms of the series of cosine or sine: each term
    is the one before times [- x ^ 2 / (k * (k + 1))]. *)
Fixpoint series (n : nat) (k : Z) (x2 term acc : Z) : Z :=
  match n with
  | O => acc
  | S n' =>
      let term' := - (Z.shiftr (term * x2) frac_bits) / (k * (k + 1)) in
      series n' (k + 2) x2 term' (acc + term')
  end.

Definition fixed_cos (x : Z) : Z :=
  let one := Z.shiftl 1 frac_bits in
  series 240 1 (Z.shiftr (x * x) frac_bits) one one.

Definition fixed_sin (x : Z) : Z :=
  series 240 2 (Z.shiftr (x * x) frac_bits) x x.

(** The arguments the series are used for: from [2 ^ -27] to 64 in
    magnitude. *)
Definition tiny (m : positive) (e : Z) : bool :=
  Z.pos (digits2_pos m) + e <=? -27.

Definition huge (m : positive) (e : Z) : bool :=
  6 <? Z.pos (digits2_pos m) + e.

Definition cos (a : spec_float) : spec_float :=
  match a with
  | S754_zero _ => nearest 1 0
  | S754_finite s m e =>
      if tiny m e then nearest 1 0
      else if huge m e then S754_nan
      else nearest (fixed_cos (fixed_of s m e)) (- frac_bits)
  | _ => S754_nan
  end.

Definition sin (a : spec_float) : spec_float :=
  match a with
  | S754_finite s m e =>
      if tiny m e then a
      else if huge m e then S754_nan
      else nearest (fixed_sin (fixed_of s m e)) (- frac_bits)
  | S754_zero _ => a
  | _ => S754_nan
  end.

(** [numpy.radians]: the angle times [pi / 180]. *)
Definition deg2rad (a : spec_float) : spec_float :=
  mul a (div pi (of_int 180)).

(** [numpy.abs] of a [complex64]: the root of the sum of the squares,
    computed in double precision and rounded to single. *)
Definition magnitude (z : spec_float * spec_float) : spec_float :=
  to_single (SFsqrt 53 1024 (add (mul (fst z) (fst z)) (mul (snd z) (snd z)))).

(** [numpy.sum] of an array of [float32], for the short arrays of the
    examples below: the items are added in order, in single precision. *)
Definition sum_single (l : list spec_float) : spec_float :=
  fold_left (fun a b => to_single (add a b)) l (S754_zero false).

End Binary64.

Definition B64_ops : float_ops spec_float := {|
  f0      := S754_zero false;
  fadd    := Binary64.add;
  fmul    := Binary64.mul;
  fdiv    := Binary64.div;
  fge     := Binary64.ge;
  of_nat  := Binary64.of_int;
  fpi     := Binary64.pi;
  radians := Binary64.deg2rad;
  fcos    := Binary64.cos;
  fsin    := Binary64.sin;
  np_abs  := Binary64.magnitude;
  np_sum  := Binary64.sum_single;
  to_f32  := Binary64.to_single;
  to_f32_zero := eq_refl
|}.


(** *** Samples and blocks in binary floating point *)

(** The doubles 0.0 and 1.0, and the samples [0 + 0j] and [1 + 0j]. *)
Definition zero64 : spec_float := S754_zero false.
Definition one64 : spec_float := Binary64.nearest 1 0.
Definition lo64 : @complex spec_float := (zero64, zero64).
Definition hi64 : @complex spec_float := (one64, zero64).

(** One antenna with one sample, no settling sample, threshold 1.0; the
    gap threshold is 0. *)
Definition cfg_one64 : @config spec_float :=
  init_config B64_ops 1 0 1 one64 zero64.

(** No antenna, with a dwell of four samples: the gap threshold is 3. *)
Definition cfg_bare64 : @config spec_float :=
  init_config B64_ops 4 0 0 one64 zero64.

(** One antenna with a dwell of two samples; the gap threshold is 1. *)
Definition cfg_pair64 : @config spec_float :=
  init_config B64_ops 2 0 1 one64 zero64.

(** Four antennas with one sample each, at 0, 90, 180 and 270 degrees,
    threshold 1.0; the gap threshold is 0. *)
Definition cfg_quad64 : @config spec_float :=
  init_config B64_ops 1 0 4 one64 zero64.


(** The doubles -1.8369701987210297e-16 and 2.220446049250313e-16, and
    the first of them rounded to single precision,
    -1.8369701465288538e-16. *)
Definition residue_x : spec_float :=
  S754_finite true 7451636400032266 (-105).
Definition residue_y : spec_float :=
  S754_finite false 4503599627370496 (-104).
Definition residue_x32 : spec_float :=
  S754_finite true 7451636188315648 (-105).

(** ** The switch driver ([ArduinoSwitcherDriver]) *)

(** The driver talks to a [serial.Serial] object.  That object is kept
    behind an interface: every operation gives the new state of the port
    and either a result or the exception it raises.  The functions below
    return, with their result, the calls they make on the port and the
    lines they print, in order. *)
Module Driver.

Import Stdlib.Strings.String Stdlib.Strings.Ascii.

(** Exceptions: those of the port, with their text, and those of the
    codec. *)
Inductive exn : Type :=
| SerialException (msg : string)
| UnicodeEncodeError
| UnicodeDecodeError.

Record serial_api (D : Type) : Type := {
  Serial             : string -> Z -> exn + D;
  is_open            : D -> bool;
  reset_input_buffer : D -> option exn * D;
  write              : D -> string -> option exn * D;
  readline           : D -> (exn + string) * D;
  close_port         : D -> option exn * D
}.

Arguments Serial {D}.
Arguments is_open {D}.
Arguments reset_input_buffer {D}.
Arguments write {D}.
Arguments readline {D}.
Arguments close_port {D}.

(** The lines printed, by their format string. *)
Inductive message : Type :=
| Connecting (port : string) (baud : Z)
| Connected
| CouldNotConnect (e : exn)
| HardwareNotFound
| ExpectedGot (expected response : string)
| CommunicationError (e : exn)
| ConnectionClosed.

Inductive event : Type :=
| CallSerial (port : string) (baud : Z)
| CallSleep (seconds : nat)
| CallReset
| CallWrite (data : string)
| CallReadline
| CallClose
| Print (m : message).

(** *** Strings *)

(** [s.encode('ascii')] and [b.decode('ascii')]: the text itself when all
    its characters are below 128. *)
Definition is_ascii (c : ascii) : bool := nat_of_ascii c <? 128.

Definition ascii_codec (s : string) : option string :=
  if forallb is_ascii (list_ascii_of_string s) then Some s else None.

(** The white space of [str.strip] among the characters below 128. *)
Definition is_space (c : ascii) : bool :=
  let n := nat_of_ascii c in
  ((9 <=? n) && (n <=? 13)) || ((28 <=? n) && (n <=? 32)).

Fixpoint lstrip (l : list ascii) : list ascii :=
  match l with
  | [] => []
  | c :: l' => if is_space c then lstrip l' else l
  end.

Definition strip (s : string) : string :=
  string_of_list_ascii
    (rev (lstrip (rev (lstrip (list_ascii_of_string s))))).

(** [str.upper] on characters below 128. *)
Definition upper_char (c : ascii) : ascii :=
  let n := nat_of_ascii c in
  if (97 <=? n) && (n <=? 122) then ascii_of_nat (n - 32) else c.

Definition upper (s : string) : string :=
  string_of_list_ascii (map upper_char (list_ascii_of_string s)).

Definition newline : string := String (ascii_of_nat 10) EmptyString.

(** [str(n)] for an integer. *)
Definition str_of_int (n : Z) : string :=
  DecimalString.NilZero.string_of_int (Z.to_int n).

(** *** The driver object *)

Section WithPort.

Context {D : Type} (api : serial_api D).

Record driver : Type := {
  port : string;
  baud : Z;
  ser  : option D
}.

Definition set_ser (self : driver) (d : option D) : driver :=
  {| port := port self; baud := baud self; ser := d |}.

(** What a method leaves: the exception it raises if any, the object
    afterwards, and what it has done. *)
Record reply : Type := {
  raised : option exn;
  self'  : driver;
  trace  : list event
}.

(** [_connect] *)
Definition _connect (self : driver) : driver * list event :=
  match Serial api (port self) (baud self) with
  | inr d =>
      (set_ser self (Some d),
       [Print (Connecting (port self) (baud self));
        CallSerial (port self) (baud self);
        CallSleep 2;
        Print Connected])
  | inl e =>
      (set_ser self None,
       [Print (Connecting (port self) (baud self));
        CallSerial (port self) (baud self);
        Print (CouldNotConnect e);
        Print HardwareNotFound])
  end.

(** [__init__] *)
Definition new_driver (p : string) (baud_rate : Z)
  : driver * list event :=
  _connect {| port := p; baud := baud_rate; ser := None |}.

(** [send_command].  [reset_input_buffer] is called before the [try]
    block: what it raises leaves the method. *)
Definition send_command (self : driver) (cmd : string) : reply :=
  match ser self with
  | None => {| raised := None; self' := self; trace := [] |}
  | Some d =>
      if is_open api d then
        match reset_input_buffer api d with
        | (Some e, d1) =>
            {| raised := Some e; self' := set_ser self (Some d1);
               trace := [CallReset] |}
        | (None, d1) =>
            let full_cmd := (cmd ++ newline)%string in
            match ascii_codec full_cmd with
            | None =>
                {| raised := None; self' := set_ser self (Some d1);
                   trace := [CallReset;
                             Print (CommunicationError UnicodeEncodeError)] |}
            | Some data =>
                match write api d1 data with
                | (Some e, d2) =>
                    {| raised := None; self' := set_ser self (Some d2);
                       trace := [CallReset; CallWrite data;
                                 Print (CommunicationError e)] |}
                | (None, d2) =>
                    match readline api d2 with
                    | (inl e, d3) =>
                        {| raised := None; self' := set_ser self (Some d3);
                           trace := [CallReset; CallWrite data; CallReadline;
                                     Print (CommunicationError e)] |}
                    | (inr line, d3) =>
                        let done :=
                          [CallReset; CallWrite data; CallReadline] in
                        match line with
                        | EmptyString =>
                            {| raised := None;
                               self' := set_ser self (Some d3);
                               trace := done |}
                        | _ =>
                            match ascii_codec line with
                            | None =>
                                {| raised := None;
                                   self' := set_ser self (Some d3);
                                   trace :=
                                     done ++
                                     [Print (CommunicationError
                                               UnicodeDecodeError)] |}
                            | Some text =>
                                let response := strip text in
                                let expected := (cmd ++ " set")%string in
                                if String.eqb (upper response)
                                     (upper expected)
                                then
                                  {| raised := None;
                                     self' := set_ser self (Some d3);
                                     trace := done |}
                                else
                                  {| raised := None;
                                     self' := set_ser self (Some d3);
                                     trace :=
                                       done ++
                                       [Print (ExpectedGot expected
                                                 response)] |}
                            end
                        end
                    end
                end
            end
        end
      else {| raised := None; self' := self; trace := [] |}
  end.

(** [set_dwell_time], on [int(microseconds)]. *)
Definition set_dwell_time (self : driver) (microseconds : Z) : reply :=
  send_command self ("T" ++ str_of_int microseconds)%string.

Definition start_cycle (self : driver) : reply :=
  send_command self "CYCLE"%string.

Definition stop_cycle (self : driver) : reply :=
  send_command self "RFX"%string.

(** [close]: what [stop_cycle] raises is dropped; what [close] of the
    port raises leaves the method. *)
Definition close (self : driver) : reply :=
  match ser self with
  | None => {| raised := None; self' := self; trace := [] |}
  | Some _ =>
      let r := stop_cycle self in
      match ser (self' r) with
      | None => {| raised := None; self' := self' r; trace := trace r |}
      | Some d =>
          match close_port api d with
          | (Some e, d') =>
              {| raised := Some e; self' := set_ser (self' r) (Some d');
                 trace := trace r ++ [CallClose] |}
          | (None, d') =>
              {| raised := None; self' := set_ser (self' r) (Some d');
                 trace := trace r ++ [CallClose; Print ConnectionClosed] |}
          end
      end
  end.

(** *** The hardware part of [switch_sync] *)

(** The lines of [switch_sync.__init__] under [# Hardware Control], with
    [dwell_us] the integer part of [dwell_time * 1e6]: the value of
    [self.arduino], the exception that ends the constructor if any, and
    what has been done. *)
Definition init_hardware (serial_port : string) (baud_rate : Z)
    (dwell_us : Z) : option exn * option driver * list event :=
  match serial_port with
  | EmptyString => (None, None, [])
  | _ =>
      let (drv, ev) := new_driver serial_port baud_rate in
      let r1 := set_dwell_time drv dwell_us in
      match raised r1 with
      | Some e => (Some e, Some (self' r1), ev ++ trace r1)
      | None =>
          let r2 := start_cycle (self' r1) in
          (raised r2, Some (self' r2), ev ++ trace r1 ++ trace r2)
      end
  end.

(** [switch_sync.stop]: the value returned or the exception raised, the
    value of [self.arduino], and what has been done. *)
Definition stop (arduino : option driver)
  : (exn + bool) * option driver * list event :=
  match arduino with
  | None => (inr true, None, [])
  | Some drv =>
      let r := close drv in
      match raised r with
      | Some e => (inl e, Some (self' r), trace r)
      | None => (inr true, Some (self' r), trace r)
      end
  end.

End WithPort.

(** *** A port that works *)

(** A link on which every operation succeeds: [replies] are the lines the
    successive calls of [readline] return (the empty line when none is
    left, as after the timeout), [sent] what has been written. *)
Record link : Type := {
  link_open : bool;
  replies   : list string;
  sent      : list string
}.

Definition link_api (script : list string) : serial_api link := {|
  Serial := fun _ _ =>
    inr {| link_open := true; replies := script; sent := [] |};
  is_open := link_open;
  reset_input_buffer := fun d => (None, d);
  write := fun d data =>
    (None, {| link_open := link_open d; replies := replies d;
              sent := sent d ++ [data] |});
  readline := fun d =>
    match replies d with
    | [] => (inr EmptyString, d)
    | r :: rs =>
        (inr r, {| link_open := link_open d; replies := rs;
                   sent := sent d |})
    end;
  close_port := fun d =>
    (None, {| link_open := false; replies := replies d; sent := sent d |})
|}.

(** The calls on the port among the events. *)
Definition is_call (e : event) : bool :=
  match e with
  | Print _ => false
  | CallSleep _ => false
  | _ => true
  end.

Definition crlf : string :=
  String (ascii_of_nat 13) (String (ascii_of_nat 10) EmptyString).

(** A driver on an open link whose switch will answer with [answers]. *)
Definition on_link (answers : list string) : @driver link :=
  {| port := "/dev/ttyACM0"; baud := 115200;
     ser := Some {| link_open := true; replies := answers; sent := [] |} |}.

End Driver.

(** ** Scanning for the rising edge *)

Section Search.

Context {F : Type} (ops : float_ops F).

(** The output buffer holds [0 + 0j] as it is. *)
Lemma to_complex64_zero :
  to_complex64 ops (f0 ops, f0 ops) = (f0 ops, f0 ops).
Proof. unfold to_complex64. simpl. now rewrite to_f32_zero. Qed.

Lemma p_view_high (cfg : @config F) (iq : list (@complex F)) (idx : nat) :
  map (fun p => fge ops p (threshold cfg)) (skipn idx (map (power_of ops) iq))
  = map (is_high ops cfg) (skipn idx iq).
Proof. rewrite skipn_map, map_map. reflexivity. Qed.

Lemma p_view_length (iq : list (@complex F)) (idx : nat) :
  length (skipn idx (map (power_of ops) iq)) = length (skipn idx iq).
Proof. rewrite skipn_map. apply length_map. Qed.

Lemma flatnonzero_from_low (cfg : config) (k : nat) (l : list complex) :
  Forall (fun z => is_high ops cfg z = false) l ->
  flatnonzero_from k (map (is_high ops cfg) l) = [].
Proof.
  intros H; revert k.
  induction H as [|z l Hz _ IH]; intros k; simpl.
  - reflexivity.
  - rewrite Hz. apply IH.
Qed.

Lemma flatnonzero_from_edge (cfg : config) (k : nat)
    (gap : list complex) (edge : complex) (post : list complex) :
  Forall (fun z => is_high ops cfg z = false) gap ->
  is_high ops cfg edge = true ->
  exists t,
    flatnonzero_from k (map (is_high ops cfg) (gap ++ edge :: post))
    = (k + length gap) :: t.
Proof.
  intros H He; revert k.
  induction H as [|z l Hz _ IH]; intros k; simpl.
  - rewrite He. rewrite Nat.add_0_r. eauto.
  - rewrite Hz. destruct (IH (S k)) as [t Ht].
    exists t. rewrite Ht. f_equal. lia.
Qed.

(** Conversely, a non-empty result of the scan splits the view at the first
    sample at or above the threshold. *)
Lemma flatnonzero_from_inv (cfg : config) (l : list complex) :
  forall k h t,
    flatnonzero_from k (map (is_high ops cfg) l) = h :: t ->
    exists gap edge post,
      l = gap ++ edge :: post /\
      Forall (fun z => is_high ops cfg z = false) gap /\
      is_high ops cfg edge = true /\
      h = k + length gap.
Proof.
  induction l as [|z l IH]; intros k h t; simpl.
  - discriminate.
  - destruct (is_high ops cfg z) eqn:Hz.
    + intros E. injection E as E _.
      exists [], z, l. simpl. repeat split; auto; lia.
    + intros E. destruct (IH _ _ _ E) as (gap & edge & post & -> & Hg & He & ->).
      exists (z :: gap), edge, post. simpl.
      repeat split; auto; lia.
Qed.

Lemma flatnonzero_from_nil_inv (cfg : config) (l : list complex) :
  forall k,
    flatnonzero_from k (map (is_high ops cfg) l) = [] ->
    Forall (fun z => is_high ops cfg z = false) l.
Proof.
  induction l as [|z l IH]; intros k; simpl.
  - constructor.
  - destruct (is_high ops cfg z) eqn:Hz.
    + discriminate.
    + intros E. constructor; eauto.
Qed.

Lemma skipn_length_app {A : Type} (pre l : list A) :
  skipn (length pre) (pre ++ l) = l.
Proof.
  rewrite skipn_app, skipn_all, Nat.sub_diag. reflexivity.
Qed.

(** The search branch when the view holds a rising edge after [gap]. *)
Lemma search_step_edge (cfg : config) (st : block)
    (pre gap : list complex) (edge : complex) (post : list complex) :
  Forall (fun z => is_high ops cfg z = false) gap ->
  is_high ops cfg edge = true ->
  search_step ops cfg (pre ++ gap ++ edge :: post) st (length pre) =
    if rfx_gap_threshold cfg <=? counter st + length gap then
      ({| state := CAPTURE_FRAME;
          counter := 0;
          total_sample_counter := 0;
          lastAOA := lastAOA st;
          antenna_data := reset_arrays cfg |},
       length pre + length gap)
    else
      ({| state := SEARCH_RFX;
          counter := 0;
          total_sample_counter := total_sample_counter st;
          lastAOA := lastAOA st;
          antenna_data := antenna_data st |},
       length pre + length gap + 1).
Proof.
  intros Hg He. unfold search_step, flatnonzero.
  rewrite p_view_high, skipn_length_app.
  destruct (flatnonzero_from_edge cfg 0 gap edge post Hg He) as [t ->].
  reflexivity.
Qed.

(** The search branch when the whole view is below the threshold. *)
Lemma search_step_low (cfg : config) (st : block)
    (pre rest : list complex) :
  Forall (fun z => is_high ops cfg z = false) rest ->
  search_step ops cfg (pre ++ rest) st (length pre) =
    ({| state := SEARCH_RFX;
        counter := counter st + length rest;
        total_sample_counter := total_sample_counter st;
        lastAOA := lastAOA st;
        antenna_data := antenna_data st |},
     length (pre ++ rest)).
Proof.
  intros Hl. unfold search_step, flatnonzero.
  rewrite p_view_high, p_view_length, skipn_length_app.
  rewrite (flatnonzero_from_low cfg 0 rest Hl).
  reflexivity.
Qed.

Lemma reset_arrays_empty (cfg : @config F) :
  length (reset_arrays cfg) = max_antennas cfg /\
  Forall (fun chunks => chunks = []) (reset_arrays cfg).
Proof.
  unfold reset_arrays. split.
  - now rewrite length_map, length_seq.
  - apply Forall_forall. intros x Hx.
    apply in_map_iff in Hx. destruct Hx as (i & <- & _). reflexivity.
Qed.

(** C1.  In state SEARCH_RFX, on the first sample at or above the
    threshold, with [gap_len] the silence counter plus the run of low
    samples before it: the state becomes CAPTURE_FRAME exactly when
    [gap_len >= rfx_gap_threshold] (so [gap_len = rfx_gap_threshold - 1]
    does not synchronise and [gap_len = rfx_gap_threshold] does); on
    synchronisation every antenna bin is empty, the frame-position
    counter and the silence counter are 0, the held estimate is kept, and
    the scan index is left on the rising edge, which is therefore the
    sample at frame position 0. *)
Theorem sync_iff_gap_reached (cfg : config) (st : block)
    (pre gap : list complex) (edge : complex) (post : list complex) :
  state st = SEARCH_RFX ->
  Forall (fun z => is_high ops cfg z = false) gap ->
  is_high ops cfg edge = true ->
  let iq := pre ++ gap ++ edge :: post in
  let gap_len := counter st + length gap in
  exists st' idx',
    loop_body ops cfg iq st (length pre) = Some (st', idx') /\
    (state st' = CAPTURE_FRAME <-> rfx_gap_threshold cfg <= gap_len) /\
    (gap_len + 1 = rfx_gap_threshold cfg -> state st' = SEARCH_RFX) /\
    (gap_len = rfx_gap_threshold cfg -> state st' = CAPTURE_FRAME) /\
    (state st' = CAPTURE_FRAME ->
       length (antenna_data st') = max_antennas cfg /\
       Forall (fun chunks => chunks = []) (antenna_data st') /\
       total_sample_counter st' = 0 /\
       counter st' = 0 /\
       lastAOA st' = lastAOA st /\
       idx' = length pre + length gap /\
       skipn idx' iq = edge :: post).
Proof.
  intros Hs Hg He iq gap_len.
  unfold loop_body. rewrite Hs.
  subst iq. rewrite (search_step_edge cfg st pre gap edge post Hg He).
  fold gap_len.
  destruct (rfx_gap_threshold cfg <=? gap_len) eqn:E.
  - apply Nat.leb_le in E.
    eexists _, _. split; [reflexivity|]. simpl.
    repeat split; intros; try lia; try apply reset_arrays_empty.
    rewrite app_assoc, <- length_app, skipn_length_app. reflexivity.
  - apply Nat.leb_gt in E.
    eexists _, _. split; [reflexivity|]. simpl.
    repeat split; intros; try lia; try discriminate.
Qed.

(** C7.  In state SEARCH_RFX a sample at or above the threshold that
    comes after too short a gap resets the silence counter to 0, leaves
    the rest of the block as it is and moves the scan index to the sample
    after the rising edge; when no sample of the remaining buffer reaches
    the threshold, the counter grows by the number of remaining samples,
    the scan index goes to the end of the buffer and the state stays
    SEARCH_RFX. *)
Theorem search_glitch_and_silence (cfg : config) (st : block)
    (pre : list complex) :
  state st = SEARCH_RFX ->
  (forall gap edge post,
      Forall (fun z => is_high ops cfg z = false) gap ->
      is_high ops cfg edge = true ->
      counter st + length gap < rfx_gap_threshold cfg ->
      loop_body ops cfg (pre ++ gap ++ edge :: post) st (length pre) =
        Some ({| state := SEARCH_RFX;
                 counter := 0;
                 total_sample_counter := total_sample_counter st;
                 lastAOA := lastAOA st;
                 antenna_data := antenna_data st |},
              length pre + length gap + 1)) /\
  (forall gap edge post,
      Forall (fun z => is_high ops cfg z = false) gap ->
      is_high ops cfg edge = true ->
      exists st' idx',
        loop_body ops cfg (pre ++ gap ++ edge :: post) st (length pre)
        = Some (st', idx') /\ counter st' = 0) /\
  (forall rest,
      Forall (fun z => is_high ops cfg z = false) rest ->
      loop_body ops cfg (pre ++ rest) st (length pre) =
        Some ({| state := SEARCH_RFX;
                 counter := counter st + length rest;
                 total_sample_counter := total_sample_counter st;
                 lastAOA := lastAOA st;
                 antenna_data := antenna_data st |},
              length (pre ++ rest))).
Proof.
  intros Hs. unfold loop_body. rewrite Hs. repeat split.
  - intros gap edge post Hg He Hlt.
    rewrite (search_step_edge cfg st pre gap edge post Hg He).
    apply Nat.leb_gt in Hlt. rewrite Hlt. reflexivity.
  - intros gap edge post Hg He.
    rewrite (search_step_edge cfg st pre gap edge post Hg He).
    destruct (_ <=? _); eexists _, _; split; reflexivity.
  - intros rest Hl. rewrite (search_step_low cfg st pre rest Hl). reflexivity.
Qed.

End Search.

(** ** Frame binner *)

Section Binning.

Context {F : Type} (ops : float_ops F).

(** Filtering positions by a range is taking a slice. *)
Lemma range_filter {A : Type} (a b : nat) (l : list A) :
  forall p,
    map snd
      (filter (fun qz => (a <=? fst qz) && (fst qz <? b))
         (combine (seq p (length l)) l))
    = firstn (Nat.min (p + length l) b - Nat.max p a)
        (skipn (Nat.max p a - p) l).
Proof.
  induction l as [|x l IH]; intros p.
  - simpl. now rewrite skipn_nil, firstn_nil.
  - cbn [length seq combine filter fst snd].
    destruct (Nat.leb_spec a p) as [Hap|Hap];
      destruct (Nat.ltb_spec p b) as [Hpb|Hpb];
      cbn [andb map snd]; rewrite IH.
    + replace (Nat.max p a - p) with 0 by lia.
      replace (Nat.max (S p) a - S p) with 0 by lia.
      replace (Nat.min (p + S (length l)) b - Nat.max p a)
        with (S (Nat.min (S p + length l) b - Nat.max (S p) a)) by lia.
      reflexivity.
    + replace (Nat.min (S p + length l) b - Nat.max (S p) a) with 0 by lia.
      replace (Nat.min (p + S (length l)) b - Nat.max p a) with 0 by lia.
      reflexivity.
    + replace (Nat.max p a - p) with (S (Nat.max (S p) a - S p)) by lia.
      replace (Nat.min (p + S (length l)) b - Nat.max p a)
        with (Nat.min (S p + length l) b - Nat.max (S p) a) by lia.
      reflexivity.
    + replace (Nat.min (S p + length l) b - Nat.max (S p) a) with 0 by lia.
      replace (Nat.min (p + S (length l)) b - Nat.max p a) with 0 by lia.
      reflexivity.
Qed.

(** The slice that [work] appends to bin [i] is the part of the chunk in
    the window of antenna [i]; when the test [istart < iend] fails that
    part is empty. *)
Lemma window_part_slice (cfg : @config F) (i p : nat)
    (chunk : list (@complex F)) :
  let w_start := i * samples_per_antenna cfg + settling_samp cfg in
  let w_end := (i + 1) * samples_per_antenna cfg in
  let istart := Nat.max p w_start in
  let iend := Nat.min (p + length chunk) w_end in
  window_part cfg i p chunk =
    if istart <? iend then slice (istart - p) (iend - p) chunk else [].
Proof.
  intros w_start w_end istart iend.
  unfold window_part, in_window. fold w_start w_end.
  rewrite range_filter. fold istart iend.
  destruct (Nat.ltb_spec istart iend) as [H|H].
  - unfold slice. f_equal. lia.
  - replace (iend - istart) with 0 by lia. reflexivity.
Qed.

Lemma window_part_app (cfg : @config F) (i : nat)
    (c1 c2 : list (@complex F)) :
  forall p,
    window_part cfg i p (c1 ++ c2)
    = window_part cfg i p c1 ++ window_part cfg i (p + length c1) c2.
Proof.
  unfold window_part.
  induction c1 as [|x c1 IH]; intros p.
  - simpl. now rewrite Nat.add_0_r.
  - cbn [app length seq combine filter fst].
    replace (p + S (length c1)) with (S p + length c1) by lia.
    destruct (in_window cfg i p); cbn [map snd app]; rewrite IH;
      reflexivity.
Qed.

(** A sample in the settling part of a window is in no antenna's
    window. *)
Lemma settling_in_no_window (cfg : @config F) (j q : nat) :
  j * samples_per_antenna cfg <= q ->
  q < (j + 1) * samples_per_antenna cfg ->
  q < j * samples_per_antenna cfg + settling_samp cfg ->
  forall i, in_window cfg i q = false.
Proof.
  intros H1 H2 H3 i. unfold in_window.
  apply andb_false_iff.
  destruct (Nat.lt_trichotomy i j) as [Hij|[->|Hij]].
  - right. apply Nat.ltb_ge. nia.
  - left. apply Nat.leb_gt. lia.
  - left. apply Nat.leb_gt. nia.
Qed.

(** [append_at] inside the list. *)
Lemma append_at_spec {A : Type} (x : A) (data : list (list A)) :
  forall i,
    i < length data ->
    exists data',
      append_at i x data = Some data' /\
      length data' = length data /\
      forall j,
        nth_error data' j =
          if j =? i then option_map (fun d => d ++ [x]) (nth_error data j)
          else nth_error data j.
Proof.
  induction data as [|d ds IH]; intros i Hi; simpl in Hi.
  - lia.
  - destruct i as [|i]; simpl.
    + eexists. split; [reflexivity|]. split; [reflexivity|].
      intros [|j]; reflexivity.
    + destruct (IH i) as (ds' & -> & Hlen & Hnth); [lia|].
      eexists. split; [reflexivity|]. split; [simpl; lia|].
      intros [|j]; simpl; [reflexivity|]. apply Hnth.
Qed.

Lemma append_at_none {A : Type} (x : A) (data : list (list A)) :
  forall i, length data <= i -> append_at i x data = None.
Proof.
  induction data as [|d ds IH]; intros i Hi; simpl in *.
  - destruct i; reflexivity.
  - destruct i as [|i]; [lia|]. simpl. rewrite IH by lia. reflexivity.
Qed.

(** The binning loop over the antennas [a .. a + m - 1]. *)
Lemma bin_loop_spec (cfg : @config F) (p : nat)
    (chunk : list (@complex F)) :
  forall m a data,
    a + m <= length data ->
    exists data',
      bin_loop cfg p (length chunk) chunk (seq a m) data = Some data' /\
      length data' = length data /\
      forall j,
        option_map (@concat _) (nth_error data' j) =
        option_map
          (fun d => concat d ++
                    if (a <=? j) && (j <? a + m)
                    then window_part cfg j p chunk else [])
          (nth_error data j).
Proof.
  induction m as [|m IH]; intros a data Hlen.
  - exists data. simpl. repeat split.
    intros j.
    replace ((a <=? j) && (j <? a + 0)) with false
      by (destruct (Nat.leb_spec a j), (Nat.ltb_spec j (a + 0));
          simpl; try reflexivity; lia).
    destruct (nth_error data j); simpl; [|reflexivity].
    now rewrite app_nil_r.
  - cbn [seq bin_loop].
    pose proof (window_part_slice cfg a p chunk) as Hw. cbv zeta in Hw.
    destruct (Nat.max p (a * samples_per_antenna cfg + settling_samp cfg)
              <? Nat.min (p + length chunk)
                   ((a + 1) * samples_per_antenna cfg)) eqn:E.
    + destruct (append_at_spec
                  (slice
                     (Nat.max p
                        (a * samples_per_antenna cfg + settling_samp cfg)
                      - p)
                     (Nat.min (p + length chunk)
                        ((a + 1) * samples_per_antenna cfg) - p) chunk)
                  data a) as (data1 & -> & Hl1 & Hn1); [lia|].
      destruct (IH (S a) data1) as (data' & -> & Hl' & Hn'); [lia|].
      exists data'. split; [reflexivity|]. split; [lia|].
      intros j. rewrite Hn', Hn1.
      destruct (Nat.eqb_spec j a) as [->|Hja].
      * replace (S a <=? a) with false
          by (symmetry; apply Nat.leb_gt; lia).
        replace ((a <=? a) && (a <? a + S m)) with true.
        2:{ symmetry. apply andb_true_iff. split.
            - apply Nat.leb_le; lia.
            - apply Nat.ltb_lt; lia. }
        destruct (nth_error data a); simpl; [|reflexivity].
        rewrite concat_app. simpl. rewrite !app_nil_r, Hw. reflexivity.
      * replace ((S a <=? j) && (j <? S a + m))
          with ((a <=? j) && (j <? a + S m)); [reflexivity|].
        destruct (Nat.leb_spec a j), (Nat.leb_spec (S a) j),
          (Nat.ltb_spec j (a + S m)), (Nat.ltb_spec j (S a + m));
          simpl; try reflexivity; lia.
    + destruct (IH (S a) data) as (data' & -> & Hl' & Hn'); [lia|].
      exists data'. split; [reflexivity|]. split; [lia|].
      intros j. rewrite Hn'.
      destruct (Nat.eqb_spec j a) as [->|Hja].
      * replace (S a <=? a) with false
          by (symmetry; apply Nat.leb_gt; lia).
        replace ((a <=? a) && (a <? a + S m)) with true.
        2:{ symmetry. apply andb_true_iff. split.
            - apply Nat.leb_le; lia.
            - apply Nat.ltb_lt; lia. }
        rewrite Hw. reflexivity.
      * replace ((S a <=? j) && (j <? S a + m))
          with ((a <=? j) && (j <? a + S m)); [reflexivity|].
        destruct (Nat.leb_spec a j), (Nat.leb_spec (S a) j),
          (Nat.ltb_spec j (a + S m)), (Nat.ltb_spec j (S a + m));
          simpl; try reflexivity; lia.
Qed.

End Binning.

(** ** The capture branch *)

Section Capture.

Context {F : Type} (ops : float_ops F).

Lemma nth_error_combine_seq {A : Type} (l : list A) :
  forall a j,
    nth_error (combine (seq a (length l)) l) j
    = option_map (fun x => (a + j, x)) (nth_error l j).
Proof.
  induction l as [|x l IH]; intros a j.
  - destruct j; reflexivity.
  - destruct j as [|j]; simpl.
    + now rewrite Nat.add_0_r.
    + rewrite IH. replace (S a + j) with (a + S j) by lia. reflexivity.
Qed.

Lemma binned_nth (cfg : @config F) (p : nat) (chunk : list (@complex F))
    (flat : list (list (@complex F))) (j : nat) :
  nth_error (binned cfg p chunk flat) j
  = option_map (fun b => b ++ window_part cfg j p chunk)
      (nth_error flat j).
Proof.
  unfold binned. rewrite nth_error_map, nth_error_combine_seq.
  destruct (nth_error flat j); reflexivity.
Qed.

Lemma binned_nil (cfg : @config F) (p : nat)
    (flat : list (list (@complex F))) :
  binned cfg p [] flat = flat.
Proof.
  apply nth_error_ext. intros j. rewrite binned_nth.
  destruct (nth_error flat j); simpl; [|reflexivity].
  now rewrite app_nil_r.
Qed.

Lemma binned_app (cfg : @config F) (p : nat)
    (c1 c2 : list (@complex F)) (flat : list (list (@complex F))) :
  binned cfg p (c1 ++ c2) flat
  = binned cfg (p + length c1) c2 (binned cfg p c1 flat).
Proof.
  apply nth_error_ext. intros j. rewrite !binned_nth.
  destruct (nth_error flat j); simpl; [|reflexivity].
  now rewrite window_part_app, app_assoc.
Qed.

(** The whole binning loop of one chunk, on the contents of the bins. *)
Lemma bin_loop_binned (cfg : @config F) (p : nat)
    (chunk : list (@complex F)) (data : list (list (list (@complex F)))) :
  length data = max_antennas cfg ->
  exists data',
    bin_loop cfg p (length chunk) chunk (seq 0 (max_antennas cfg)) data
    = Some data' /\
    length data' = max_antennas cfg /\
    map (@concat _) data' = binned cfg p chunk (map (@concat _) data).
Proof.
  intros Hlen.
  destruct (bin_loop_spec cfg p chunk (max_antennas cfg) 0 data)
    as (data' & Hb & Hl & Hn); [lia|].
  exists data'. split; [exact Hb|]. split; [lia|].
  apply nth_error_ext. intros j.
  rewrite binned_nth, !nth_error_map, Hn.
  destruct (nth_error data j) eqn:E; simpl; [|reflexivity].
  assert (j < length data) by (apply nth_error_Some; congruence).
  destruct (Nat.ltb_spec j (max_antennas cfg)); [reflexivity|lia].
Qed.

Lemma slice_from (iq : list (@complex F)) (idx n : nat) :
  slice idx (idx + n) iq = firstn n (skipn idx iq).
Proof.
  unfold slice. f_equal. lia.
Qed.

Lemma n_process_le (cfg : @config F) (iq : list (@complex F))
    (st : @block F) (idx : nat) :
  n_process_of cfg iq st idx <= length iq - idx /\
  n_process_of cfg iq st idx
  <= total_frame_size cfg - total_sample_counter st.
Proof. unfold n_process_of. lia. Qed.

Lemma chunk_length (cfg : @config F) (iq : list (@complex F))
    (st : @block F) (idx : nat) :
  length (firstn (n_process_of cfg iq st idx) (skipn idx iq))
  = n_process_of cfg iq st idx.
Proof.
  rewrite length_firstn, length_skipn.
  pose proof (n_process_le cfg iq st idx). lia.
Qed.

(** The [if n_process > 0] block: the chunk
    [iq[idx : idx + n_process]] is distributed over the bins and both
    the frame position and the scan index advance by [n_process]. *)
Lemma capture_chunk_spec (cfg : @config F) (iq : list (@complex F))
    (st : @block F) (idx : nat) :
  wf_block cfg st ->
  let n := n_process_of cfg iq st idx in
  exists st1,
    capture_chunk cfg iq st idx = Some (st1, idx + n) /\
    state st1 = state st /\
    counter st1 = counter st /\
    total_sample_counter st1 = total_sample_counter st + n /\
    lastAOA st1 = lastAOA st /\
    wf_block cfg st1 /\
    bins st1 =
      binned cfg (total_sample_counter st) (firstn n (skipn idx iq))
        (bins st).
Proof.
  intros Hwf n. unfold capture_chunk. fold n.
  destruct (Nat.ltb_spec 0 n) as [Hn|Hn].
  - rewrite slice_from.
    pose proof (chunk_length cfg iq st idx) as Hc. fold n in Hc.
    destruct (bin_loop_binned cfg (total_sample_counter st)
                (firstn n (skipn idx iq)) (antenna_data st) Hwf)
      as (data' & Hb & Hl & Hm).
    rewrite Hc in Hb. rewrite Hb.
    eexists. split; [reflexivity|]. simpl.
    repeat split; auto.
  - exists st. replace n with 0 by lia.
    rewrite !Nat.add_0_r. simpl. rewrite binned_nil.
    repeat split; auto.
Qed.

(** C4.  A capture chunk of [k] samples taken at frame position [p]
    leaves in every antenna bin [i] its former contents followed by the
    samples of the chunk whose frame position [q] satisfies
    [i * samples_per_antenna + settling_samp <= q <
    (i + 1) * samples_per_antenna], in order of arrival, whatever windows
    the chunk covers; a position in the first [settling_samp] samples of
    any antenna window satisfies this for no antenna. *)
Theorem binning_by_window (cfg : @config F) (iq : list (@complex F))
    (st : @block F) (idx : nat) :
  wf_block cfg st ->
  let p := total_sample_counter st in
  let k := n_process_of cfg iq st idx in
  let chunk := slice idx (idx + k) iq in
  exists st1,
    capture_chunk cfg iq st idx = Some (st1, idx + k) /\
    total_sample_counter st1 = p + k /\
    length chunk = k /\
    length (antenna_data st1) = max_antennas cfg /\
    (forall i b,
        nth_error (bins st) i = Some b ->
        nth_error (bins st1) i =
          Some (b ++ map snd
                       (filter (fun qz => in_window cfg i (fst qz))
                          (combine (seq p k) chunk)))) /\
    (forall i q,
        in_window cfg i q = true <->
        i * samples_per_antenna cfg + settling_samp cfg <= q
        < (i + 1) * samples_per_antenna cfg) /\
    (forall j q,
        j * samples_per_antenna cfg <= q ->
        q < j * samples_per_antenna cfg + settling_samp cfg ->
        forall i, in_window cfg i q = false).
Proof.
  intros Hwf p k chunk.
  destruct (capture_chunk_spec cfg iq st idx Hwf)
    as (st1 & Hc & _ & _ & Ht & _ & Hwf1 & Hb).
  fold k in Hc, Ht, Hb. fold p in Ht, Hb.
  assert (Hlen : length chunk = k).
  { unfold chunk. rewrite slice_from. apply chunk_length. }
  exists st1. repeat split; auto.
  - intros i b Hi. rewrite Hb, binned_nth, Hi. simpl.
    unfold window_part. fold chunk in Hlen.
    replace (firstn k (skipn idx iq)) with chunk
      by (unfold chunk; apply slice_from).
    rewrite Hlen. reflexivity.
  - unfold in_window in H.
    apply andb_true_iff in H. destruct H as [H _].
    now apply Nat.leb_le in H.
  - unfold in_window in H.
    apply andb_true_iff in H. destruct H as [_ H].
    now apply Nat.ltb_lt in H.
  - intros [H1 H2]. unfold in_window. apply andb_true_iff. split.
    + now apply Nat.leb_le.
    + now apply Nat.ltb_lt.
  - intros j q H1 H2 i.
    destruct (Nat.lt_ge_cases q ((j + 1) * samples_per_antenna cfg)) as [H3|H3].
    + now apply settling_in_no_window with (j := j).
    + unfold in_window. apply andb_false_iff.
      destruct (Nat.le_gt_cases i j) as [Hij|Hij].
      * right. apply Nat.ltb_ge. nia.
      * left. apply Nat.leb_gt. nia.
Qed.

End Capture.

(** ** AOA estimator *)

Section Estimator.

Context {F : Type} (ops : float_ops F).

Lemma aoa_loop_app (cfg : @config F) (raw : list (list (@complex F)))
    (l1 l2 : list nat) :
  forall x y,
    aoa_loop ops cfg raw (l1 ++ l2) x y =
      match aoa_loop ops cfg raw l1 x y with
      | Some z => aoa_loop ops cfg raw l2 (fst z) (snd z)
      | None => None
      end.
Proof.
  induction l1 as [|i l1 IH]; intros x y; simpl.
  - reflexivity.
  - destruct (nth_error raw i); [|reflexivity].
    destruct (nth_error (antenna_angles cfg) i); [|reflexivity].
    apply IH.
Qed.

(** With one bin and one angle for each antenna no index is out of
    range. *)
Lemma aoa_loop_total (cfg : @config F) (raw : list (list (@complex F))) :
  forall idxs x y,
    Forall (fun i => i < length raw /\ i < length (antenna_angles cfg))
      idxs ->
    exists z, aoa_loop ops cfg raw idxs x y = Some z.
Proof.
  induction idxs as [|i idxs IH]; intros x y H; simpl.
  - eauto.
  - inversion H as [|? ? [H1 H2] H3]; subst.
    apply nth_error_Some in H1. apply nth_error_Some in H2.
    destruct (nth_error raw i); [|congruence].
    destruct (nth_error (antenna_angles cfg) i); [|congruence].
    apply IH. exact H3.
Qed.

(** The summation loop is the vector sum over the bins paired with the
    angles, whatever the arithmetic. *)
Lemma aoa_loop_fold (cfg : @config F) :
  forall raw raw_pre ang ang_pre x y,
    length raw_pre = length ang_pre ->
    length raw = length ang ->
    antenna_angles cfg = ang_pre ++ ang ->
    aoa_loop ops cfg (raw_pre ++ raw) (seq (length raw_pre) (length raw)) x y
    = Some
        (fold_left
           (fun acc ma =>
              (fadd ops (fst acc) (fmul ops (fst ma) (fcos ops (snd ma))),
               fadd ops (snd acc) (fmul ops (fst ma) (fsin ops (snd ma)))))
           (combine (map (magnitude_sum ops) raw) ang) (x, y)).
Proof.
  induction raw as [|r raw IH]; intros raw_pre ang ang_pre x y Hp Hl Ha.
  - reflexivity.
  - destruct ang as [|a ang]; [discriminate|].
    cbn [length seq aoa_loop map combine fold_left fst snd].
    rewrite nth_error_app2, Nat.sub_diag by lia.
    rewrite Ha, nth_error_app2, Hp, Nat.sub_diag by lia.
    cbn [nth_error].
    replace (raw_pre ++ r :: raw) with ((raw_pre ++ [r]) ++ raw)
      by (rewrite <- app_assoc; reflexivity).
    replace (S (length ang_pre)) with (length (raw_pre ++ [r]))
      by (rewrite length_app; simpl; lia).
    apply IH with (ang_pre := ang_pre ++ [a]).
    + rewrite !length_app. simpl. lia.
    + simpl in Hl. lia.
    + rewrite Ha, <- app_assoc. reflexivity.
Qed.


Lemma calculate_aoa_vector_sum (cfg : @config F) (st : @block F) :
  wf_config cfg -> wf_block cfg st ->
  Forall (fun b => b <> []) (bins st) ->
  calculate_aoa ops cfg st
  = Some (set_lastAOA st
            (vector_sum ops (map (magnitude_sum ops) (bins st))
               (antenna_angles cfg))).
Proof.
  intros Hc Hb Hne. unfold calculate_aoa. fold (bins st).
  replace (existsb (fun arr => length arr =? 0) (bins st)) with false.
  2:{ symmetry. clear Hb. induction Hne as [|b flat Hb0 _ IH]; simpl.
      - reflexivity.
      - rewrite IH. destruct b; [congruence|reflexivity]. }
  assert (Hlen : length (bins st) = max_antennas cfg).
  { unfold bins. rewrite length_map. exact Hb. }
  rewrite <- Hlen.
  pose proof (aoa_loop_fold cfg (bins st) [] (antenna_angles cfg) []
                (f0 ops) (f0 ops) eq_refl) as H.
  cbn [app length] in H. rewrite H.
  - reflexivity.
  - unfold wf_config in Hc. lia.
  - reflexivity.
Qed.

(** An empty bin: the estimator returns at once and the block is as it
    was. *)
Lemma calculate_aoa_empty (cfg : @config F) (st : @block F) :
  Exists (fun b => b = []) (bins st) ->
  calculate_aoa ops cfg st = Some st.
Proof.
  intros H. unfold calculate_aoa. fold (bins st).
  replace (existsb (fun arr => length arr =? 0) (bins st)) with true;
    [reflexivity|].
  symmetry. apply existsb_exists. apply Exists_exists in H.
  destruct H as (b & Hin & ->). exists []. split; [exact Hin|reflexivity].
Qed.

Lemma existsb_empty_false (flat : list (list (@complex F))) :
  Forall (fun b => b <> []) flat ->
  existsb (fun arr => length arr =? 0) flat = false.
Proof.
  induction 1 as [|b flat Hb _ IH]; simpl.
  - reflexivity.
  - rewrite IH. destruct b; [congruence|reflexivity].
Qed.

(** The estimator raises nothing and touches the held estimate only. *)
Lemma calculate_aoa_total (cfg : @config F) (st : @block F) :
  wf_config cfg -> wf_block cfg st ->
  exists st2,
    calculate_aoa ops cfg st = Some st2 /\
    state st2 = state st /\
    counter st2 = counter st /\
    total_sample_counter st2 = total_sample_counter st /\
    antenna_data st2 = antenna_data st.
Proof.
  intros Hc Hb. unfold calculate_aoa.
  destruct (existsb _ _).
  - exists st. repeat split.
  - destruct (aoa_loop_total cfg (map (@concat _) (antenna_data st))
                (seq 0 (max_antennas cfg)) (f0 ops) (f0 ops)) as [z ->].
    + apply Forall_forall. intros i Hi. apply in_seq in Hi.
      rewrite length_map. unfold wf_config in Hc. unfold wf_block in Hb.
      lia.
    + eexists. split; [reflexivity|]. repeat split.
Qed.

(** The estimate depends on the contents of the bins only. *)
Lemma calculate_aoa_same (cfg : @config F) (st st' : @block F) :
  same_block st st' ->
  match calculate_aoa ops cfg st, calculate_aoa ops cfg st' with
  | Some s, Some s' => same_block s s'
  | None, None => True
  | _, _ => False
  end.
Proof.
  intros (H1 & H2 & H3 & H4 & H5). unfold calculate_aoa.
  fold (bins st) (bins st'). rewrite <- H5.
  destruct (existsb _ (bins st)).
  - repeat split; assumption.
  - destruct (aoa_loop ops cfg (bins st) _ _ _); [|exact I].
    repeat split; assumption.
Qed.

(** C5.  If a bin is empty when the frame completes, the estimator
    returns with the block unchanged, so the held estimate is the one
    from before; the loop iteration raises nothing and leaves the state
    SEARCH_RFX with the silence counter at 0, and the output of any later
    call made in that state still carries the former estimate, in the
    single precision of the output buffer. *)
Theorem empty_bin_keeps_estimate (cfg : @config F)
    (iq : list (@complex F)) (st : @block F) (idx : nat) :
  state st = CAPTURE_FRAME ->
  wf_block cfg st ->
  exists st1 idx1,
    capture_chunk cfg iq st idx = Some (st1, idx1) /\
    (total_frame_size cfg <= total_sample_counter st1 ->
     Exists (fun b => b = []) (bins st1) ->
     calculate_aoa ops cfg st1 = Some st1 /\
     loop_body ops cfg iq st idx = Some (finish_frame st1, idx1) /\
     lastAOA (finish_frame st1) = lastAOA st /\
     state (finish_frame st1) = SEARCH_RFX /\
     counter (finish_frame st1) = 0 /\
     forall fuel iq' out' st' o n,
       work_fuel ops fuel cfg (finish_frame st1) iq' out'
       = Done (st', o, n) ->
       o = repeat (to_complex64 ops (lastAOA st)) (length out')).
Proof.
  intros Hs Hwf.
  destruct (capture_chunk_spec cfg iq st idx Hwf)
    as (st1 & Hc & _ & _ & _ & Ha & _ & _).
  exists st1, (idx + n_process_of cfg iq st idx).
  split; [exact Hc|]. intros Hfull Hempty.
  pose proof (calculate_aoa_empty cfg st1 Hempty) as Hcalc.
  split; [exact Hcalc|].
  split.
  { unfold loop_body, capture_step. rewrite Hs, Hc.
    apply Nat.leb_le in Hfull. rewrite Hfull, Hcalc. reflexivity. }
  repeat split; auto.
  intros fuel iq' out' st' o n.
  unfold work_fuel. simpl.
  destruct (work_loop _ _ _ _ _ _); try discriminate.
  intros E. injection E as _ <- _. now rewrite Ha.
Qed.

End Estimator.

(** ** Frame completion *)

Section Frame.

Context {F : Type} (ops : float_ops F).

(** The capture branch as a whole. *)
Lemma capture_step_spec (cfg : @config F) (iq : list (@complex F))
    (st : @block F) (idx : nat) :
  wf_config cfg -> wf_block cfg st ->
  let n := n_process_of cfg iq st idx in
  exists st1,
    capture_chunk cfg iq st idx = Some (st1, idx + n) /\
    wf_block cfg st1 /\
    total_sample_counter st1 = total_sample_counter st + n /\
    lastAOA st1 = lastAOA st /\
    state st1 = state st /\
    if total_frame_size cfg <=? total_sample_counter st + n then
      exists st2,
        calculate_aoa ops cfg st1 = Some st2 /\
        capture_step ops cfg iq st idx = Some (finish_frame st2, idx + n) /\
        total_sample_counter st2 = total_sample_counter st + n /\
        antenna_data st2 = antenna_data st1
    else capture_step ops cfg iq st idx = Some (st1, idx + n).
Proof.
  intros Hc Hb n.
  destruct (capture_chunk_spec cfg iq st idx Hb)
    as (st1 & Hch & Hs1 & _ & Ht & Ha & Hwf1 & _).
  fold n in Hch, Ht.
  exists st1. repeat split; auto.
  unfold capture_step. rewrite Hch, Ht.
  destruct (total_frame_size cfg <=? total_sample_counter st + n); auto.
  destruct (calculate_aoa_total ops cfg st1 Hc Hwf1)
    as (st2 & Hcalc & _ & _ & Ht2 & Hd2).
  exists st2. rewrite Hcalc. repeat split; auto. congruence.
Qed.

Lemma search_step_lastAOA (cfg : @config F) (iq : list (@complex F))
    (st : @block F) (idx : nat) :
  lastAOA (fst (search_step ops cfg iq st idx)) = lastAOA st.
Proof.
  unfold search_step.
  destruct (flatnonzero _); [reflexivity|].
  destruct (_ <=? _); reflexivity.
Qed.

(** C8 (amended).  In a capture iteration that brings the frame position
    to [total_frame_size], [calculate_aoa] is applied once to the block
    that holds the whole frame, the state becomes SEARCH_RFX and the
    silence counter 0, while the frame position keeps the value
    [total_frame_size]; it is the next synchronisation that sets it to 0.
    A capture iteration that ends before [total_frame_size], and every
    search iteration, leave the held estimate as it was. *)
Theorem frame_completion (cfg : @config F) (iq : list (@complex F))
    (st : @block F) (idx : nat) :
  wf_config cfg -> wf_block cfg st ->
  (state st = CAPTURE_FRAME ->
   total_sample_counter st <= total_frame_size cfg ->
   exists st1 idx1,
     capture_chunk cfg iq st idx = Some (st1, idx1) /\
     total_sample_counter st1 <= total_frame_size cfg /\
     (total_sample_counter st1 = total_frame_size cfg ->
      exists st2,
        calculate_aoa ops cfg st1 = Some st2 /\
        loop_body ops cfg iq st idx = Some (finish_frame st2, idx1) /\
        state (finish_frame st2) = SEARCH_RFX /\
        counter (finish_frame st2) = 0 /\
        total_sample_counter (finish_frame st2) = total_frame_size cfg) /\
     (total_sample_counter st1 < total_frame_size cfg ->
      loop_body ops cfg iq st idx = Some (st1, idx1) /\
      state st1 = CAPTURE_FRAME /\
      lastAOA st1 = lastAOA st)) /\
  (state st = SEARCH_RFX ->
   exists st' idx',
     loop_body ops cfg iq st idx = Some (st', idx') /\
     lastAOA st' = lastAOA st /\
     (state st' = CAPTURE_FRAME -> total_sample_counter st' = 0)).
Proof.
  intros Hc Hb. split.
  - intros Hs Hle.
    destruct (capture_step_spec cfg iq st idx Hc Hb)
      as (st1 & Hch & _ & Ht & Ha & Hs1 & Hstep).
    pose proof (n_process_le cfg iq st idx) as [_ Hn].
    exists st1, (idx + n_process_of cfg iq st idx).
    split; [exact Hch|]. split; [lia|]. split.
    + intros Hfull.
      replace (total_frame_size cfg
               <=? total_sample_counter st + n_process_of cfg iq st idx)
        with true in Hstep by (symmetry; apply Nat.leb_le; lia).
      destruct Hstep as (st2 & Hcalc & Hcs & Ht2 & _).
      exists st2. unfold loop_body. rewrite Hs.
      repeat split; auto. simpl. lia.
    + intros Hlt.
      replace (total_frame_size cfg
               <=? total_sample_counter st + n_process_of cfg iq st idx)
        with false in Hstep by (symmetry; apply Nat.leb_gt; lia).
      unfold loop_body. rewrite Hs. repeat split; auto. congruence.
  - intros Hs. unfold loop_body. rewrite Hs.
    exists (fst (search_step ops cfg iq st idx)),
      (snd (search_step ops cfg iq st idx)).
    split; [now rewrite <- surjective_pairing|]. split.
    + apply search_step_lastAOA.
    + unfold search_step.
      destruct (flatnonzero _); simpl; [discriminate|].
      destruct (_ <=? _); simpl; [reflexivity|discriminate].
Qed.

End Frame.

(** ** The processing loop *)

Section Loop.

Context {F : Type} (ops : float_ops F).

Lemma reset_arrays_wf (cfg : @config F) :
  length (reset_arrays cfg) = max_antennas cfg.
Proof. apply reset_arrays_empty. Qed.

(** The three ways a search iteration can go. *)
Lemma search_step_cases (cfg : @config F) (iq : list (@complex F))
    (st : @block F) (idx : nat) :
  (Forall (fun z => is_high ops cfg z = false) (skipn idx iq) /\
   search_step ops cfg iq st idx =
     ({| state := SEARCH_RFX;
         counter := counter st + length (skipn idx iq);
         total_sample_counter := total_sample_counter st;
         lastAOA := lastAOA st;
         antenna_data := antenna_data st |}, length iq))
  \/
  (exists gap edge post,
      skipn idx iq = gap ++ edge :: post /\
      Forall (fun z => is_high ops cfg z = false) gap /\
      is_high ops cfg edge = true /\
      search_step ops cfg iq st idx =
        if rfx_gap_threshold cfg <=? counter st + length gap then
          ({| state := CAPTURE_FRAME;
              counter := 0;
              total_sample_counter := 0;
              lastAOA := lastAOA st;
              antenna_data := reset_arrays cfg |}, idx + length gap)
        else
          ({| state := SEARCH_RFX;
              counter := 0;
              total_sample_counter := total_sample_counter st;
              lastAOA := lastAOA st;
              antenna_data := antenna_data st |}, idx + length gap + 1)).
Proof.
  unfold search_step, flatnonzero.
  rewrite p_view_high, p_view_length.
  destruct (flatnonzero_from 0 (map (is_high ops cfg) (skipn idx iq)))
    as [|h t] eqn:E.
  - left. split; [|reflexivity].
    eapply flatnonzero_from_nil_inv; eauto.
  - right.
    destruct (flatnonzero_from_inv ops cfg _ _ _ _ E)
      as (gap & edge & post & Hsk & Hg & He & ->).
    exists gap, edge, post. simpl. repeat split; auto.
Qed.

Lemma skipn_split_length {A : Type} (l gap : list A) (x : A)
    (post : list A) (idx : nat) :
  skipn idx l = gap ++ x :: post ->
  length l = idx + length gap + 1 + length post.
Proof.
  intros H.
  assert (Hl : length (skipn idx l) = length gap + 1 + length post).
  { rewrite H, length_app. simpl. lia. }
  rewrite length_skipn in Hl. lia.
Qed.

(** With a frame of at least one sample every iteration lowers
    [measure]; no index is out of range. *)
Lemma loop_body_decreases (cfg : @config F) (iq : list (@complex F))
    (st : @block F) (idx : nat) :
  1 <= total_frame_size cfg ->
  wf_config cfg -> wf_block cfg st ->
  idx < length iq ->
  exists st' idx',
    loop_body ops cfg iq st idx = Some (st', idx') /\
    wf_block cfg st' /\
    idx <= idx' <= length iq /\
    measure cfg iq st' idx' < measure cfg iq st idx.
Proof.
  intros Hf Hc Hb Hidx. unfold loop_body, measure, phase.
  destruct (state st) eqn:Hs.
  - destruct (search_step_cases cfg iq st idx)
      as [[_ ->]|(gap & edge & post & Hsk & _ & _ & ->)].
    + eexists _, _. split; [reflexivity|]. simpl.
      repeat split; auto; lia.
    + pose proof (skipn_split_length _ _ _ _ _ Hsk) as Hlen.
      destruct (_ <=? _); eexists _, _; (split; [reflexivity|]); simpl.
      * destruct (Nat.leb_spec (total_frame_size cfg) 0); [lia|].
        repeat split; try lia. apply reset_arrays_wf.
      * repeat split; auto; lia.
  - destruct (capture_step_spec ops cfg iq st idx Hc Hb)
      as (st1 & Hch & Hwf1 & Ht & _ & Hs1 & Hstep).
    pose proof (n_process_le cfg iq st idx) as [Hn1 Hn2].
    assert (Hn3 : n_process_of cfg iq st idx
                  = Nat.min (total_frame_size cfg - total_sample_counter st)
                      (length iq - idx)) by reflexivity.
    destruct (Nat.leb_spec (total_frame_size cfg)
                (total_sample_counter st + n_process_of cfg iq st idx))
      as [Hfull|Hpart].
    + destruct Hstep as (st2 & _ & -> & _ & Hd).
      eexists _, _. split; [reflexivity|]. simpl.
      split; [unfold wf_block in *; simpl; congruence|].
      split; [lia|].
      destruct (Nat.leb_spec (total_frame_size cfg)
                  (total_sample_counter st)); lia.
    + rewrite Hstep.
      eexists _, _. split; [reflexivity|].
      split; [exact Hwf1|]. split; [lia|].
      rewrite Hs1, Hs, Ht.
      destruct (Nat.leb_spec (total_frame_size cfg)
                  (total_sample_counter st + n_process_of cfg iq st idx));
        [lia|].
      destruct (Nat.leb_spec (total_frame_size cfg)
                  (total_sample_counter st)); lia.
Qed.

(** Enough fuel: the loop ends, in a well-formed block. *)
Lemma work_loop_done (cfg : @config F) (iq : list (@complex F)) :
  1 <= total_frame_size cfg ->
  wf_config cfg ->
  forall fuel st idx,
    wf_block cfg st ->
    measure cfg iq st idx <= fuel ->
    exists stf,
      work_loop ops fuel cfg iq st idx = Done stf /\ wf_block cfg stf.
Proof.
  intros Hf Hc. induction fuel as [|fuel IH]; intros st idx Hb Hm.
  - simpl. destruct (Nat.ltb_spec idx (length iq)) as [Hlt|Hge].
    + unfold measure in Hm. lia.
    + eauto.
  - simpl. destruct (Nat.ltb_spec idx (length iq)) as [Hlt|Hge].
    + destruct (loop_body_decreases cfg iq st idx Hf Hc Hb Hlt)
        as (st' & idx' & -> & Hb' & _ & Hdec).
      apply IH; [exact Hb'|lia].
    + eauto.
Qed.

Lemma measure_init (cfg : @config F) (iq : list (@complex F))
    (st : @block F) :
  measure cfg iq st 0 <= 3 * length iq + 3.
Proof.
  unfold measure, phase.
  destruct (state st); [lia|].
  destruct (_ <=? _); lia.
Qed.

(** The loop as a function and as a relation. *)
Lemma work_loop_rel (cfg : @config F) (iq : list (@complex F)) :
  forall fuel st idx stf,
    work_loop ops fuel cfg iq st idx = Done stf ->
    loop_rel ops cfg iq st idx stf.
Proof.
  induction fuel as [|fuel IH]; intros st idx stf; simpl;
    destruct (Nat.ltb_spec idx (length iq)) as [Hlt|Hge];
    try discriminate.
  - intros E. injection E as <-. now apply loop_exit.
  - destruct (loop_body ops cfg iq st idx) as [[st' idx']|] eqn:Hb;
      [|discriminate].
    intros E. eapply loop_iter; eauto.
  - intros E. injection E as <-. now apply loop_exit.
Qed.

Lemma loop_rel_det (cfg : @config F) (iq : list (@complex F))
    (st : @block F) (idx : nat) (s1 : @block F) :
  loop_rel ops cfg iq st idx s1 ->
  forall s2, loop_rel ops cfg iq st idx s2 -> s1 = s2.
Proof.
  induction 1 as [st idx Hge|st idx st' idx' stf Hlt Hb _ IH];
    intros s2 H2; inversion H2; subst; try lia.
  - reflexivity.
  - apply IH. congruence.
Qed.

(** An iteration reads the buffer from the scan index on. *)
Lemma loop_body_skip (cfg : @config F) (l : list (@complex F))
    (st : @block F) (k idx : nat) :
  k <= length l ->
  loop_body ops cfg l st (k + idx) =
    match loop_body ops cfg (skipn k l) st idx with
    | Some (st', i) => Some (st', k + i)
    | None => None
    end.
Proof.
  intros Hk.
  assert (Hlen : length l = k + length (skipn k l)).
  { rewrite length_skipn. lia. }
  assert (Hsk : skipn (k + idx) l = skipn idx (skipn k l)).
  { rewrite skipn_skipn. f_equal. lia. }
  unfold loop_body. destruct (state st).
  - unfold search_step. rewrite !p_view_high, !p_view_length, Hsk.
    destruct (flatnonzero _) as [|h t].
    + now rewrite <- Hlen.
    + destruct (_ <=? _); do 2 f_equal; lia.
  - unfold capture_step, capture_chunk, n_process_of.
    rewrite !slice_from, Hsk.
    replace (length l - (k + idx)) with (length (skipn k l) - idx)
      by lia.
    destruct (0 <? _).
    + destruct (bin_loop _ _ _ _ _ _); [|reflexivity]. simpl.
      destruct (_ <=? _).
      * destruct (calculate_aoa _ _ _); [|reflexivity].
        do 2 f_equal; lia.
      * do 2 f_equal; lia.
    + destruct (_ <=? _); [|reflexivity].
      destruct (calculate_aoa _ _ _); reflexivity.
Qed.

Lemma loop_rel_skip (cfg : @config F) (l : list (@complex F)) (k : nat)
    (st : @block F) (idx : nat) (stf : @block F) :
  k <= length l ->
  loop_rel ops cfg (skipn k l) st idx stf ->
  loop_rel ops cfg l st (k + idx) stf.
Proof.
  intros Hk H.
  induction H as [st idx Hge|st idx st' idx' stf Hlt Hb _ IH].
  - apply loop_exit. rewrite length_skipn in Hge. lia.
  - rewrite length_skipn in Hlt.
    apply loop_iter with (st' := st') (idx' := k + idx'); [lia| |exact IH].
    rewrite loop_body_skip, Hb by exact Hk. reflexivity.
Qed.

Lemma loop_rel_unskip (cfg : @config F) (l : list (@complex F))
    (st : @block F) (j : nat) (stf : @block F) :
  loop_rel ops cfg l st j stf ->
  forall k idx,
    j = k + idx -> k <= length l ->
    loop_rel ops cfg (skipn k l) st idx stf.
Proof.
  induction 1 as [st j Hge|st j st' j' stf Hlt Hb _ IH];
    intros k idx -> Hk.
  - apply loop_exit. rewrite length_skipn. lia.
  - rewrite loop_body_skip in Hb by exact Hk.
    destruct (loop_body ops cfg (skipn k l) st idx) as [[s i]|] eqn:E;
      [|discriminate].
    injection Hb as <- <-.
    apply loop_iter with (st' := s) (idx' := i).
    + rewrite length_skipn. lia.
    + exact E.
    + apply IH; [reflexivity|exact Hk].
Qed.

End Loop.

(** ** Buffers cut into pieces *)

Section Chunking.

Context {F : Type} (ops : float_ops F).

Lemma same_block_refl (st : @block F) : same_block st st.
Proof. repeat split. Qed.

Lemma same_block_sym (a b : @block F) : same_block a b -> same_block b a.
Proof. intros (H1 & H2 & H3 & H4 & H5). repeat split; congruence. Qed.

Lemma same_block_trans (a b c : @block F) :
  same_block a b -> same_block b c -> same_block a c.
Proof.
  intros (H1 & H2 & H3 & H4 & H5) (G1 & G2 & G3 & G4 & G5).
  repeat split; congruence.
Qed.

(** The search branch, from what the view at [idx] holds. *)
Lemma search_step_view_low (cfg : @config F) (iq : list (@complex F))
    (st : @block F) (idx : nat) :
  Forall (fun z => is_high ops cfg z = false) (skipn idx iq) ->
  search_step ops cfg iq st idx =
    ({| state := SEARCH_RFX;
        counter := counter st + length (skipn idx iq);
        total_sample_counter := total_sample_counter st;
        lastAOA := lastAOA st;
        antenna_data := antenna_data st |}, length iq).
Proof.
  intros Hl. unfold search_step, flatnonzero.
  rewrite p_view_high, p_view_length.
  rewrite (flatnonzero_from_low ops cfg 0 _ Hl). reflexivity.
Qed.

Lemma search_step_view_edge (cfg : @config F) (iq : list (@complex F))
    (st : @block F) (idx : nat) (gap : list (@complex F))
    (edge : @complex F) (post : list (@complex F)) :
  skipn idx iq = gap ++ edge :: post ->
  Forall (fun z => is_high ops cfg z = false) gap ->
  is_high ops cfg edge = true ->
  search_step ops cfg iq st idx =
    if rfx_gap_threshold cfg <=? counter st + length gap then
      ({| state := CAPTURE_FRAME;
          counter := 0;
          total_sample_counter := 0;
          lastAOA := lastAOA st;
          antenna_data := reset_arrays cfg |}, idx + length gap)
    else
      ({| state := SEARCH_RFX;
          counter := 0;
          total_sample_counter := total_sample_counter st;
          lastAOA := lastAOA st;
          antenna_data := antenna_data st |}, idx + length gap + 1).
Proof.
  intros Hsk Hg He. unfold search_step, flatnonzero.
  rewrite p_view_high, Hsk.
  destruct (flatnonzero_from_edge ops cfg 0 gap edge post Hg He) as [t ->].
  reflexivity.
Qed.

(** The capture branch, on the contents of the bins. *)
Lemma capture_step_full (cfg : @config F) (iq : list (@complex F))
    (st : @block F) (idx : nat) :
  wf_block cfg st ->
  let n := n_process_of cfg iq st idx in
  exists st1,
    state st1 = state st /\
    counter st1 = counter st /\
    total_sample_counter st1 = total_sample_counter st + n /\
    lastAOA st1 = lastAOA st /\
    wf_block cfg st1 /\
    bins st1 =
      binned cfg (total_sample_counter st) (firstn n (skipn idx iq))
        (bins st) /\
    capture_step ops cfg iq st idx =
      if total_frame_size cfg <=? total_sample_counter st + n then
        option_map (fun s => (finish_frame s, idx + n))
          (calculate_aoa ops cfg st1)
      else Some (st1, idx + n).
Proof.
  intros Hb n.
  destruct (capture_chunk_spec cfg iq st idx Hb)
    as (st1 & Hch & H1 & H2 & H3 & H4 & H5 & H6).
  fold n in Hch, H3, H6.
  exists st1. repeat split; auto.
  unfold capture_step. rewrite Hch, H3.
  destruct (_ <=? _); [|reflexivity].
  destruct (calculate_aoa ops cfg st1); reflexivity.
Qed.

Lemma finish_frame_same (a b : @block F) :
  same_block a b -> same_block (finish_frame a) (finish_frame b).
Proof.
  intros (H1 & H2 & H3 & H4 & H5). repeat split; auto.
Qed.

Lemma loop_body_wf (cfg : @config F) (iq : list (@complex F))
    (st : @block F) (idx : nat) (st' : @block F) (idx' : nat) :
  wf_config cfg -> wf_block cfg st ->
  loop_body ops cfg iq st idx = Some (st', idx') ->
  wf_block cfg st'.
Proof.
  intros Hc Hb. unfold loop_body. destruct (state st).
  - unfold search_step.
    destruct (flatnonzero _); [|destruct (_ <=? _)];
      intros E; injection E as <- _; auto.
    apply reset_arrays_wf.
  - destruct (capture_step_full cfg iq st idx Hb)
      as (st1 & _ & _ & _ & _ & Hwf1 & _ & ->).
    destruct (_ <=? _).
    + destruct (calculate_aoa_total ops cfg st1 Hc Hwf1)
        as (st2 & -> & _ & _ & _ & Hd). simpl.
      intros E. injection E as <- _.
      unfold wf_block in *. simpl. congruence.
    + intros E. injection E as <- _. exact Hwf1.
Qed.

(** Blocks with the same contents take the same iteration. *)
Lemma loop_body_same (cfg : @config F) (iq : list (@complex F))
    (a b : @block F) (idx : nat) :
  wf_block cfg a -> wf_block cfg b ->
  same_block a b ->
  forall a' i,
    loop_body ops cfg iq a idx = Some (a', i) ->
    exists b',
      loop_body ops cfg iq b idx = Some (b', i) /\ same_block a' b'.
Proof.
  intros Ha Hb Hab a' i.
  pose proof Hab as (H1 & H2 & H3 & H4 & H5).
  unfold loop_body. rewrite <- H1. destruct (state a) eqn:Hsa.
  - unfold search_step. rewrite <- H2, <- H3, <- H4.
    destruct (flatnonzero _); [|destruct (_ <=? _)];
      intros E; injection E as <- <-;
      (eexists; split; [reflexivity|]);
      repeat split; auto.
  - destruct (capture_step_full cfg iq a idx Ha)
      as (a1 & A1 & A2 & A3 & A4 & _ & A6 & ->).
    destruct (capture_step_full cfg iq b idx Hb)
      as (b1 & B1 & B2 & B3 & B4 & _ & B6 & ->).
    assert (Hn : n_process_of cfg iq b idx = n_process_of cfg iq a idx).
    { unfold n_process_of. now rewrite H3. }
    rewrite Hn in *. rewrite <- H3 in *.
    assert (Hab1 : same_block a1 b1).
    { repeat split; congruence. }
    destruct (_ <=? _).
    + pose proof (calculate_aoa_same ops cfg a1 b1 Hab1) as Hcalc.
      destruct (calculate_aoa ops cfg a1) as [a2|]; [|discriminate].
      destruct (calculate_aoa ops cfg b1) as [b2|]; [|contradiction].
      simpl. intros E. injection E as <- <-.
      eexists. split; [reflexivity|]. now apply finish_frame_same.
    + intros E. injection E as <- <-.
      eexists. split; [reflexivity|]. exact Hab1.
Qed.

Lemma loop_rel_same (cfg : @config F) (iq : list (@complex F))
    (a : @block F) (idx : nat) (af : @block F) :
  wf_config cfg ->
  loop_rel ops cfg iq a idx af ->
  forall b,
    wf_block cfg a -> wf_block cfg b -> same_block a b ->
    exists bf, loop_rel ops cfg iq b idx bf /\ same_block af bf.
Proof.
  intros Hc H.
  induction H as [a idx Hge|a idx a' idx' af Hlt Hbody _ IH];
    intros b Ha Hb Hab.
  - exists b. split; [now apply loop_exit|exact Hab].
  - destruct (loop_body_same cfg iq a b idx Ha Hb Hab _ _ Hbody)
      as (b' & Hbody' & Hab').
    destruct (IH b') as (bf & Hr & Hf).
    + exact (loop_body_wf cfg iq a idx a' idx' Hc Ha Hbody).
    + exact (loop_body_wf cfg iq b idx b' idx' Hc Hb Hbody').
    + exact Hab'.
    + exists bf. split; [|exact Hf].
      eapply loop_iter; eauto.
Qed.

Lemma skipn_app_left {A : Type} (xs ys : list A) (idx : nat) :
  idx <= length xs ->
  skipn idx (xs ++ ys) = skipn idx xs ++ ys.
Proof.
  intros H. rewrite skipn_app.
  replace (idx - length xs) with 0 by lia. reflexivity.
Qed.

(** A search iteration over [xs ++ ys] that starts inside [xs]: either
    it is the iteration over [xs] alone, or it is that iteration, which
    runs to the end of [xs], followed by the first one over [ys]. *)
Lemma search_step_app (cfg : @config F) (xs ys : list (@complex F))
    (st : @block F) (idx : nat) :
  state st = SEARCH_RFX ->
  idx < length xs ->
  let r := search_step ops cfg (xs ++ ys) st idx in
  (snd r <= length xs /\ search_step ops cfg xs st idx = r)
  \/
  (length xs <= snd r /\ 0 < length ys /\
   exists st1,
     search_step ops cfg xs st idx = (st1, length xs) /\
     state st1 = SEARCH_RFX /\
     antenna_data st1 = antenna_data st /\
     search_step ops cfg ys st1 0 = (fst r, snd r - length xs)).
Proof.
  intros Hs Hidx r.
  assert (Hsk : skipn idx (xs ++ ys) = skipn idx xs ++ ys)
    by (apply skipn_app_left; lia).
  assert (Hlx : length (skipn idx xs) = length xs - idx)
    by apply length_skipn.
  destruct (search_step_cases ops cfg (xs ++ ys) st idx)
    as [[Hlow E]|(gap & edge & post & Hv & Hg & He & E)];
    unfold r; rewrite E; clear E.
  - rewrite Hsk in Hlow. apply Forall_app in Hlow as [Hxl Hyl].
    destruct ys as [|y ys'].
    + left. rewrite app_nil_r. simpl. split; [lia|].
      now apply search_step_view_low.
    + right. simpl fst. simpl snd.
      split; [rewrite length_app; lia|]. split; [simpl; lia|].
      eexists. split; [now apply search_step_view_low|].
      split; [reflexivity|]. split; [reflexivity|].
      rewrite search_step_view_low by exact Hyl. simpl.
      rewrite Hsk, !length_app. simpl.
      do 2 f_equal; lia.
  - rewrite Hsk in Hv.
    assert (Hcase :
      (exists post', skipn idx xs = gap ++ edge :: post') \/
      (exists gap2, gap = skipn idx xs ++ gap2 /\
                    ys = gap2 ++ edge :: post)).
    { apply app_eq_app in Hv as [l [[H1 H2]|[H1 H2]]].
      - destruct l as [|e l'].
        + right. exists []. rewrite app_nil_r in H1. simpl in H2.
          rewrite app_nil_r. split; simpl; congruence.
        + left. injection H2 as <- _. eauto.
      - right. eauto. }
    destruct Hcase as [[post' Hx]|(gap2 & Hgap & Hys)].
    + left. pose proof (skipn_split_length _ _ _ _ _ Hx) as Hlen.
      split.
      * destruct (_ <=? _); simpl; lia.
      * now apply search_step_view_edge with (edge := edge) (post := post').
    + right.
      assert (Hgl : length gap = length xs - idx + length gap2).
      { rewrite Hgap, length_app. lia. }
      rewrite Hgap in Hg. apply Forall_app in Hg as [Hxl Hg2].
      split; [destruct (_ <=? _); simpl; lia|].
      split; [rewrite Hys, length_app; simpl; lia|].
      eexists. split; [now apply search_step_view_low|].
      split; [reflexivity|]. split; [reflexivity|].
      rewrite search_step_view_edge
        with (gap := gap2) (edge := edge) (post := post);
        [|rewrite Hys; reflexivity|exact Hg2|exact He].
      simpl counter. simpl total_sample_counter. simpl lastAOA.
      simpl antenna_data.
      replace (counter st + length (skipn idx xs) + length gap2)
        with (counter st + length gap) by lia.
      destruct (_ <=? _); simpl; (apply f_equal2; [reflexivity|lia]).
Qed.

(** The same for a capture iteration: the chunk taken from [xs ++ ys] is
    the chunk taken from [xs], followed when [xs] runs out by the chunk
    taken from [ys]. *)
Lemma capture_step_app (cfg : @config F) (xs ys : list (@complex F))
    (st : @block F) (idx : nat) (st' : @block F) (idx' : nat) :
  wf_config cfg -> wf_block cfg st ->
  state st = CAPTURE_FRAME ->
  idx < length xs ->
  capture_step ops cfg (xs ++ ys) st idx = Some (st', idx') ->
  (idx' <= length xs /\ capture_step ops cfg xs st idx = Some (st', idx'))
  \/
  (length xs <= idx' /\ 0 < length ys /\
   exists st1 st'',
     capture_step ops cfg xs st idx = Some (st1, length xs) /\
     state st1 = CAPTURE_FRAME /\
     capture_step ops cfg ys st1 0 = Some (st'', idx' - length xs) /\
     same_block st'' st').
Proof.
  intros Hc Hb Hs Hidx H.
  assert (Hsk : skipn idx (xs ++ ys) = skipn idx xs ++ ys)
    by (apply skipn_app_left; lia).
  assert (Hlx : length (skipn idx xs) = length xs - idx)
    by apply length_skipn.
  assert (Hnw : n_process_of cfg (xs ++ ys) st idx
                = Nat.min (total_frame_size cfg - total_sample_counter st)
                    (length xs + length ys - idx)).
  { unfold n_process_of. now rewrite length_app. }
  assert (Hnx : n_process_of cfg xs st idx
                = Nat.min (total_frame_size cfg - total_sample_counter st)
                    (length xs - idx)) by reflexivity.
  destruct (le_lt_dec (n_process_of cfg (xs ++ ys) st idx)
              (length xs - idx)) as [Hloc|Hstr].
  - (* the chunk lies inside [xs] *)
    left.
    assert (Hn : n_process_of cfg xs st idx
                 = n_process_of cfg (xs ++ ys) st idx) by lia.
    assert (Hch : slice idx (idx + n_process_of cfg (xs ++ ys) st idx)
                    (xs ++ ys)
                  = slice idx (idx + n_process_of cfg (xs ++ ys) st idx)
                      xs).
    { rewrite !slice_from, Hsk, firstn_app.
      replace (n_process_of cfg (xs ++ ys) st idx
               - length (skipn idx xs)) with 0 by lia.
      simpl. now rewrite app_nil_r. }
    assert (Heq : capture_step ops cfg xs st idx
                  = capture_step ops cfg (xs ++ ys) st idx).
    { unfold capture_step, capture_chunk. now rewrite Hn, Hch. }
    split; [|congruence].
    destruct (capture_step_full cfg (xs ++ ys) st idx Hb)
      as (s1 & _ & _ & _ & _ & _ & _ & E).
    rewrite E in H.
    destruct (_ <=? _).
    + destruct (calculate_aoa ops cfg s1); [|discriminate].
      simpl in H. injection H as _ <-. lia.
    + injection H as _ <-. lia.
  - (* the chunk runs over the end of [xs] *)
    right.
    destruct (capture_step_full cfg xs st idx Hb)
      as (x1 & X1 & X2 & X3 & X4 & X5 & X6 & EX).
    destruct (capture_step_full cfg (xs ++ ys) st idx Hb)
      as (w1 & W1 & W2 & W3 & W4 & W5 & W6 & EW).
    destruct (capture_step_full cfg ys x1 0 X5)
      as (y1 & Y1 & Y2 & Y3 & Y4 & Y5 & Y6 & EY).
    assert (Hny : n_process_of cfg ys x1 0
                  = n_process_of cfg (xs ++ ys) st idx
                    - (length xs - idx)).
    { unfold n_process_of at 1. rewrite X3. lia. }
    assert (Hxn : n_process_of cfg xs st idx = length xs - idx) by lia.
    assert (Hsame : same_block y1 w1).
    { repeat split; try congruence.
      - lia.
      - rewrite Y6, X6, W6, X3, Hsk, Hny, Hxn. simpl skipn.
        rewrite firstn_app, Hlx.
        rewrite (@firstn_all2 _ (length xs - idx) (skipn idx xs)) by lia.
        rewrite (@firstn_all2 _ (n_process_of cfg (xs ++ ys) st idx)
                   (skipn idx xs)) by lia.
        rewrite binned_app, Hlx. reflexivity. }
    replace (total_frame_size cfg
             <=? total_sample_counter st + n_process_of cfg xs st idx)
      with false in EX by (symmetry; apply Nat.leb_gt; lia).
    replace (total_sample_counter x1 + n_process_of cfg ys x1 0)
      with (total_sample_counter st
            + n_process_of cfg (xs ++ ys) st idx) in EY by lia.
    rewrite EW in H.
    split.
    { destruct (_ <=? _).
      - destruct (calculate_aoa ops cfg w1); [|discriminate].
        simpl in H. injection H as _ <-. lia.
      - injection H as _ <-. lia. }
    split; [lia|].
    exists x1.
    destruct (total_frame_size cfg
              <=? total_sample_counter st
                  + n_process_of cfg (xs ++ ys) st idx).
    + pose proof (calculate_aoa_same ops cfg y1 w1 Hsame) as Hcalc.
      destruct (calculate_aoa ops cfg w1) as [w2|]; [|discriminate].
      destruct (calculate_aoa ops cfg y1) as [y2|]; [|contradiction].
      simpl in H. injection H as <- <-.
      exists (finish_frame y2).
      split; [rewrite EX; f_equal; f_equal; lia|].
      split; [congruence|].
      split; [rewrite EY; simpl; f_equal; f_equal; lia|].
      now apply finish_frame_same.
    + injection H as <- <-.
      exists y1.
      split; [rewrite EX; f_equal; f_equal; lia|].
      split; [congruence|].
      split; [rewrite EY; f_equal; f_equal; lia|].
      exact Hsame.
Qed.

Lemma loop_body_app (cfg : @config F) (xs ys : list (@complex F))
    (st : @block F) (idx : nat) (st' : @block F) (idx' : nat) :
  wf_config cfg -> wf_block cfg st ->
  idx < length xs ->
  loop_body ops cfg (xs ++ ys) st idx = Some (st', idx') ->
  (idx' <= length xs /\ loop_body ops cfg xs st idx = Some (st', idx'))
  \/
  (length xs <= idx' /\ 0 < length ys /\
   exists st1 st'',
     loop_body ops cfg xs st idx = Some (st1, length xs) /\
     loop_body ops cfg ys st1 0 = Some (st'', idx' - length xs) /\
     same_block st'' st').
Proof.
  intros Hc Hb Hidx. unfold loop_body at 1 2.
  destruct (state st) eqn:Hs.
  - intros E. injection E as E.
    destruct (search_step_app cfg xs ys st idx Hs Hidx)
      as [[Hle Hx]|(Hge & Hys & st1 & Hx & Hs1 & _ & Hy)];
      rewrite E in *; cbn [fst snd] in *.
    + left. split; [exact Hle|]. f_equal. exact Hx.
    + right. split; [exact Hge|]. split; [exact Hys|].
      exists st1, st'.
      split; [unfold loop_body; rewrite Hs; f_equal; exact Hx|].
      split; [|apply same_block_refl].
      unfold loop_body. rewrite Hs1, Hy. reflexivity.
  - intros E.
    destruct (capture_step_app cfg xs ys st idx st' idx' Hc Hb Hs Hidx E)
      as [[Hle Hx]|(Hge & Hys & st1 & st'' & Hx & Hs1 & Hy & Hsame)].
    + left. auto.
    + right. split; [exact Hge|]. split; [exact Hys|].
      exists st1, st''.
      split; [unfold loop_body; rewrite Hs; exact Hx|].
      split; [|exact Hsame].
      unfold loop_body. rewrite Hs1. exact Hy.
Qed.

(** A run of the loop over [xs ++ ys] is a run over [xs] followed by a
    run over [ys], up to the cutting of the bins into chunks. *)
Lemma loop_rel_split (cfg : @config F) (xs ys : list (@complex F))
    (st : @block F) (idx : nat) (stf : @block F) :
  wf_config cfg ->
  loop_rel ops cfg (xs ++ ys) st idx stf ->
  wf_block cfg st ->
  idx <= length xs ->
  exists st1 stf',
    loop_rel ops cfg xs st idx st1 /\
    loop_rel ops cfg ys st1 0 stf' /\
    same_block stf' stf.
Proof.
  intros Hc H.
  remember (xs ++ ys) as l eqn:Hl.
  induction H as [st idx Hge|st idx st' idx' stf Hlt Hbody Hrest IH];
    intros Hb Hidx; subst l.
  - rewrite length_app in Hge.
    exists st, st. split; [apply loop_exit; lia|].
    split; [apply loop_exit; lia|apply same_block_refl].
  - destruct (Nat.eq_dec idx (length xs)) as [->|Hne].
    + exists st, stf. split; [apply loop_exit; lia|].
      split; [|apply same_block_refl].
      assert (Hw : loop_rel ops cfg (xs ++ ys) st (length xs + 0) stf).
      { rewrite Nat.add_0_r. eapply loop_iter; eauto. }
      apply loop_rel_unskip with (k := length xs) (idx := 0) in Hw;
        [|reflexivity|rewrite length_app; lia].
      now rewrite skipn_length_app in Hw.
    + assert (Hidx' : idx < length xs) by lia.
      pose proof (loop_body_wf cfg _ st idx st' idx' Hc Hb Hbody) as Hb'.
      destruct (loop_body_app cfg xs ys st idx st' idx' Hc Hb Hidx' Hbody)
        as [[Hle Hx]|(Hge & Hys & st1 & st'' & Hx & Hy & Hsame)].
      * destruct (IH Hb' Hle) as (s1 & sf' & R1 & R2 & Hs).
        exists s1, sf'. split; [|auto].
        eapply loop_iter; eauto.
      * pose proof (loop_body_wf cfg _ st idx st1 _ Hc Hb Hx) as Hb1.
        pose proof (loop_body_wf cfg _ st1 0 st'' _ Hc Hb1 Hy) as Hb''.
        assert (Hw : loop_rel ops cfg ys st' (idx' - length xs) stf).
        { apply loop_rel_unskip
            with (k := length xs) (idx := idx' - length xs) in Hrest;
            [|lia|rewrite length_app; lia].
          now rewrite skipn_length_app in Hrest. }
        destruct (loop_rel_same cfg ys st' _ stf Hc Hw st'' Hb' Hb''
                    (same_block_sym _ _ Hsame))
          as (sf' & R2 & Hs).
        exists st1, sf'. split.
        { eapply loop_iter; [exact Hidx'|exact Hx|].
          apply loop_exit. lia. }
        split; [|now apply same_block_sym].
        eapply loop_iter; [exact Hys|exact Hy|exact R2].
Qed.

End Chunking.

(** ** Calls of [work] *)

Section Calls.

Context {F : Type} (ops : float_ops F).

Lemma frame_size_pos (cfg : @config F) :
  1 <= samples_per_antenna cfg -> 1 <= max_antennas cfg ->
  1 <= total_frame_size cfg.
Proof. unfold total_frame_size. nia. Qed.

(** With a frame of at least one sample a call returns. *)
Lemma work_done (cfg : @config F) (st : @block F)
    (iq out : list (@complex F)) :
  1 <= total_frame_size cfg ->
  wf_config cfg -> wf_block cfg st ->
  exists st',
    work ops cfg st iq out
    = Done (st', repeat (to_complex64 ops (lastAOA st)) (length out),
            length out) /\
    wf_block cfg st' /\
    loop_rel ops cfg iq st 0 st' /\
    forall fuel,
      3 * length iq + 3 <= fuel ->
      work_loop ops fuel cfg iq st 0 = Done st'.
Proof.
  intros Hf Hc Hb.
  destruct (work_loop_done ops cfg iq Hf Hc (3 * length iq + 3) st 0 Hb
              (measure_init cfg iq st)) as (st' & Hw & Hb').
  exists st'. unfold work, work_fuel. rewrite Hw, repeat_length.
  split; [reflexivity|]. split; [exact Hb'|].
  pose proof (work_loop_rel ops cfg iq _ _ _ _ Hw) as Hr.
  split; [exact Hr|].
  intros fuel Hfuel.
  destruct (work_loop_done ops cfg iq Hf Hc fuel st 0 Hb) as (s & Hs & _).
  { pose proof (measure_init cfg iq st). lia. }
  rewrite Hs. f_equal.
  apply (loop_rel_det ops cfg iq st 0 s); [|exact Hr].
  eapply work_loop_rel; eauto.
Qed.

(** One call on [xs ++ ys] against a call on [xs] and then one on
    [ys]. *)
Lemma work_app (cfg : @config F) (st : @block F)
    (xs ys : list (@complex F)) :
  1 <= total_frame_size cfg ->
  wf_config cfg -> wf_block cfg st ->
  exists whole s1 s2,
    loop_rel ops cfg (xs ++ ys) st 0 whole /\
    loop_rel ops cfg xs st 0 s1 /\
    wf_block cfg s1 /\
    loop_rel ops cfg ys s1 0 s2 /\
    same_block s2 whole.
Proof.
  intros Hf Hc Hb.
  destruct (work_done cfg st (xs ++ ys) [] Hf Hc Hb)
    as (whole & _ & _ & Rw & _).
  destruct (loop_rel_split ops cfg xs ys st 0 whole Hc Rw Hb)
    as (s1 & s2 & R1 & R2 & Hs); [lia|].
  destruct (work_done cfg st xs [] Hf Hc Hb) as (s1' & _ & Hb1 & R1' & _).
  assert (s1' = s1) by (eapply loop_rel_det; eauto). subst s1'.
  exists whole, s1, s2. auto.
Qed.

(** For bins that hold samples.  With at least one sample for each
    antenna and at least one antenna, a sample sequence cut in any way
    into consecutive buffers (empty and one-sample buffers included) and
    fed through successive calls of [work] leaves the block with the same
    state, silence counter, frame position, held estimate and bin
    contents as the whole sequence fed in one call. *)
Lemma chunking_invariance (cfg : @config F)
    (bufs : list (list (@complex F))) :
  1 <= samples_per_antenna cfg ->
  1 <= max_antennas cfg ->
  wf_config cfg ->
  forall st,
    wf_block cfg st ->
    exists whole out n pieces,
      work ops cfg st (concat bufs) (concat bufs) = Done (whole, out, n) /\
      work_seq ops cfg st bufs = Done pieces /\
      state pieces = state whole /\
      counter pieces = counter whole /\
      total_sample_counter pieces = total_sample_counter whole /\
      lastAOA pieces = lastAOA whole /\
      map (@concat _) (antenna_data pieces)
      = map (@concat _) (antenna_data whole).
Proof.
  intros Hspa Hmax Hc.
  pose proof (frame_size_pos cfg Hspa Hmax) as Hf.
  assert (G : forall st, wf_block cfg st ->
            exists whole pieces,
              loop_rel ops cfg (concat bufs) st 0 whole /\
              work_seq ops cfg st bufs = Done pieces /\
              same_block pieces whole).
  { induction bufs as [|b bs IH]; intros st Hb.
    - exists st, st. split; [apply loop_exit; simpl; lia|].
      split; [reflexivity|apply same_block_refl].
    - simpl concat.
      destruct (work_app cfg st b (concat bs) Hf Hc Hb)
        as (whole & s1 & s2 & Rw & R1 & Hb1 & R2 & Hs).
      destruct (IH s1 Hb1) as (w' & pieces & Rw' & Hseq & Hs').
      assert (w' = s2) by (eapply loop_rel_det; eauto). subst w'.
      exists whole, pieces. split; [exact Rw|]. split.
      + simpl.
        destruct (work_done cfg st b b Hf Hc Hb) as (s1' & -> & _ & R1' & _).
        assert (s1' = s1) by (eapply loop_rel_det; eauto). subst s1'.
        exact Hseq.
      + eapply same_block_trans; eauto. }
  intros st Hb.
  destruct (G st Hb) as (whole & pieces & Rw & Hseq & Hs).
  destruct (work_done cfg st (concat bufs) (concat bufs) Hf Hc Hb)
    as (whole' & Hw & _ & Rw' & _).
  assert (whole' = whole) by (eapply loop_rel_det; eauto). subst whole'.
  destruct Hs as (H1 & H2 & H3 & H4 & H5).
  exists whole,
    (repeat (to_complex64 ops (lastAOA st)) (length (concat bufs))),
    (length (concat bufs)), pieces.
  repeat split; auto.
Qed.

(** C6 (amended).  A call writes every item of the output buffer it is
    given and returns the length of that buffer; [work] never compares it
    with the input buffer, so the output is as long as the input when the
    caller passes two buffers of one length, as the scheduler of a sync
    block does.  Every item written is the estimate held when the call
    begins, in the single precision of the output buffer, whatever the
    loop does to the block during the call; an estimate computed during
    the call is not written by it, and a later call writes the estimate
    held when that call begins.  With at least one sample for each
    antenna and at least one antenna the call returns. *)
Theorem output_is_estimate_at_entry (cfg : @config F) (st : @block F)
    (iq out : list (@complex F)) :
  (forall fuel st' o n,
      work_fuel ops fuel cfg st iq out = Done (st', o, n) ->
      o = repeat (to_complex64 ops (lastAOA st)) (length out) /\
      length o = length out /\
      n = length out /\
      (length out = length iq -> length o = length iq /\ n = length iq) /\
      Forall (fun z => z = to_complex64 ops (lastAOA st)) o /\
      forall fuel2 iq2 out2 st2 o2 n2,
        work_fuel ops fuel2 cfg st' iq2 out2 = Done (st2, o2, n2) ->
        o2 = repeat (to_complex64 ops (lastAOA st')) (length out2)) /\
  (1 <= samples_per_antenna cfg -> 1 <= max_antennas cfg ->
   wf_config cfg -> wf_block cfg st ->
   exists st',
     work ops cfg st iq out
     = Done (st', repeat (to_complex64 ops (lastAOA st)) (length out),
             length out)).
Proof.
  assert (W : forall fuel (s : @block F) i u s' o n,
             work_fuel ops fuel cfg s i u = Done (s', o, n) ->
             o = repeat (to_complex64 ops (lastAOA s)) (length u) /\
             n = length u).
  { intros fuel s i u s' o n. unfold work_fuel.
    destruct (work_loop _ _ _ _ _ _); try discriminate.
    intros E. injection E as _ <- <-.
    split; [reflexivity|apply repeat_length]. }
  split.
  - intros fuel st' o n Hw.
    destruct (W _ _ _ _ _ _ _ Hw) as [-> ->].
    split; [reflexivity|].
    split; [apply repeat_length|].
    split; [reflexivity|].
    split; [intros <-; split; [apply repeat_length|reflexivity]|].
    split.
    + apply Forall_forall. intros z Hz. now apply repeat_spec in Hz.
    + intros fuel2 iq2 out2 st2 o2 n2 Hw2.
      now destruct (W _ _ _ _ _ _ _ Hw2).
  - intros Hspa Hmax Hc Hb.
    destruct (work_done cfg st iq out (frame_size_pos cfg Hspa Hmax) Hc Hb)
      as (st' & Hw & _).
    exists st'. exact Hw.
Qed.

End Calls.

(** ** Termination of the loop *)

Section Termination.

Context {F : Type} (ops : float_ops F).

(** An iteration on a block that satisfies [frame_inv]. *)
Lemma loop_body_advances (cfg : @config F) (iq : list (@complex F))
    (st : @block F) (idx : nat) :
  1 <= total_frame_size cfg ->
  wf_config cfg -> wf_block cfg st -> frame_inv cfg st ->
  idx < length iq ->
  exists st' idx',
    loop_body ops cfg iq st idx = Some (st', idx') /\
    wf_block cfg st' /\
    frame_inv cfg st' /\
    idx' <= length iq /\
    (idx < idx' \/
     (idx' = idx /\ state st = SEARCH_RFX /\ state st' = CAPTURE_FRAME)).
Proof.
  intros Hf Hc Hb Hinv Hidx.
  destruct (loop_body_decreases ops cfg iq st idx Hf Hc Hb Hidx)
    as (st' & idx' & Hbody & Hb' & [Hle1 Hle2] & _).
  exists st', idx'. split; [exact Hbody|]. split; [exact Hb'|].
  unfold loop_body in Hbody. unfold frame_inv in *.
  destruct (state st) eqn:Hs.
  - injection Hbody as Hbody.
    destruct (search_step_cases ops cfg iq st idx)
      as [[_ E]|(gap & edge & post & Hsk & _ & _ & E)];
      rewrite E in Hbody; clear E.
    + injection Hbody as <- <-. simpl.
      repeat split; try discriminate; lia.
    + destruct (_ <=? _); injection Hbody as <- <-; simpl.
      * split; [intros _; lia|]. split; [lia|].
        destruct gap; simpl; [right|left]; try lia.
        rewrite Nat.add_0_r. auto.
      * split; [discriminate|]. split; lia.
  - specialize (Hinv eq_refl).
    destruct (capture_step_full ops cfg iq st idx Hb)
      as (s1 & S1 & _ & S3 & _ & _ & _ & E).
    rewrite E in Hbody. clear E.
    pose proof (n_process_le cfg iq st idx) as [Hn1 Hn2].
    assert (Hn : 1 <= n_process_of cfg iq st idx).
    { unfold n_process_of. lia. }
    destruct (Nat.leb_spec (total_frame_size cfg)
                (total_sample_counter st + n_process_of cfg iq st idx)).
    + destruct (calculate_aoa ops cfg s1); [|discriminate].
      simpl in Hbody. injection Hbody as <- <-. simpl.
      split; [discriminate|]. split; lia.
    + injection Hbody as <- <-.
      split; [intros _; lia|]. split; lia.
Qed.

(** With an empty frame and a gap threshold of at least 1 every iteration
    lowers [measure_empty]. *)
Lemma loop_body_decreases_empty (cfg : @config F) (iq : list (@complex F))
    (st : @block F) (idx : nat) :
  total_frame_size cfg = 0 ->
  1 <= rfx_gap_threshold cfg ->
  wf_config cfg -> wf_block cfg st ->
  idx < length iq ->
  exists st' idx',
    loop_body ops cfg iq st idx = Some (st', idx') /\
    wf_block cfg st' /\
    measure_empty iq st' idx' < measure_empty iq st idx.
Proof.
  intros Hf Hg Hc Hb Hidx. unfold loop_body, measure_empty, phase_empty.
  destruct (state st) eqn:Hs.
  - destruct (search_step_cases ops cfg iq st idx)
      as [[_ ->]|(gap & edge & post & Hsk & _ & _ & ->)].
    + eexists _, _. split; [reflexivity|]. simpl.
      split; [exact Hb|].
      destruct (_ =? 0); destruct (_ =? 0); lia.
    + pose proof (skipn_split_length _ _ _ _ _ Hsk) as Hlen.
      destruct (Nat.leb_spec (rfx_gap_threshold cfg)
                  (counter st + length gap));
        eexists _, _; (split; [reflexivity|]); simpl.
      * split; [apply reset_arrays_wf|].
        destruct (Nat.eqb_spec (counter st) 0); lia.
      * split; [exact Hb|].
        destruct (counter st =? 0); lia.
  - destruct (capture_step_full ops cfg iq st idx Hb)
      as (s1 & _ & _ & _ & _ & Hb1 & _ & ->).
    rewrite Hf. simpl.
    destruct (calculate_aoa_total ops cfg s1 Hc Hb1)
      as (s2 & -> & _ & _ & _ & Hd).
    simpl. eexists _, _. split; [reflexivity|]. simpl.
    split; [unfold wf_block in *; simpl; congruence|].
    assert (Hn : n_process_of cfg iq st idx = 0).
    { unfold n_process_of. rewrite Hf. reflexivity. }
    rewrite Hn. lia.
Qed.

Lemma work_loop_done_empty (cfg : @config F) (iq : list (@complex F)) :
  total_frame_size cfg = 0 ->
  1 <= rfx_gap_threshold cfg ->
  wf_config cfg ->
  forall fuel st idx,
    wf_block cfg st ->
    measure_empty iq st idx <= fuel ->
    exists stf,
      work_loop ops fuel cfg iq st idx = Done stf /\ wf_block cfg stf.
Proof.
  intros Hf Hg Hc. induction fuel as [|fuel IH]; intros st idx Hb Hm.
  - simpl. destruct (Nat.ltb_spec idx (length iq)) as [Hlt|Hge].
    + unfold measure_empty in Hm. lia.
    + eauto.
  - simpl. destruct (Nat.ltb_spec idx (length iq)) as [Hlt|Hge].
    + destruct (loop_body_decreases_empty cfg iq st idx Hf Hg Hc Hb Hlt)
        as (st' & idx' & -> & Hb' & Hdec).
      apply IH; [exact Hb'|lia].
    + eauto.
Qed.

Lemma measure_empty_init (iq : list (@complex F)) (st : @block F) :
  measure_empty iq st 0 <= 3 * length iq + 3.
Proof.
  unfold measure_empty, phase_empty.
  destruct (state st); [|lia]. destruct (_ =? 0); lia.
Qed.

(** The result does not depend on the fuel, once there is enough. *)
Lemma work_loop_empty_frame (cfg : @config F) (iq : list (@complex F))
    (st : @block F) :
  total_frame_size cfg = 0 ->
  1 <= rfx_gap_threshold cfg ->
  wf_config cfg -> wf_block cfg st ->
  exists stf,
    forall fuel,
      3 * length iq + 3 <= fuel ->
      work_loop ops fuel cfg iq st 0 = Done stf.
Proof.
  intros Hf Hg Hc Hb.
  destruct (work_loop_done_empty cfg iq Hf Hg Hc (3 * length iq + 3) st 0 Hb
              (measure_empty_init iq st)) as (stf & Hw & _).
  exists stf. intros fuel Hfuel.
  destruct (work_loop_done_empty cfg iq Hf Hg Hc fuel st 0 Hb) as (s & Hs & _).
  { pose proof (measure_empty_init iq st). lia. }
  rewrite Hs. f_equal.
  apply (loop_rel_det ops cfg iq st 0 s); eapply work_loop_rel; eauto.
Qed.

(** With an empty frame and a gap threshold of 0 the loop stays on a
    sample at or above the threshold for ever. *)
Lemma work_loop_stuck (cfg : @config F) (iq : list (@complex F))
    (idx : nat) (edge : @complex F) (post : list (@complex F)) :
  total_frame_size cfg = 0 ->
  rfx_gap_threshold cfg = 0 ->
  wf_config cfg ->
  skipn idx iq = edge :: post ->
  is_high ops cfg edge = true ->
  forall fuel st,
    wf_block cfg st ->
    work_loop ops fuel cfg iq st idx = OutOfFuel.
Proof.
  intros Hf Hg Hc Hsk He.
  assert (Hidx : idx < length iq).
  { pose proof (skipn_split_length iq [] edge post idx Hsk). simpl in *.
    lia. }
  induction fuel as [|fuel IH]; intros st Hb; simpl;
    destruct (Nat.ltb_spec idx (length iq)); try lia; [reflexivity|].
  unfold loop_body. destruct (state st) eqn:Hs.
  - rewrite (search_step_view_edge ops cfg iq st idx [] edge post Hsk
               (Forall_nil _) He).
    rewrite Hg. simpl. rewrite Nat.add_0_r.
    apply IH. apply reset_arrays_wf.
  - destruct (capture_step_full ops cfg iq st idx Hb)
      as (s1 & _ & _ & _ & _ & Hb1 & _ & ->).
    rewrite Hf. simpl.
    destruct (calculate_aoa_total ops cfg s1 Hc Hb1)
      as (s2 & -> & _ & _ & _ & Hd).
    simpl.
    assert (Hn : n_process_of cfg iq st idx = 0).
    { unfold n_process_of. rewrite Hf. reflexivity. }
    rewrite Hn, Nat.add_0_r.
    apply IH. unfold wf_block in *. simpl. congruence.
Qed.

(** C9 (amended).  With at least one sample for each antenna and at
    least one antenna the loop of [work] ends on every buffer, within
    [3 * length iq + 3] iterations, and every iteration made in a block
    that is not capturing beyond its frame either moves the scan index
    forward or switches from searching to capturing without moving it,
    and then the next iteration moves it forward by at least one sample.
    Without that the frame size is 0.  With no sample for each antenna
    the gap threshold is 0 as well, and whenever both are 0 the loop does
    not end on a buffer that holds a sample at or above the threshold.
    With a dwell of two samples or more the gap threshold is not 0, and
    whenever the frame size is 0 and the gap threshold is not, as with no
    antenna, the loop still ends on every buffer within
    [3 * length iq + 3] iterations. *)
Theorem work_loop_terminates (cfg : @config F) (iq : list (@complex F))
    (st : @block F) :
  wf_config cfg -> wf_block cfg st ->
  (1 <= samples_per_antenna cfg -> 1 <= max_antennas cfg ->
   (exists stf,
       forall fuel,
         3 * length iq + 3 <= fuel ->
         work_loop ops fuel cfg iq st 0 = Done stf) /\
   (forall s idx,
       wf_block cfg s -> frame_inv cfg s -> idx < length iq ->
       exists s' idx',
         loop_body ops cfg iq s idx = Some (s', idx') /\
         wf_block cfg s' /\ frame_inv cfg s' /\
         (idx < idx' \/
          (idx' = idx /\ state s' = CAPTURE_FRAME /\
           exists s'' idx'',
             loop_body ops cfg iq s' idx' = Some (s'', idx'') /\
             idx' < idx'')))) /\
  (samples_per_antenna cfg = 0 ->
   rfx_gap_threshold cfg = 3 * samples_per_antenna cfg / 4 ->
   total_frame_size cfg = 0 /\ rfx_gap_threshold cfg = 0) /\
  (total_frame_size cfg = 0 ->
   rfx_gap_threshold cfg = 0 ->
   state st = SEARCH_RFX ->
   forall gap edge post,
     iq = gap ++ edge :: post ->
     Forall (fun z => is_high ops cfg z = false) gap ->
     is_high ops cfg edge = true ->
     forall fuel, work_loop ops fuel cfg iq st 0 = OutOfFuel) /\
  (~ (1 <= samples_per_antenna cfg /\ 1 <= max_antennas cfg) ->
   total_frame_size cfg = 0) /\
  (rfx_gap_threshold cfg = 3 * samples_per_antenna cfg / 4 ->
   2 <= samples_per_antenna cfg ->
   1 <= rfx_gap_threshold cfg) /\
  (total_frame_size cfg = 0 ->
   1 <= rfx_gap_threshold cfg ->
   exists stf,
     forall fuel,
       3 * length iq + 3 <= fuel ->
       work_loop ops fuel cfg iq st 0 = Done stf).
Proof.
  intros Hc Hb.
  assert (Hlast :
    (~ (1 <= samples_per_antenna cfg /\ 1 <= max_antennas cfg) ->
     total_frame_size cfg = 0) /\
    (rfx_gap_threshold cfg = 3 * samples_per_antenna cfg / 4 ->
     2 <= samples_per_antenna cfg ->
     1 <= rfx_gap_threshold cfg) /\
    (total_frame_size cfg = 0 ->
     1 <= rfx_gap_threshold cfg ->
     exists stf,
       forall fuel,
         3 * length iq + 3 <= fuel ->
         work_loop ops fuel cfg iq st 0 = Done stf)).
  { split; [|split].
    - unfold total_frame_size. intros Hn. nia.
    - intros -> Hspa.
      apply (Nat.div_le_lower_bound (3 * samples_per_antenna cfg) 4 1); lia.
    - intros Hf Hg. now apply work_loop_empty_frame. }
  split; [|split; [|split; [|exact Hlast]]].
  - intros Hspa Hmax.
    pose proof (frame_size_pos cfg Hspa Hmax) as Hf. split.
    + destruct (work_done ops cfg st iq [] Hf Hc Hb)
        as (stf & _ & _ & _ & Hfuel).
      exists stf. exact Hfuel.
    + intros s idx Hbs Hinv Hidx.
      destruct (loop_body_advances cfg iq s idx Hf Hc Hbs Hinv Hidx)
        as (s' & idx' & Hbody & Hb' & Hinv' & Hle & Hadv).
      exists s', idx'. repeat split; auto.
      destruct Hadv as [Hadv|(-> & Hs & Hs')]; [left; exact Hadv|].
      right. repeat split; auto.
      destruct (loop_body_advances cfg iq s' idx Hf Hc Hb' Hinv' Hidx)
        as (s'' & idx'' & Hbody' & _ & _ & _ & Hadv').
      exists s'', idx''. split; [exact Hbody'|].
      destruct Hadv' as [Hadv'|(_ & Hs'' & _)]; [exact Hadv'|congruence].
  - intros Hspa Hthr. split.
    + unfold total_frame_size. rewrite Hspa. reflexivity.
    + rewrite Hthr, Hspa. reflexivity.
  - intros Hf Hg Hs gap edge post -> Hgap He fuel.
    destruct fuel as [|fuel]; simpl.
    + rewrite length_app. simpl.
      destruct (Nat.ltb_spec 0 (length gap + S (length post)));
        [reflexivity|lia].
    + rewrite length_app. simpl length.
      destruct (Nat.ltb_spec 0 (length gap + S (length post))); [|lia].
      unfold loop_body. rewrite Hs.
      rewrite (search_step_view_edge ops cfg _ st 0 gap edge post
                 eq_refl Hgap He).
      rewrite Hg. simpl.
      apply work_loop_stuck with (edge := edge) (post := post); auto.
      * apply skipn_length_app.
      * apply reset_arrays_wf.
Qed.

End Termination.

(** ** The held estimate before the first completed frame *)

Section Hold.

Context {F : Type} (ops : float_ops F).

Lemma existsb_empty_inv (flat : list (list (@complex F))) :
  existsb (fun arr => length arr =? 0) flat = false ->
  Forall (fun b => b <> []) flat.
Proof.
  induction flat as [|b flat IH]; simpl; intros H.
  - constructor.
  - apply orb_false_iff in H as [H1 H2].
    constructor; [|now apply IH].
    intros ->. discriminate.
Qed.

Lemma capture_chunk_lastAOA (cfg : @config F) (iq : list (@complex F))
    (st : @block F) (idx : nat) (st1 : @block F) (idx1 : nat) :
  capture_chunk cfg iq st idx = Some (st1, idx1) ->
  lastAOA st1 = lastAOA st /\ state st1 = state st.
Proof.
  unfold capture_chunk. destruct (0 <? _).
  - destruct (bin_loop _ _ _ _ _ _); [|discriminate].
    intros E. injection E as <- _. split; reflexivity.
  - intros E. injection E as <- _. split; reflexivity.
Qed.

(** In a call on fewer samples than a frame holds, started outside a
    frame, no frame completes and the held estimate stays. *)
Lemma short_buffer_keeps_estimate (cfg : @config F)
    (iq : list (@complex F)) :
  length iq < total_frame_size cfg ->
  forall fuel st idx st',
    (state st = CAPTURE_FRAME -> total_sample_counter st <= idx) ->
    idx <= length iq ->
    work_loop ops fuel cfg iq st idx = Done st' ->
    lastAOA st' = lastAOA st.
Proof.
  intros Hshort.
  induction fuel as [|fuel IH]; intros st idx st' Hinv Hidx; simpl;
    destruct (Nat.ltb_spec idx (length iq)) as [Hlt|Hge];
    try discriminate; try (intros E; injection E as <-; reflexivity).
  unfold loop_body. destruct (state st) eqn:Hs.
  - destruct (search_step_cases ops cfg iq st idx)
      as [[_ E]|(gap & edge & post & Hsk & _ & _ & E)]; rewrite E; clear E.
    + intros H. apply IH in H; simpl; auto; discriminate.
    + pose proof (skipn_split_length _ _ _ _ _ Hsk) as Hlen.
      destruct (_ <=? _); intros H; apply IH in H; simpl; auto;
        try discriminate; lia.
  - specialize (Hinv eq_refl).
    pose proof (n_process_le cfg iq st idx) as [Hn _].
    unfold capture_step, capture_chunk.
    destruct (0 <? n_process_of cfg iq st idx).
    + destruct (bin_loop _ _ _ _ _ _); [|discriminate].
      cbn [total_sample_counter].
      replace (total_frame_size cfg
               <=? total_sample_counter st + n_process_of cfg iq st idx)
        with false by (symmetry; apply Nat.leb_gt; lia).
      intros H. apply IH in H; simpl in *; auto; lia.
    + replace (total_frame_size cfg <=? total_sample_counter st)
        with false by (symmetry; apply Nat.leb_gt; lia).
      intros H. apply IH in H; auto.
Qed.

(** C10.  The block starts with the estimate [0 + 0j]; a call made while
    the held estimate is [0 + 0j], the first call in particular, writes
    [0 + 0j] to every output sample; a loop iteration changes the held
    estimate only when it completes a frame whose bins are all non-empty;
    and a first call on fewer samples than a frame holds leaves the
    estimate at [0 + 0j]. *)
Theorem initial_estimate_is_zero (cfg : @config F) :
  lastAOA (init_block ops cfg) = (f0 ops, f0 ops) /\
  (forall fuel iq out st' o n,
      work_fuel ops fuel cfg (init_block ops cfg) iq out = Done (st', o, n) ->
      o = repeat (f0 ops, f0 ops) (length out)) /\
  (forall fuel st iq out st' o n,
      lastAOA st = (f0 ops, f0 ops) ->
      work_fuel ops fuel cfg st iq out = Done (st', o, n) ->
      o = repeat (f0 ops, f0 ops) (length out)) /\
  (forall iq st idx st' idx',
      loop_body ops cfg iq st idx = Some (st', idx') ->
      lastAOA st' = lastAOA st \/
      (state st = CAPTURE_FRAME /\
       state st' = SEARCH_RFX /\
       exists st1,
         capture_chunk cfg iq st idx = Some (st1, idx') /\
         total_frame_size cfg <= total_sample_counter st1 /\
         Forall (fun b => b <> []) (bins st1))) /\
  (forall fuel iq st',
      length iq < total_frame_size cfg ->
      work_loop ops fuel cfg iq (init_block ops cfg) 0 = Done st' ->
      lastAOA st' = (f0 ops, f0 ops)).
Proof.
  assert (Hout : forall fuel st iq out st' o n,
             lastAOA st = (f0 ops, f0 ops) ->
             work_fuel ops fuel cfg st iq out = Done (st', o, n) ->
             o = repeat (f0 ops, f0 ops) (length out)).
  { intros fuel st iq out st' o n Hz. unfold work_fuel.
    destruct (work_loop _ _ _ _ _ _); try discriminate.
    intros E. injection E as _ <- _.
    now rewrite Hz, to_complex64_zero. }
  split; [reflexivity|]. split.
  { intros fuel iq out st' o n. now apply Hout. }
  split; [exact Hout|].
  split.
  2:{ intros fuel iq st' Hshort H.
      apply (short_buffer_keeps_estimate cfg iq Hshort) in H;
        [exact H|discriminate|lia]. }
  intros iq st idx st' idx'. unfold loop_body.
  destruct (state st) eqn:Hs.
  - intros E. injection E as E. left.
    rewrite <- (search_step_lastAOA ops cfg iq st idx), E. reflexivity.
  - unfold capture_step.
    destruct (capture_chunk cfg iq st idx) as [[st1 idx1]|] eqn:Hc;
      [|discriminate].
    destruct (capture_chunk_lastAOA cfg iq st idx st1 idx1 Hc) as [Ha _].
    destruct (Nat.leb_spec (total_frame_size cfg) (total_sample_counter st1))
      as [Hfull|Hpart].
    + unfold calculate_aoa. fold (bins st1).
      destruct (existsb _ (bins st1)) eqn:Hex.
      * intros E. injection E as <- _. left. exact Ha.
      * destruct (aoa_loop _ _ _ _ _ _); [|discriminate].
        intros E. injection E as <- <-. right.
        split; [reflexivity|]. split; [reflexivity|].
        exists st1. split; [reflexivity|]. split; [exact Hfull|].
        now apply existsb_empty_inv.
    + intros E. injection E as <- _. left. exact Ha.
Qed.

End Hold.

(** ** Samples in exact arithmetic *)

Section Exact.

Lemma is_high_R_true (cfg : @config R) (z : @complex R) :
  (threshold cfg <= fst z * fst z + snd z * snd z)%R ->
  is_high R_ops cfg z = true.
Proof.
  intros H. unfold is_high, power_of. simpl.
  destruct (Rle_dec _ _); [reflexivity|contradiction].
Qed.

Lemma is_high_R_false (cfg : @config R) (z : @complex R) :
  (fst z * fst z + snd z * snd z < threshold cfg)%R ->
  is_high R_ops cfg z = false.
Proof.
  intros H. unfold is_high, power_of. simpl.
  destruct (Rle_dec _ _); [lra|reflexivity].
Qed.

Lemma is_high_hi (cfg : @config R) :
  threshold cfg = 1%R -> is_high R_ops cfg hi = true.
Proof.
  intros H. apply is_high_R_true. rewrite H. unfold hi. simpl. lra.
Qed.

Lemma is_high_lo (cfg : @config R) :
  threshold cfg = 1%R -> is_high R_ops cfg lo = false.
Proof.
  intros H. apply is_high_R_false. rewrite H. unfold lo. simpl. lra.
Qed.

Lemma init_config_wf (spa settling n : nat) (thr offset_deg : R) :
  wf_config (init_config R_ops spa settling n thr offset_deg).
Proof.
  unfold wf_config. cbn [init_config antenna_angles max_antennas].
  now rewrite length_map, length_seq.
Qed.

End Exact.

(** ** The estimate of a completed frame *)




(** ** Worked inputs *)

Lemma hi_above : fge R_ops (power_of R_ops hi) 1%R = true.
Proof. exact (is_high_hi cfg_one eq_refl). Qed.

Lemma lo_below : fge R_ops (power_of R_ops lo) 1%R = false.
Proof. exact (is_high_lo cfg_one eq_refl). Qed.

(** Runs the block on concrete samples of power 0 and 1. *)
Ltac run :=
  repeat (progress (
    cbv [work work_fuel work_loop loop_body search_step capture_step
         capture_chunk n_process_of total_frame_size calculate_aoa aoa_loop
         bin_loop append_at slice finish_frame set_lastAOA flatnonzero
         flatnonzero_from reset_arrays init_block init_config
         cfg_one cfg_two cfg_none cfg_bare cfg_settle synced
         searching
         state counter total_sample_counter lastAOA antenna_data
         threshold max_antennas samples_per_antenna settling_samp
         rfx_gap_threshold antenna_angles
         length skipn firstn map seq app concat existsb nth_error repeat
         Nat.ltb Nat.leb Nat.sub Nat.add Nat.mul Nat.min Nat.max
         Nat.div Nat.divmod Nat.eqb fst snd orb andb option_map];
    rewrite ?hi_above, ?lo_below)).

(** The same for the block that holds views. *)
Ltac vrun :=
  repeat (progress (
    cbv [Views.work_seq Views.work Views.work_fuel Views.work_loop
         Views.loop_body Views.search_step Views.capture_step
         Views.capture_chunk Views.n_process_of total_frame_size
         Views.calculate_aoa aoa_loop Views.bin_loop append_at slice
         Views.finish_frame Views.set_lastAOA flatnonzero flatnonzero_from
         Views.reset_arrays Views.init_block init_config
         cfg_one cfg_two
         Views.state Views.counter Views.total_sample_counter
         Views.lastAOA Views.antenna_data
         Views.read Views.subview Views.whole
         Views.base Views.first Views.past memory_of nth
         threshold max_antennas samples_per_antenna settling_samp
         rfx_gap_threshold antenna_angles
         length skipn firstn map seq app concat existsb nth_error repeat
         Nat.ltb Nat.leb Nat.sub Nat.add Nat.mul Nat.min Nat.max
         Nat.div Nat.divmod Nat.eqb fst snd orb andb option_map];
    rewrite ?hi_above, ?lo_below)).

Lemma hi_magnitude : np_abs R_ops hi = 1%R.
Proof.
  cbn [np_abs R_ops hi fst snd].
  replace (1 * 1 + 0 * 0)%R with 1%R by ring. apply sqrt_1.
Qed.

Lemma first_angle_zero (n : nat) :
  fadd R_ops
    (fmul R_ops (of_nat R_ops 0)
       (fdiv R_ops (fmul R_ops (of_nat R_ops 2) (fpi R_ops))
          (of_nat R_ops n)))
    (radians R_ops 0%R) = 0%R.
Proof.
  cbn [fadd fmul fdiv of_nat fpi radians R_ops INR].
  unfold Rdiv. ring.
Qed.

Lemma low_run (cfg : @config R) (k : nat) :
  threshold cfg = 1%R ->
  Forall (fun z => is_high R_ops cfg z = false) (repeat lo k).
Proof.
  intros H. induction k; simpl; constructor; auto.
  now apply is_high_lo.
Qed.

(** A whole cycle in one call: three samples of silence, a frame of eight
    samples with a sample below the threshold in each window, and the
    beginning of the next search with a short dip. *)
Example full_cycle :
  exists st,
    work R_ops cfg_two (init_block R_ops cfg_two)
      ([lo; lo; lo] ++ [hi; lo; hi; hi; hi; hi; lo; hi] ++ [lo; lo; hi; lo])
      (repeat lo 15)
    = Done (st, repeat (0%R, 0%R) 15, 15) /\
    state st = SEARCH_RFX /\
    counter st = 1 /\
    total_sample_counter st = 8 /\
    bins st = [[lo; hi; hi]; [hi; lo; hi]].
Proof.
  eexists. split; [run; reflexivity|].
  repeat split.
Qed.

(** One sample of carried silence and two more before the edge reach the
    gap threshold 3 of [cfg_two]. *)
Lemma sync_iff_gap_reached_witness :
  exists st' idx',
    loop_body R_ops cfg_two ([hi] ++ [lo; lo] ++ hi :: [lo])
      (searching cfg_two 1) 1 = Some (st', idx') /\
    state st' = CAPTURE_FRAME /\
    total_sample_counter st' = 0 /\
    idx' = 3.
Proof.
  pose proof (sync_iff_gap_reached R_ops cfg_two (searching cfg_two 1)
                [hi] [lo; lo] hi [lo] eq_refl
                (low_run cfg_two 2 eq_refl) (is_high_hi cfg_two eq_refl))
    as H.
  cbv zeta in H. destruct H as (st' & idx' & Hb & _ & _ & Hsync & Hpost).
  assert (Hs : state st' = CAPTURE_FRAME) by (apply Hsync; reflexivity).
  destruct (Hpost Hs) as (_ & _ & Ht & _ & _ & Hi & _).
  exists st', idx'. repeat split; assumption.
Defined.

(** A buffer of silence only. *)
Lemma search_glitch_and_silence_witness :
  loop_body R_ops cfg_two ([] ++ [lo; lo]) (searching cfg_two 0) 0
  = Some (searching cfg_two 2, 2).
Proof.
  destruct (search_glitch_and_silence R_ops cfg_two (searching cfg_two 0) []
              eq_refl) as (_ & _ & Hlow).
  exact (Hlow [lo; lo] (low_run cfg_two 2 eq_refl)).
Defined.

(** A chunk of six samples over both windows of [cfg_two]. *)
Lemma binning_by_window_witness :
  exists st1,
    capture_chunk cfg_two [hi; lo; hi; hi; lo; hi] (synced cfg_two) 0
    = Some (st1, 6) /\
    nth_error (bins st1) 0 = Some [lo; hi; hi] /\
    nth_error (bins st1) 1 = Some [hi].
Proof.
  pose proof (binning_by_window cfg_two [hi; lo; hi; hi; lo; hi]
                (synced cfg_two) 0 eq_refl) as H.
  cbv zeta in H. destruct H as (st1 & Hc & _ & _ & _ & Hbin & _).
  exists st1. split; [exact Hc|]. split.
  - exact (Hbin 0 [] eq_refl).
  - exact (Hbin 1 [] eq_refl).
Defined.

(** The only bin of [cfg_settle] is empty when the frame completes. *)
Lemma empty_bin_keeps_estimate_witness :
  exists st',
    loop_body R_ops cfg_settle [hi] (synced cfg_settle) 0 = Some (st', 1) /\
    lastAOA st' = (0%R, 0%R) /\
    state st' = SEARCH_RFX.
Proof.
  destruct (empty_bin_keeps_estimate R_ops cfg_settle [hi]
              (synced cfg_settle) 0 eq_refl eq_refl)
    as (st1 & idx1 & Hc & H).
  pose proof Hc as Hc'.
  cbv [capture_chunk n_process_of total_frame_size bin_loop append_at slice
       cfg_settle synced init_config reset_arrays
       state counter total_sample_counter lastAOA antenna_data
       max_antennas samples_per_antenna settling_samp
       length skipn firstn map seq app
       Nat.ltb Nat.leb Nat.sub Nat.add Nat.mul Nat.min Nat.max] in Hc'.
  injection Hc' as <- <-.
  destruct H as (_ & Hb & Ha & Hs & _).
  - cbn. lia.
  - constructor. reflexivity.
  - eexists. split; [exact Hb|]. split; [exact Ha|exact Hs].
Defined.

(** The one-sample frame of [cfg_one]. *)
Lemma frame_completion_witness :
  exists st1 idx1,
    capture_chunk cfg_one [hi] (synced cfg_one) 0 = Some (st1, idx1) /\
    total_sample_counter st1 <= total_frame_size cfg_one.
Proof.
  destruct (frame_completion R_ops cfg_one [hi] (synced cfg_one) 0
              (init_config_wf 1 0 1 1%R 0%R) eq_refl) as [Hcap _].
  destruct Hcap as (st1 & idx1 & Hc & Hle & _).
  - reflexivity.
  - cbn. lia.
  - exists st1, idx1. split; assumption.
Defined.

(** The first call of a block. *)
Lemma output_is_estimate_at_entry_witness :
  exists st',
    work R_ops cfg_one (init_block R_ops cfg_one) [hi; lo] [lo; lo]
    = Done (st', [(0%R, 0%R); (0%R, 0%R)], 2).
Proof.
  destruct (output_is_estimate_at_entry R_ops cfg_one
              (init_block R_ops cfg_one) [hi; lo] [lo; lo])
    as [_ H].
  apply H.
  - cbn. lia.
  - cbn. lia.
  - apply init_config_wf.
  - reflexivity.
Defined.

(** A buffer on which the loop of [cfg_two] ends, one on which that of
    [cfg_none] does not, and one on which that of [cfg_bare] ends. *)
Lemma work_loop_terminates_witness :
  (exists stf,
      forall fuel,
        3 * length [lo; hi; hi] + 3 <= fuel ->
        work_loop R_ops fuel cfg_two [lo; hi; hi] (init_block R_ops cfg_two) 0
        = Done stf) /\
  (forall fuel,
      work_loop R_ops fuel cfg_none [lo; hi] (init_block R_ops cfg_none) 0
      = OutOfFuel) /\
  (exists stf,
      forall fuel,
        3 * length [lo; lo; lo; hi; lo] + 3 <= fuel ->
        work_loop R_ops fuel cfg_bare [lo; lo; lo; hi; lo]
          (init_block R_ops cfg_bare) 0
        = Done stf).
Proof.
  split; [|split].
  - destruct (work_loop_terminates R_ops cfg_two [lo; hi; hi]
                (init_block R_ops cfg_two)
                (init_config_wf 4 1 2 1%R 0%R) eq_refl) as [H _].
    apply H; cbn; lia.
  - destruct (work_loop_terminates R_ops cfg_none [lo; hi]
                (init_block R_ops cfg_none)
                (init_config_wf 0 0 1 1%R 0%R) eq_refl)
      as (_ & _ & Hdiv & _).
    apply (Hdiv eq_refl eq_refl eq_refl [lo] hi []).
    + reflexivity.
    + exact (low_run cfg_none 1 eq_refl).
    + exact (is_high_hi cfg_none eq_refl).
  - destruct (work_loop_terminates R_ops cfg_bare [lo; lo; lo; hi; lo]
                (init_block R_ops cfg_bare)
                (init_config_wf 4 0 0 1%R 0%R) eq_refl)
      as (_ & _ & _ & _ & _ & Hend).
    apply Hend; cbn; lia.
Defined.

(** Without an antenna the frame size is 0 and the gap threshold is not,
    and the loop ends: after three samples of silence a sample at the
    threshold starts a frame that is complete at once, and the search goes
    on behind it. *)
Lemma no_antenna_loop_ends :
  ~ (1 <= samples_per_antenna cfg_bare64 /\ 1 <= max_antennas cfg_bare64) /\
  total_frame_size cfg_bare64 = 0 /\
  rfx_gap_threshold cfg_bare64 = 3 /\
  ~ (total_frame_size cfg_bare64 = 0 /\ rfx_gap_threshold cfg_bare64 = 0) /\
  exists st out,
    work B64_ops cfg_bare64 (init_block B64_ops cfg_bare64)
      [lo64; lo64; lo64; hi64; lo64] [lo64; lo64; lo64; lo64; lo64]
    = Done (st, out, 5) /\
    state st = SEARCH_RFX /\
    counter st = 1.
Proof.
  split; [cbn; lia|].
  split; [reflexivity|].
  split; [reflexivity|].
  split; [cbn; intros [_ H]; discriminate|].
  do 2 eexists.
  split; [vm_compute; reflexivity|].
  split; reflexivity.
Qed.

(** Three ways in which an output sample is not the estimate held at
    that moment, or the output not as long as the input, in binary
    floating point.  The estimate computed from the first sample of a
    call does not reach the output samples written for the rest of that
    call.  The estimate of the frame of [cfg_quad64] is held in double
    precision, and the next call writes it in single precision, which is
    another number.  And [work] fills the output buffer it is given, be
    it longer than the input. *)
Lemma output_lags_estimate :
  (exists st o,
      work B64_ops cfg_one64 (init_block B64_ops cfg_one64)
        [hi64; lo64] [lo64; lo64]
      = Done (st, o, 2) /\
      lastAOA st = (one64, zero64) /\
      o = [(zero64, zero64); (zero64, zero64)] /\
      nth_error o 1 <> Some (lastAOA st)) /\
  (exists st1 o1 st2 o2,
      work B64_ops cfg_quad64 (init_block B64_ops cfg_quad64)
        [hi64; hi64; hi64; hi64] [lo64; lo64; lo64; lo64]
      = Done (st1, o1, 4) /\
      lastAOA st1 = (residue_x, residue_y) /\
      work B64_ops cfg_quad64 st1 [lo64] [lo64] = Done (st2, o2, 1) /\
      lastAOA st2 = lastAOA st1 /\
      o2 = [(residue_x32, residue_y)] /\
      nth_error o2 0 <> Some (lastAOA st1)) /\
  (exists st o n,
      work B64_ops cfg_one64 (init_block B64_ops cfg_one64)
        [hi64] [lo64; lo64; lo64]
      = Done (st, o, n) /\
      length o = 3 /\
      n = 3 /\
      length o <> length [hi64]).
Proof.
  split; [|split].
  - do 2 eexists.
    split; [vm_compute; reflexivity|].
    split; [reflexivity|].
    split; [reflexivity|].
    cbn [nth_error lastAOA]. intros H. discriminate H.
  - do 4 eexists.
    split; [vm_compute; reflexivity|].
    split; [reflexivity|].
    split; [vm_compute; reflexivity|].
    split; [reflexivity|].
    split; [reflexivity|].
    cbn [nth_error lastAOA]. intros H. discriminate H.
  - do 3 eexists.
    split; [vm_compute; reflexivity|].
    repeat split. discriminate.
Qed.

(** After a completed frame the frame position is the frame size, not 0. *)
Lemma frame_position_kept :
  exists st o n,
    work R_ops cfg_one (init_block R_ops cfg_one) [hi] [hi]
    = Done (st, o, n) /\
    state st = SEARCH_RFX /\
    total_sample_counter st = total_frame_size cfg_one /\
    total_sample_counter st <> 0.
Proof.
  do 3 eexists.
  split; [run; reflexivity|].
  cbn. repeat split. discriminate.
Qed.

(** ** What every call keeps *)

Section Kept.

Context {F : Type} (ops : float_ops F).

Lemma init_config_wf_any (spa settling n : nat) (thr offset_deg : F) :
  wf_config (init_config ops spa settling n thr offset_deg).
Proof.
  unfold wf_config. cbn [init_config antenna_angles max_antennas].
  now rewrite length_map, length_seq.
Qed.

Lemma init_block_wf (cfg : @config F) : wf_block cfg (init_block ops cfg).
Proof. apply reset_arrays_wf. Qed.

(** With a bin and an angle for each antenna an iteration raises
    nothing. *)
Lemma loop_body_some (cfg : @config F) (iq : list (@complex F))
    (st : @block F) (idx : nat) :
  wf_config cfg -> wf_block cfg st ->
  exists st' idx',
    loop_body ops cfg iq st idx = Some (st', idx') /\ wf_block cfg st'.
Proof.
  intros Hc Hb.
  assert (H : exists r, loop_body ops cfg iq st idx = Some r).
  { unfold loop_body. destruct (state st); [eauto|].
    destruct (capture_step_full ops cfg iq st idx Hb)
      as (s1 & _ & _ & _ & _ & Hb1 & _ & ->).
    destruct (_ <=? _); [|eauto].
    destruct (calculate_aoa_total ops cfg s1 Hc Hb1) as (s2 & -> & _).
    simpl. eauto. }
  destruct H as [[st' idx'] H]. exists st', idx'. split; [exact H|].
  exact (loop_body_wf ops cfg iq st idx st' idx' Hc Hb H).
Qed.

Lemma work_loop_wf (cfg : @config F) (iq : list (@complex F)) :
  wf_config cfg ->
  forall fuel st idx,
    wf_block cfg st ->
    work_loop ops fuel cfg iq st idx <> IndexError /\
    forall st', work_loop ops fuel cfg iq st idx = Done st' ->
                wf_block cfg st'.
Proof.
  intros Hc. induction fuel as [|fuel IH]; intros st idx Hb; simpl;
    destruct (idx <? length iq).
  - split; [discriminate|]. discriminate.
  - split; [discriminate|]. intros st' E. injection E as <-. exact Hb.
  - destruct (loop_body_some cfg iq st idx Hc Hb) as (s & i & -> & Hb').
    apply IH. exact Hb'.
  - split; [discriminate|]. intros st' E. injection E as <-. exact Hb.
Qed.

(** X1.  A block made by [__init__] never sees a list index out of range:
    whatever buffers are fed to [work], one call after the other, no call
    raises IndexError, and after every call that returns the block still
    has one bin for each antenna. *)
Theorem work_never_raises (spa settling n : nat) (thr offset_deg : F)
    (bufs : list (list (@complex F))) :
  let cfg := init_config ops spa settling n thr offset_deg in
  work_seq ops cfg (init_block ops cfg) bufs <> IndexError /\
  (forall st,
      work_seq ops cfg (init_block ops cfg) bufs = Done st ->
      length (antenna_data st) = n) /\
  (forall fuel st iq out,
      length (antenna_data st) = n ->
      work_fuel ops fuel cfg st iq out <> IndexError).
Proof.
  intros cfg.
  assert (Hc : wf_config cfg) by apply init_config_wf_any.
  assert (G : forall st, wf_block cfg st ->
            work_seq ops cfg st bufs <> IndexError /\
            forall st', work_seq ops cfg st bufs = Done st' ->
                        wf_block cfg st').
  { induction bufs as [|b bs IH]; intros st Hb; simpl.
    - split; [discriminate|]. intros st' E. injection E as <-. exact Hb.
    - unfold work, work_fuel.
      destruct (work_loop_wf cfg b Hc (3 * length b + 3) st 0 Hb)
        as [Hne Hwf].
      destruct (work_loop ops (3 * length b + 3) cfg b st 0) as [s| |].
      + apply IH. now apply Hwf.
      + contradiction.
      + split; discriminate. }
  destruct (G (init_block ops cfg) (init_block_wf cfg)) as [G1 G2].
  split; [exact G1|]. split; [exact G2|].
  intros fuel st iq out Hb. unfold work_fuel.
  destruct (work_loop_wf cfg iq Hc fuel st 0 Hb) as [Hne _].
  destruct (work_loop ops fuel cfg iq st 0); congruence.
Qed.

End Kept.

(** ** The frame held by the bins, call after call *)

Section Frames.

Context {F : Type} (ops : float_ops F).

Lemma bins_reset (cfg : @config F) (st : @block F) :
  antenna_data st = reset_arrays cfg -> bins st = empty_bins cfg.
Proof.
  intros H. unfold bins, empty_bins. rewrite H. unfold reset_arrays.
  rewrite map_map. reflexivity.
Qed.

(** How many samples of a chunk fall in a window. *)
Lemma window_part_length (cfg : @config F) (i p : nat)
    (chunk : list (@complex F)) :
  length (window_part cfg i p chunk)
  = Nat.min (p + length chunk) ((i + 1) * samples_per_antenna cfg)
    - Nat.max p (i * samples_per_antenna cfg + settling_samp cfg).
Proof.
  unfold window_part, in_window. rewrite range_filter.
  rewrite length_firstn, length_skipn. lia.
Qed.

Lemma held_bin (cfg : @config F) (captured : list (@complex F)) (i : nat) :
  i < max_antennas cfg ->
  nth_error (binned cfg 0 captured (empty_bins cfg)) i
  = Some (window_part cfg i 0 captured).
Proof.
  intros Hi. rewrite binned_nth. unfold empty_bins.
  rewrite nth_error_map, nth_error_seq.
  apply Nat.ltb_lt in Hi. rewrite Hi. reflexivity.
Qed.

Lemma held_bin_inv (cfg : @config F) (captured : list (@complex F))
    (b : list (@complex F)) :
  In b (binned cfg 0 captured (empty_bins cfg)) ->
  exists i, i < max_antennas cfg /\ b = window_part cfg i 0 captured.
Proof.
  intros H. apply In_nth_error in H. destruct H as [i Hi].
  assert (Hlt : i < max_antennas cfg).
  { assert (Hl : i < length (binned cfg 0 captured (empty_bins cfg)))
      by (apply nth_error_Some; congruence).
    unfold binned, empty_bins in Hl.
    rewrite length_map, length_combine, !length_map, !length_seq in Hl.
    lia. }
  exists i. split; [exact Hlt|].
  rewrite (held_bin cfg captured i Hlt) in Hi. congruence.
Qed.

(** A whole frame leaves [samples_per_antenna - settling_samp] samples
    in every bin. *)
Lemma full_frame_bin_length (cfg : @config F)
    (captured : list (@complex F)) (i : nat) :
  length captured = total_frame_size cfg ->
  i < max_antennas cfg ->
  length (window_part cfg i 0 captured)
  = samples_per_antenna cfg - settling_samp cfg.
Proof.
  intros Hl Hi. rewrite window_part_length, Hl.
  unfold total_frame_size. nia.
Qed.

Lemma captured_inv_init (cfg : @config F) :
  captured_inv cfg (init_block ops cfg).
Proof.
  split; [simpl; lia|]. exists []. split; [reflexivity|].
  rewrite binned_nil. now apply bins_reset.
Qed.

(** The block after the chunk of a capture iteration. *)
Lemma capture_chunk_captured (cfg : @config F) (iq : list (@complex F))
    (st : @block F) (idx : nat) :
  wf_block cfg st -> captured_inv cfg st ->
  exists st1,
    capture_chunk cfg iq st idx
    = Some (st1, idx + n_process_of cfg iq st idx) /\
    wf_block cfg st1 /\
    captured_inv cfg st1 /\
    lastAOA st1 = lastAOA st /\
    total_sample_counter st1
    = total_sample_counter st + n_process_of cfg iq st idx.
Proof.
  intros Hb (Hle & captured & Hlen & Hbins).
  destruct (capture_chunk_spec cfg iq st idx Hb)
    as (st1 & Hch & _ & _ & Ht & Ha & Hb1 & Hb1s).
  exists st1. repeat split; auto.
  - pose proof (n_process_le cfg iq st idx). lia.
  - exists (captured
            ++ firstn (n_process_of cfg iq st idx) (skipn idx iq)).
    split.
    + rewrite length_app, chunk_length. lia.
    + rewrite Hb1s, Hbins, binned_app, Hlen. reflexivity.
Qed.

Lemma calculate_aoa_fields (cfg : @config F) (st st2 : @block F) :
  calculate_aoa ops cfg st = Some st2 ->
  state st2 = state st /\
  counter st2 = counter st /\
  total_sample_counter st2 = total_sample_counter st /\
  antenna_data st2 = antenna_data st.
Proof.
  unfold calculate_aoa. destruct (existsb _ _).
  - intros E. injection E as <-. repeat split.
  - destruct (aoa_loop _ _ _ _ _ _); [|discriminate].
    intros E. injection E as <-. repeat split.
Qed.

Lemma loop_body_captured (cfg : @config F) (iq : list (@complex F))
    (st : @block F) (idx : nat) (st' : @block F) (idx' : nat) :
  wf_block cfg st -> captured_inv cfg st ->
  loop_body ops cfg iq st idx = Some (st', idx') ->
  wf_block cfg st' /\ captured_inv cfg st'.
Proof.
  intros Hb Hinv. unfold loop_body. destruct (state st).
  - unfold search_step.
    destruct (flatnonzero _); [|destruct (_ <=? _)];
      intros E; injection E as <- _; try (split; assumption).
    split; [apply reset_arrays_wf|].
    split; [simpl; lia|]. exists []. split; [reflexivity|].
    rewrite binned_nil. now apply bins_reset.
  - destruct (capture_chunk_captured cfg iq st idx Hb Hinv)
      as (st1 & Hch & Hb1 & Hinv1 & _ & _).
    unfold capture_step. rewrite Hch.
    destruct (_ <=? _).
    + destruct (calculate_aoa ops cfg st1) as [st2|] eqn:Hcalc;
        [|discriminate].
      destruct (calculate_aoa_fields cfg st1 st2 Hcalc)
        as (_ & _ & Ht & Hd).
      intros E. injection E as <- _.
      unfold wf_block, captured_inv, bins in *. simpl.
      rewrite Ht, Hd. split; assumption.
    + intros E. injection E as <- _. split; assumption.
Qed.

Lemma work_loop_captured (cfg : @config F) (iq : list (@complex F)) :
  forall fuel st idx st',
    wf_block cfg st -> captured_inv cfg st ->
    work_loop ops fuel cfg iq st idx = Done st' ->
    wf_block cfg st' /\ captured_inv cfg st'.
Proof.
  induction fuel as [|fuel IH]; intros st idx st' Hb Hinv; simpl;
    destruct (idx <? length iq); try discriminate;
    try (intros E; injection E as <-; split; assumption).
  destruct (loop_body ops cfg iq st idx) as [[s i]|] eqn:Hbody;
    [|discriminate].
  destruct (loop_body_captured cfg iq st idx s i Hb Hinv Hbody).
  now apply IH.
Qed.

Lemma work_seq_captured (cfg : @config F) :
  forall bufs st st',
    wf_block cfg st -> captured_inv cfg st ->
    work_seq ops cfg st bufs = Done st' ->
    wf_block cfg st' /\ captured_inv cfg st'.
Proof.
  induction bufs as [|b bs IH]; intros st st' Hb Hinv; simpl.
  - intros E. injection E as <-. split; assumption.
  - unfold work, work_fuel.
    destruct (work_loop ops (3 * length b + 3) cfg b st 0) as [s| |] eqn:Hw;
      try discriminate.
    destruct (work_loop_captured cfg b _ _ _ _ Hb Hinv Hw).
    now apply IH.
Qed.

End Frames.

(** ** Views and what they show *)

(** As long as the memory is the same, the block that holds views does
    what the block that holds samples does. *)
Section Shown.

Context {F : Type} (ops : float_ops F).

Lemma read_subview (m : @Views.memory F) (v : Views.view) (a b : nat) :
  Views.read m (Views.subview v a b) = slice a b (Views.read m v).
Proof.
  unfold Views.read, Views.subview, slice. simpl.
  rewrite skipn_firstn_comm, firstn_firstn, skipn_skipn.
  destruct (Nat.le_gt_cases a (Views.past v - Views.first v)) as [H|H].
  - rewrite (Nat.min_l a) by exact H.
    rewrite (Nat.add_comm a). f_equal. lia.
  - replace (Views.first v + Nat.min b (Views.past v - Views.first v)
             - (Views.first v + Nat.min a (Views.past v - Views.first v)))
      with 0 by lia.
    replace (Nat.min (b - a) (Views.past v - Views.first v - a))
      with 0 by lia.
    reflexivity.
Qed.

Lemma read_whole (m : @Views.memory F) (iq : nat) :
  Views.read m (Views.whole iq (length (m iq))) = m iq.
Proof.
  unfold Views.read, Views.whole, slice. simpl.
  rewrite Nat.sub_0_r. apply firstn_all.
Qed.

Lemma append_at_map {A B : Type} (f : A -> B) (x : A) :
  forall (data : list (list A)) (i : nat),
    append_at i (f x) (map (map f) data)
    = option_map (map (map f)) (append_at i x data).
Proof.
  induction data as [|d ds IH]; intros i.
  - destruct i; reflexivity.
  - destruct i as [|i]; simpl.
    + now rewrite map_app.
    + rewrite IH. destruct (append_at i x ds); reflexivity.
Qed.

Lemma bin_loop_shown (m : @Views.memory F) (cfg : @config F) (p n : nat)
    (chunk : Views.view) :
  forall idxs data,
    bin_loop cfg p n (Views.read m chunk) idxs
      (map (map (Views.read m)) data)
    = option_map (map (map (Views.read m)))
        (Views.bin_loop cfg p n chunk idxs data).
Proof.
  induction idxs as [|i idxs IH]; intros data; simpl.
  - reflexivity.
  - destruct (_ <? _); [|apply IH].
    rewrite <- read_subview, append_at_map.
    destruct (append_at i _ data); simpl; [apply IH|reflexivity].
Qed.

Lemma reset_arrays_shown (m : @Views.memory F) (cfg : @config F) :
  map (map (Views.read m)) (Views.reset_arrays cfg) = reset_arrays cfg.
Proof.
  unfold Views.reset_arrays, reset_arrays. rewrite map_map. reflexivity.
Qed.

Lemma init_block_shown (m : @Views.memory F) (cfg : @config F) :
  shown m (Views.init_block ops cfg) = init_block ops cfg.
Proof.
  unfold shown, Views.init_block, init_block. simpl.
  now rewrite reset_arrays_shown.
Qed.

Lemma search_step_shown (m : @Views.memory F) (cfg : @config F)
    (iq : list (@complex F)) (st : @Views.block F) (idx : nat) :
  search_step ops cfg iq (shown m st) idx
  = (shown m (fst (Views.search_step ops cfg iq st idx)),
     snd (Views.search_step ops cfg iq st idx)).
Proof.
  unfold search_step, Views.search_step.
  destruct (flatnonzero _); [reflexivity|].
  simpl. destruct (_ <=? _); [|reflexivity].
  unfold shown. simpl. now rewrite reset_arrays_shown.
Qed.

Lemma capture_chunk_shown (m : @Views.memory F) (cfg : @config F)
    (iq : nat) (st : @Views.block F) (idx : nat) :
  capture_chunk cfg (m iq) (shown m st) idx
  = option_map (fun si => (shown m (fst si), snd si))
      (Views.capture_chunk cfg iq (length (m iq)) st idx).
Proof.
  unfold capture_chunk, Views.capture_chunk.
  change (n_process_of cfg (m iq) (shown m st) idx)
    with (Views.n_process_of cfg (length (m iq)) st idx).
  set (n := Views.n_process_of cfg (length (m iq)) st idx).
  destruct (0 <? n); [|reflexivity].
  replace (slice idx (idx + n) (m iq))
    with (Views.read m
            (Views.subview (Views.whole iq (length (m iq))) idx (idx + n)))
    by (now rewrite read_subview, read_whole).
  cbn [shown antenna_data total_sample_counter].
  rewrite bin_loop_shown.
  destruct (Views.bin_loop _ _ _ _ _ _); reflexivity.
Qed.

Lemma calculate_aoa_shown (m : @Views.memory F) (cfg : @config F)
    (st : @Views.block F) :
  calculate_aoa ops cfg (shown m st)
  = option_map (shown m) (Views.calculate_aoa ops m cfg st).
Proof.
  unfold calculate_aoa, Views.calculate_aoa.
  cbn [shown antenna_data]. rewrite map_map.
  destruct (existsb _ _); [reflexivity|].
  destruct (aoa_loop _ _ _ _ _ _); reflexivity.
Qed.

Lemma loop_body_shown (m : @Views.memory F) (cfg : @config F) (iq : nat)
    (st : @Views.block F) (idx : nat) :
  loop_body ops cfg (m iq) (shown m st) idx
  = option_map (fun si => (shown m (fst si), snd si))
      (Views.loop_body ops m cfg iq st idx).
Proof.
  unfold loop_body, Views.loop_body. cbn [shown state].
  destruct (Views.state st).
  - rewrite search_step_shown. reflexivity.
  - unfold capture_step, Views.capture_step.
    rewrite capture_chunk_shown.
    destruct (Views.capture_chunk _ _ _ _ _) as [[s1 i1]|]; [|reflexivity].
    cbn [option_map fst snd shown total_sample_counter].
    destruct (_ <=? _); [|reflexivity].
    change {| state := Views.state s1;
              counter := Views.counter s1;
              total_sample_counter := Views.total_sample_counter s1;
              lastAOA := Views.lastAOA s1;
              antenna_data :=
                map (map (Views.read m)) (Views.antenna_data s1) |}
      with (shown m s1).
    rewrite calculate_aoa_shown.
    destruct (Views.calculate_aoa _ _ _ _); reflexivity.
Qed.

Lemma work_loop_shown (m : @Views.memory F) (cfg : @config F) (iq : nat) :
  forall fuel st idx,
    work_loop ops fuel cfg (m iq) (shown m st) idx
    = outcome_map (shown m) (Views.work_loop ops fuel m cfg iq st idx).
Proof.
  induction fuel as [|fuel IH]; intros st idx; simpl;
    destruct (idx <? length (m iq)); try reflexivity.
  rewrite loop_body_shown.
  destruct (Views.loop_body _ _ _ _ _ _) as [[s i]|]; [|reflexivity].
  apply IH.
Qed.

(** One call: the same outcome, the same output, and a block that shows
    what the other holds. *)
Lemma work_shown (m : @Views.memory F) (cfg : @config F)
    (st : @Views.block F) (iq : nat) (out : list (@complex F)) :
  work ops cfg (shown m st) (m iq) out
  = outcome_map (fun r => (shown m (fst (fst r)), snd (fst r), snd r))
      (Views.work ops m cfg st iq out).
Proof.
  unfold work, work_fuel, Views.work, Views.work_fuel.
  rewrite work_loop_shown. cbn [shown lastAOA].
  destruct (Views.work_loop _ _ _ _ _ _ _); reflexivity.
Qed.

(** Calls that all find the memory as [m]. *)
Lemma work_seq_shown (m : @Views.memory F) (cfg : @config F) :
  forall ids st,
    work_seq ops cfg (shown m st) (map m ids)
    = outcome_map (shown m)
        (Views.work_seq ops cfg st (map (fun iq => (m, iq)) ids)).
Proof.
  induction ids as [|iq ids IH]; intros st; simpl.
  - reflexivity.
  - rewrite work_shown.
    destruct (Views.work ops m cfg st iq (m iq)) as [[[s o] k]| |];
      simpl; [apply IH|reflexivity|reflexivity].
Qed.

(** X16.  In a memory that does not change during the call, a call of
    [work] on a block whose bins hold views returns, raises or runs on
    exactly as the call on the block whose bins hold the samples that the
    views show; it writes the same output and returns the same length,
    and the block it leaves shows what the other block holds. *)
Theorem call_on_views_agrees (m : @Views.memory F) (cfg : @config F)
    (st : @Views.block F) (iq : nat) (out : list (@complex F)) :
  work ops cfg (shown m st) (m iq) out
  = match Views.work ops m cfg st iq out with
    | Done (st', out', n) => Done (shown m st', out', n)
    | IndexError => IndexError
    | OutOfFuel => OutOfFuel
    end.
Proof.
  rewrite work_shown.
  destruct (Views.work ops m cfg st iq out) as [[[s o] k]| |]; reflexivity.
Qed.

End Shown.

(** ** The frame held by the bins and the stream it comes from *)

Section Stream.

Context {F : Type} (ops : float_ops F).

Lemma firstn_add_skipn {A : Type} (l : list A) (i k : nat) :
  firstn (i + k) l = firstn i l ++ firstn k (skipn i l).
Proof.
  revert l. induction i as [|i IH]; intros l; simpl.
  - reflexivity.
  - destruct l as [|x l]; simpl.
    + now rewrite firstn_nil.
    + now rewrite IH.
Qed.

Lemma skipn_head {A : Type} (l : list A) (i : nat) (x : A) (t : list A) :
  skipn i l = x :: t -> nth_error l i = Some x.
Proof.
  revert l. induction i as [|i IH]; intros l; simpl.
  - intros ->. reflexivity.
  - destruct l as [|y l]; [discriminate|]. apply IH.
Qed.

Lemma holds_frame_init (cfg : @config F) :
  holds_frame ops cfg [] (init_block ops cfg).
Proof.
  split; [simpl; lia|]. exists [], [], [].
  split; [reflexivity|]. split; [reflexivity|].
  split; [rewrite binned_nil; now apply bins_reset|].
  split; [reflexivity|]. intros z rest H. discriminate.
Qed.

(** One iteration of the loop of a call on [iq], after the samples
    [prev] of earlier calls. *)
Lemma loop_body_holds (cfg : @config F) (prev iq : list (@complex F))
    (st : @block F) (idx : nat) (st' : @block F) (idx' : nat) :
  wf_block cfg st ->
  holds_frame ops cfg (prev ++ firstn idx iq) st ->
  edge_next ops cfg iq st idx ->
  idx < length iq ->
  loop_body ops cfg iq st idx = Some (st', idx') ->
  wf_block cfg st' /\
  holds_frame ops cfg (prev ++ firstn idx' iq) st' /\
  edge_next ops cfg iq st' idx'.
Proof.
  intros Hb (Hle & before & captured & after & Hseen & Hlen & Hbins
             & Hafter & Hhead) Hedge Hidx.
  unfold loop_body. destruct (state st) eqn:Hs.
  - (* searching *)
    intros E. injection E as E.
    destruct (search_step_cases ops cfg iq st idx)
      as [[_ E']|(gap & edge & post & Hsk & _ & He & E')];
      rewrite E' in E; clear E'.
    + injection E as <- <-. split; [exact Hb|]. split.
      * split; [exact Hle|].
        exists before, captured, (after ++ skipn idx iq).
        split.
        { rewrite firstn_all, <- (firstn_skipn idx iq) at 1.
          rewrite !app_assoc. f_equal.
          rewrite <- !app_assoc. rewrite <- Hseen. reflexivity. }
        split; [exact Hlen|]. split; [exact Hbins|].
        split; [discriminate|exact Hhead].
      * intros H. discriminate.
    + assert (Hnth : nth_error iq (idx + length gap) = Some edge).
      { apply (skipn_head _ _ _ post).
        rewrite Nat.add_comm, <- skipn_skipn, Hsk.
        apply skipn_length_app. }
      destruct (_ <=? _); injection E as <- <-.
      * split; [apply reset_arrays_wf|]. split.
        { split; [simpl; lia|].
          exists (prev ++ firstn (idx + length gap) iq), [], [].
          split; [now rewrite !app_nil_r|].
          split; [reflexivity|].
          split; [rewrite binned_nil; now apply bins_reset|].
          split; [reflexivity|]. intros z rest H. discriminate. }
        intros _ _ _. exists edge. split; [exact Hnth|exact He].
      * split; [exact Hb|]. split.
        { split; [exact Hle|].
          exists before, captured,
            (after ++ firstn (length gap + 1) (skipn idx iq)).
          split.
          { rewrite <- Nat.add_assoc, firstn_add_skipn.
            rewrite !app_assoc. f_equal.
            rewrite <- !app_assoc. rewrite <- Hseen. reflexivity. }
          split; [exact Hlen|]. split; [exact Hbins|].
          split; [discriminate|exact Hhead]. }
        intros H. discriminate.
  - (* capturing *)
    specialize (Hafter eq_refl). subst after. rewrite app_nil_r in Hseen.
    destruct (capture_step_full ops cfg iq st idx Hb)
      as (s1 & S1 & S2 & S3 & S4 & Hb1 & S6 & ->).
    set (n := n_process_of cfg iq st idx) in *.
    pose proof (n_process_le cfg iq st idx) as [Hn1 Hn2]. fold n in Hn1, Hn2.
    pose proof (chunk_length cfg iq st idx) as Hcl. fold n in Hcl.
    assert (H1 : holds_frame ops cfg (prev ++ firstn (idx + n) iq) s1).
    { split; [lia|].
      exists before, (captured ++ firstn n (skipn idx iq)), [].
      split.
      { rewrite firstn_add_skipn, app_nil_r, !app_assoc.
        f_equal. exact Hseen. }
      split; [rewrite length_app, Hcl; lia|].
      split; [rewrite S6, Hbins, binned_app, Hlen; reflexivity|].
      split; [reflexivity|].
      intros z rest Hz. destruct captured as [|c cs].
      - simpl in Hz, Hlen.
        destruct (Nat.eq_dec n 0) as [Hn0|Hn0].
        { rewrite Hn0 in Hz. discriminate. }
        destruct Hedge as (z' & Hz' & Hh); [exact Hs|lia|lia|].
        destruct (skipn idx iq) as [|y ys] eqn:Hsk.
        { rewrite firstn_nil in Hz. discriminate. }
        apply skipn_head in Hsk. rewrite Hsk in Hz'. injection Hz' as ->.
        destruct n; [lia|]. simpl in Hz. injection Hz as <- _. exact Hh.
      - simpl in Hz. injection Hz as <- _. now apply (Hhead c cs). }
    destruct (Nat.leb_spec (total_frame_size cfg)
                (total_sample_counter st + n)) as [Hfull|Hpart].
    + destruct (calculate_aoa ops cfg s1) as [s2|] eqn:Hcalc;
        [|discriminate].
      destruct (calculate_aoa_fields ops cfg s1 s2 Hcalc)
        as (_ & _ & Ht & Hd).
      simpl. intros E. injection E as <- <-.
      split; [unfold wf_block in *; simpl; congruence|]. split.
      * destruct H1 as (L1 & b1 & c1 & a1 & G1 & G2 & G3 & G4 & G5).
        split; [simpl; lia|].
        exists b1, c1, a1. split; [exact G1|].
        split; [simpl; lia|].
        split; [unfold bins in *; simpl; now rewrite Hd|].
        split; [discriminate|exact G5].
      * intros H. discriminate.
    + intros E. injection E as <- <-.
      split; [exact Hb1|]. split; [exact H1|].
      intros _ Ht Hf. exfalso.
      unfold n, n_process_of in *. lia.
Qed.

Lemma work_loop_holds (cfg : @config F) (prev iq : list (@complex F)) :
  forall fuel st idx st',
    wf_block cfg st ->
    holds_frame ops cfg (prev ++ firstn idx iq) st ->
    edge_next ops cfg iq st idx ->
    work_loop ops fuel cfg iq st idx = Done st' ->
    wf_block cfg st' /\
    holds_frame ops cfg (prev ++ iq) st' /\
    frame_begun cfg st'.
Proof.
  induction fuel as [|fuel IH]; intros st idx st' Hb Hinv Hedge; simpl;
    destruct (Nat.ltb_spec idx (length iq)) as [Hlt|Hge];
    try discriminate.
  - intros E. injection E as <-. split; [exact Hb|]. split.
    + now rewrite firstn_all2 in Hinv.
    + intros Hs Ht. destruct (total_frame_size cfg) as [|k] eqn:Hf;
        [reflexivity|].
      destruct Hedge as (z & Hz & _); [exact Hs|exact Ht|lia|].
      apply nth_error_None in Hge. congruence.
  - destruct (loop_body ops cfg iq st idx) as [[s i]|] eqn:Hbody;
      [|discriminate].
    destruct (loop_body_holds cfg prev iq st idx s i Hb Hinv Hedge Hlt Hbody)
      as (Hb' & Hinv' & Hedge').
    now apply IH.
  - intros E. injection E as <-. split; [exact Hb|]. split.
    + now rewrite firstn_all2 in Hinv.
    + intros Hs Ht. destruct (total_frame_size cfg) as [|k] eqn:Hf;
        [reflexivity|].
      destruct Hedge as (z & Hz & _); [exact Hs|exact Ht|lia|].
      apply nth_error_None in Hge. congruence.
Qed.

Lemma work_seq_holds (cfg : @config F) :
  forall bufs prev st st',
    wf_block cfg st ->
    holds_frame ops cfg prev st ->
    frame_begun cfg st ->
    work_seq ops cfg st bufs = Done st' ->
    wf_block cfg st' /\
    holds_frame ops cfg (prev ++ concat bufs) st' /\
    frame_begun cfg st'.
Proof.
  induction bufs as [|b bs IH]; intros prev st st' Hb Hinv Hbeg; simpl.
  - intros E. injection E as <-. rewrite app_nil_r. auto.
  - unfold work, work_fuel.
    destruct (work_loop ops (3 * length b + 3) cfg b st 0) as [s| |] eqn:Hw;
      try discriminate.
    destruct (work_loop_holds cfg prev b (3 * length b + 3) st 0 s Hb)
      as (Hb' & Hinv' & Hbeg').
    + simpl. now rewrite app_nil_r.
    + intros Hs Ht Hf. specialize (Hbeg Hs Ht). lia.
    + exact Hw.
    + rewrite app_assoc. now apply IH.
Qed.

End Stream.

(** ** The frame held by the bins, call after call *)

Section HeldFrame.

Context {F : Type} (ops : float_ops F).

(** X2.  Calls that all find the memory as [m], on the arrays [ids] one
    after the other, from a new block: the frame position is at most the
    frame size; the samples captured since the last synchronisation are a
    run of the samples fed, as many as the frame position says, which
    starts with a sample at or above the threshold and, while the block
    is capturing, ends with the last sample fed; and every bin shows
    exactly the samples of that run whose frame position lies in its
    window after the settling samples, in order of arrival, never more
    than [samples_per_antenna - settling_samp] of them. *)
Theorem bins_hold_the_frame (m : @Views.memory F) (cfg : @config F)
    (ids : list nat) (st : @Views.block F) :
  Views.work_seq ops cfg (Views.init_block ops cfg)
    (map (fun iq => (m, iq)) ids) = Done st ->
  Views.total_sample_counter st <= total_frame_size cfg /\
  exists before captured after,
    concat (map m ids) = before ++ captured ++ after /\
    length captured = Views.total_sample_counter st /\
    (Views.state st = CAPTURE_FRAME -> after = []) /\
    (forall z rest, captured = z :: rest -> is_high ops cfg z = true) /\
    forall i,
      i < max_antennas cfg ->
      nth_error
        (map (fun chunks => concat (map (Views.read m) chunks))
           (Views.antenna_data st)) i
      = Some (map snd
                (filter (fun qz => in_window cfg i (fst qz))
                   (combine (seq 0 (length captured)) captured))) /\
      length (map snd
                (filter (fun qz => in_window cfg i (fst qz))
                   (combine (seq 0 (length captured)) captured)))
      <= samples_per_antenna cfg - settling_samp cfg.
Proof.
  intros H.
  pose proof (work_seq_shown ops m cfg ids (Views.init_block ops cfg)) as E.
  rewrite H, init_block_shown in E. simpl in E.
  destruct (work_seq_holds ops cfg (map m ids) [] _ _
              (init_block_wf ops cfg) (holds_frame_init ops cfg)
              (fun _ _ => ltac:(discriminate)) E)
    as (_ & (Hle & before & captured & after & Hseen & Hlen & Hbins
             & Hafter & Hhead) & _).
  split; [exact Hle|]. exists before, captured, after.
  split; [exact Hseen|]. split; [exact Hlen|].
  split; [exact Hafter|]. split; [exact Hhead|].
  intros i Hi. split.
  - unfold bins in Hbins. cbn [shown antenna_data] in Hbins.
    rewrite map_map in Hbins. rewrite Hbins. now apply held_bin.
  - fold (window_part cfg i 0 captured).
    rewrite window_part_length. nia.
Qed.

End HeldFrame.

(** ** Buffers that are kept, and a buffer that is used again *)

Section KeptBuffers.

Context {F : Type} (ops : float_ops F).

(** X15.  With at least one sample for each antenna and at least one
    antenna, and as long as the memory stays as it is, cutting does not
    matter: if the array [w] holds the samples of the arrays [ids] one
    after the other, one call on [w] and calls on the arrays of [ids] in
    turn leave the same state, silence counter, frame position and held
    estimate, and bins that show the same samples. *)
Theorem kept_buffers_chunking (m : @Views.memory F) (cfg : @config F)
    (ids : list nat) (w : nat) (st : @Views.block F) :
  1 <= samples_per_antenna cfg ->
  1 <= max_antennas cfg ->
  wf_config cfg ->
  length (Views.antenna_data st) = max_antennas cfg ->
  m w = concat (map m ids) ->
  exists whole out n pieces,
    Views.work ops m cfg st w (m w) = Done (whole, out, n) /\
    Views.work_seq ops cfg st (map (fun iq => (m, iq)) ids) = Done pieces /\
    Views.state pieces = Views.state whole /\
    Views.counter pieces = Views.counter whole /\
    Views.total_sample_counter pieces = Views.total_sample_counter whole /\
    Views.lastAOA pieces = Views.lastAOA whole /\
    map (fun chunks => concat (map (Views.read m) chunks))
      (Views.antenna_data pieces)
    = map (fun chunks => concat (map (Views.read m) chunks))
        (Views.antenna_data whole).
Proof.
  intros Hspa Hmax Hc Hb Hw.
  assert (Hbs : wf_block cfg (shown m st)).
  { unfold wf_block, shown. simpl. now rewrite length_map. }
  destruct (chunking_invariance ops cfg (map m ids) Hspa Hmax Hc
              (shown m st) Hbs)
    as (whole' & out' & n' & pieces' & Ew & Ep & H1 & H2 & H3 & H4 & H5).
  rewrite <- Hw in Ew.
  rewrite work_shown in Ew. rewrite work_seq_shown in Ep.
  destruct (Views.work ops m cfg st w (m w)) as [[[whole out] n]| |];
    try discriminate.
  destruct (Views.work_seq ops cfg st (map (fun iq => (m, iq)) ids))
    as [pieces| |]; try discriminate.
  simpl in Ew, Ep. injection Ew as <- _ _. injection Ep as <-.
  exists whole, out, n, pieces.
  split; [reflexivity|]. split; [reflexivity|].
  repeat split; try assumption.
  cbn [shown antenna_data] in H5. now rewrite !map_map in H5.
Qed.

End KeptBuffers.


(** One array cut in two, all three in memory. *)
Lemma kept_buffers_chunking_witness :
  exists whole out n pieces,
    Views.work R_ops
      (memory_of [[lo; lo; lo; hi; hi; hi]; [lo; lo; lo; hi]; [hi; hi]])
      cfg_two (Views.init_block R_ops cfg_two) 0 [lo; lo; lo; hi; hi; hi]
    = Done (whole, out, n) /\
    Views.work_seq R_ops cfg_two (Views.init_block R_ops cfg_two)
      (map (fun iq =>
              (memory_of
                 [[lo; lo; lo; hi; hi; hi]; [lo; lo; lo; hi]; [hi; hi]],
               iq)) [1; 2])
    = Done pieces /\
    Views.total_sample_counter pieces = Views.total_sample_counter whole /\
    Views.lastAOA pieces = Views.lastAOA whole.
Proof.
  destruct (kept_buffers_chunking R_ops
              (memory_of
                 [[lo; lo; lo; hi; hi; hi]; [lo; lo; lo; hi]; [hi; hi]])
              cfg_two [1; 2] 0 (Views.init_block R_ops cfg_two))
    as (whole & out & n & pieces & Hw & Hp & _ & _ & Ht & Ha & _).
  - cbn. lia.
  - cbn. lia.
  - apply init_config_wf.
  - reflexivity.
  - reflexivity.
  - exists whole, out, n, pieces. repeat split; assumption.
Defined.

(** C2.  The scheduler hands [work] the same array twice, with new
    samples in it the second time.  The frame of [cfg_pair64] starts with
    the second sample of the first call and ends with the first sample of
    the second call.  Fed in one array the four samples give the estimate
    [2 + 0j]; fed in two calls they give [1 + 0j], and a bin that shows
    other samples: when the frame is complete, the view kept from the
    first call shows the sample that has taken the place of the one that
    was captured. *)
Theorem reused_buffer_changes_estimate :
  exists whole pieces,
    Views.work_seq B64_ops cfg_pair64 (Views.init_block B64_ops cfg_pair64)
      [(memory_of [[lo64; hi64; hi64; lo64]], 0)] = Done whole /\
    Views.work_seq B64_ops cfg_pair64 (Views.init_block B64_ops cfg_pair64)
      [(memory_of [[lo64; hi64]], 0); (memory_of [[hi64; lo64]], 0)]
    = Done pieces /\
    Views.lastAOA whole = (Binary64.nearest 2 0, zero64) /\
    Views.lastAOA pieces = (one64, zero64) /\
    Views.lastAOA pieces <> Views.lastAOA whole /\
    Views.state pieces = Views.state whole /\
    Views.counter pieces = Views.counter whole /\
    Views.total_sample_counter pieces = Views.total_sample_counter whole /\
    bins (shown (memory_of [[lo64; hi64; hi64; lo64]]) whole)
    = [[hi64; hi64]] /\
    bins (shown (memory_of [[hi64; lo64]]) pieces) = [[lo64; hi64]].
Proof.
  do 2 eexists.
  split; [vm_compute; reflexivity|].
  split; [vm_compute; reflexivity|].
  split; [reflexivity|].
  split; [reflexivity|].
  split; [cbn [Views.lastAOA]; discriminate|].
  repeat split.
Qed.

(** ** Which frames give an estimate *)

Section Estimates.

Context {F : Type} (ops : float_ops F).

Lemma full_frame_nonempty (cfg : @config F)
    (captured : list (@complex F)) :
  settling_samp cfg < samples_per_antenna cfg ->
  length captured = total_frame_size cfg ->
  Forall (fun b => b <> []) (binned cfg 0 captured (empty_bins cfg)).
Proof.
  intros Hs Hl. apply Forall_forall. intros b Hb.
  destruct (held_bin_inv cfg captured b Hb) as (i & Hi & ->).
  intros E.
  pose proof (full_frame_bin_length cfg captured i Hl Hi) as Hlen.
  rewrite E in Hlen. simpl in Hlen. lia.
Qed.

Lemma settled_bins_empty (cfg : @config F)
    (captured : list (@complex F)) :
  samples_per_antenna cfg <= settling_samp cfg ->
  1 <= max_antennas cfg ->
  Exists (fun b => b = []) (binned cfg 0 captured (empty_bins cfg)).
Proof.
  intros Hs Hm. apply Exists_exists.
  exists (window_part cfg 0 0 captured). split.
  - apply nth_error_In with (n := 0). apply held_bin. lia.
  - apply length_zero_iff_nil. rewrite window_part_length. nia.
Qed.

(** Without antennas the estimator sums nothing. *)
Lemma calculate_aoa_no_antenna (cfg : @config F) (st : @block F) :
  max_antennas cfg = 0 -> wf_block cfg st ->
  calculate_aoa ops cfg st = Some (set_lastAOA st (f0 ops, f0 ops)).
Proof.
  intros Hm Hb. unfold wf_block in Hb. rewrite Hm in Hb.
  apply length_zero_iff_nil in Hb.
  unfold calculate_aoa. rewrite Hb, Hm. reflexivity.
Qed.

Lemma loop_body_settled (cfg : @config F) (iq : list (@complex F))
    (st : @block F) (idx : nat) (st' : @block F) (idx' : nat) :
  samples_per_antenna cfg <= settling_samp cfg ->
  wf_block cfg st -> captured_inv cfg st ->
  lastAOA st = (f0 ops, f0 ops) ->
  loop_body ops cfg iq st idx = Some (st', idx') ->
  lastAOA st' = (f0 ops, f0 ops).
Proof.
  intros Hs Hb Hinv Hz. unfold loop_body. destruct (state st).
  - intros E. injection E as E.
    rewrite <- Hz, <- (search_step_lastAOA ops cfg iq st idx), E.
    reflexivity.
  - destruct (capture_chunk_captured cfg iq st idx Hb Hinv)
      as (st1 & Hch & Hb1 & (_ & captured & _ & Hbins) & Ha & _).
    unfold capture_step. rewrite Hch.
    destruct (_ <=? _).
    + destruct (Nat.eq_dec (max_antennas cfg) 0) as [Hm|Hm].
      * rewrite (calculate_aoa_no_antenna cfg st1 Hm Hb1).
        intros E. injection E as <- _. reflexivity.
      * rewrite (calculate_aoa_empty ops cfg st1).
        -- intros E. injection E as <- _. simpl. congruence.
        -- rewrite Hbins. apply settled_bins_empty; lia.
    + intros E. injection E as <- _. congruence.
Qed.

Lemma work_loop_settled (cfg : @config F) (iq : list (@complex F)) :
  samples_per_antenna cfg <= settling_samp cfg ->
  forall fuel st idx st',
    wf_block cfg st -> captured_inv cfg st ->
    lastAOA st = (f0 ops, f0 ops) ->
    work_loop ops fuel cfg iq st idx = Done st' ->
    lastAOA st' = (f0 ops, f0 ops).
Proof.
  intros Hs.
  induction fuel as [|fuel IH]; intros st idx st' Hb Hinv Hz; simpl;
    destruct (idx <? length iq); try discriminate;
    try (intros E; injection E as <-; assumption).
  destruct (loop_body ops cfg iq st idx) as [[s i]|] eqn:Hbody;
    [|discriminate].
  destruct (loop_body_captured ops cfg iq st idx s i Hb Hinv Hbody).
  apply IH; auto.
  exact (loop_body_settled cfg iq st idx s i Hs Hb Hinv Hz Hbody).
Qed.

(** X3.  When the settling samples cover the whole dwell of an antenna
    ([settling_samp >= samples_per_antenna]) every bin stays empty, so no
    frame ever gives an estimate: after any sequence of calls on a new
    block the held estimate is still [0 + 0j]. *)
Theorem settling_covers_dwell (cfg : @config F)
    (bufs : list (list (@complex F))) (st : @block F) :
  samples_per_antenna cfg <= settling_samp cfg ->
  work_seq ops cfg (init_block ops cfg) bufs = Done st ->
  lastAOA st = (f0 ops, f0 ops).
Proof.
  intros Hs.
  assert (G : forall bs s s',
            wf_block cfg s -> captured_inv cfg s ->
            lastAOA s = (f0 ops, f0 ops) ->
            work_seq ops cfg s bs = Done s' ->
            lastAOA s' = (f0 ops, f0 ops)).
  { induction bs as [|b bs IH]; intros s s' Hb Hinv Hz; simpl.
    - intros E. injection E as <-. exact Hz.
    - unfold work, work_fuel.
      destruct (work_loop ops (3 * length b + 3) cfg b s 0) as [s1| |] eqn:Hw;
        try discriminate.
      destruct (work_loop_captured ops cfg b _ _ _ _ Hb Hinv Hw).
      apply IH; auto.
      exact (work_loop_settled cfg b Hs _ _ _ _ Hb Hinv Hz Hw). }
  apply G.
  - apply init_block_wf.
  - apply captured_inv_init.
  - reflexivity.
Qed.

(** X4.  When at least one sample of each dwell is kept
    ([settling_samp < samples_per_antenna]), the capture iteration that
    brings the frame position to the frame size finds
    [samples_per_antenna - settling_samp] samples in every bin of a block
    reached from a new one; after it the held estimate is the vector sum
    of those bins, the block is searching with the silence counter at 0,
    and the frame position and the bins are as the chunk left them:
    every completed frame gives an estimate. *)
Theorem completed_frame_gives_estimate (cfg : @config F)
    (iq : list (@complex F)) (st : @block F) (idx : nat) :
  wf_config cfg -> wf_block cfg st -> captured_inv cfg st ->
  state st = CAPTURE_FRAME ->
  settling_samp cfg < samples_per_antenna cfg ->
  total_frame_size cfg
  <= total_sample_counter st + n_process_of cfg iq st idx ->
  exists st1 st2,
    capture_chunk cfg iq st idx
    = Some (st1, idx + n_process_of cfg iq st idx) /\
    Forall (fun b => length b
                     = samples_per_antenna cfg - settling_samp cfg)
      (bins st1) /\
    loop_body ops cfg iq st idx
    = Some (st2, idx + n_process_of cfg iq st idx) /\
    lastAOA st2
    = vector_sum ops (map (magnitude_sum ops) (bins st1))
        (antenna_angles cfg) /\
    state st2 = SEARCH_RFX /\
    counter st2 = 0 /\
    total_sample_counter st2 = total_sample_counter st1 /\
    antenna_data st2 = antenna_data st1.
Proof.
  intros Hc Hb Hinv Hstate Hs Hfull.
  destruct (capture_chunk_captured cfg iq st idx Hb Hinv)
    as (st1 & Hch & Hb1 & (Hle & captured & Hlen & Hbins) & _ & Ht).
  assert (Hl : length captured = total_frame_size cfg) by lia.
  exists st1. eexists. split; [exact Hch|]. split.
  - rewrite Hbins. apply Forall_forall. intros b Hin.
    destruct (held_bin_inv cfg captured b Hin) as (i & Hi & ->).
    now apply full_frame_bin_length.
  - split.
    + unfold loop_body, capture_step. rewrite Hstate, Hch.
      replace (total_frame_size cfg <=? total_sample_counter st1) with true
        by (symmetry; apply Nat.leb_le; lia).
      rewrite (calculate_aoa_vector_sum ops cfg st1 Hc Hb1); [reflexivity|].
      rewrite Hbins. now apply full_frame_nonempty.
    + repeat split.
Qed.

(** X5.  One whole cycle on a new block: a silence of at least
    [rfx_gap_threshold] samples followed by the [total_frame_size] samples
    of a frame whose first sample is at or above the threshold.  The call
    returns with the block searching again, the silence counter at 0, the
    frame position at the frame size, the bins holding the frame without
    its settling samples, and the held estimate equal to their vector
    sum. *)
Theorem silence_then_frame (cfg : @config F)
    (gap : list (@complex F)) (edge : @complex F)
    (rest out : list (@complex F)) :
  wf_config cfg ->
  1 <= max_antennas cfg ->
  settling_samp cfg < samples_per_antenna cfg ->
  Forall (fun z => is_high ops cfg z = false) gap ->
  rfx_gap_threshold cfg <= length gap ->
  is_high ops cfg edge = true ->
  length (edge :: rest) = total_frame_size cfg ->
  exists st,
    work ops cfg (init_block ops cfg) (gap ++ edge :: rest) out
    = Done (st, repeat (f0 ops, f0 ops) (length out), length out) /\
    state st = SEARCH_RFX /\
    counter st = 0 /\
    total_sample_counter st = total_frame_size cfg /\
    bins st = binned cfg 0 (edge :: rest) (empty_bins cfg) /\
    lastAOA st
    = vector_sum ops (map (magnitude_sum ops) (bins st)) (antenna_angles cfg).
Proof.
  intros Hc Hm Hs Hgap Hthr He Hlen.
  set (iq := gap ++ edge :: rest).
  set (st0 := init_block ops cfg).
  assert (Hf : 1 <= total_frame_size cfg).
  { unfold total_frame_size. nia. }
  destruct (work_done ops cfg st0 iq out Hf Hc (init_block_wf ops cfg))
    as (st & Hw & _ & Hrel & _).
  (* the search iteration *)
  set (st1 := {| state := CAPTURE_FRAME;
                 counter := 0;
                 total_sample_counter := 0;
                 lastAOA := lastAOA st0;
                 antenna_data := reset_arrays cfg |}).
  assert (H1 : loop_body ops cfg iq st0 0 = Some (st1, length gap)).
  { unfold loop_body. simpl state.
    rewrite (search_step_view_edge ops cfg iq st0 0 gap edge rest
               eq_refl Hgap He).
    simpl counter.
    replace (rfx_gap_threshold cfg <=? 0 + length gap) with true
      by (symmetry; apply Nat.leb_le; lia).
    reflexivity. }
  (* the capture iteration *)
  assert (Hb1 : wf_block cfg st1) by apply reset_arrays_wf.
  assert (Hinv1 : captured_inv cfg st1).
  { split; [simpl; lia|]. exists []. split; [reflexivity|].
    rewrite binned_nil. now apply bins_reset. }
  assert (Hn : n_process_of cfg iq st1 (length gap) = total_frame_size cfg).
  { unfold n_process_of, iq. rewrite length_app. simpl in *. lia. }
  destruct (capture_chunk_captured cfg iq st1 (length gap) Hb1 Hinv1)
    as (st2 & Hch & Hb2 & _ & Ha2 & Ht2).
  destruct (capture_chunk_spec cfg iq st1 (length gap) Hb1)
    as (st2' & Hch' & _ & _ & _ & _ & _ & Hbins2).
  rewrite Hch in Hch'. injection Hch' as <-.
  rewrite Hn in *.
  assert (Hchunk : firstn (total_frame_size cfg) (skipn (length gap) iq)
                   = edge :: rest).
  { unfold iq. rewrite skipn_length_app, <- Hlen. apply firstn_all. }
  rewrite Hchunk in Hbins2.
  rewrite (bins_reset cfg st1 eq_refl) in Hbins2. simpl in Hbins2.
  assert (Hne : Forall (fun b => b <> []) (bins st2)).
  { rewrite Hbins2. now apply full_frame_nonempty. }
  pose proof (calculate_aoa_vector_sum ops cfg st2 Hc Hb2 Hne) as Hcalc.
  set (st3 := finish_frame
                (set_lastAOA st2
                   (vector_sum ops (map (magnitude_sum ops) (bins st2))
                      (antenna_angles cfg)))).
  assert (H2 : loop_body ops cfg iq st1 (length gap)
               = Some (st3, length gap + total_frame_size cfg)).
  { unfold loop_body, capture_step. simpl state. rewrite Hch.
    replace (total_frame_size cfg <=? total_sample_counter st2) with true
      by (symmetry; apply Nat.leb_le; simpl in Ht2; lia).
    rewrite Hcalc. reflexivity. }
  assert (Hliq : length iq = length gap + total_frame_size cfg).
  { unfold iq. rewrite length_app. lia. }
  assert (Hrel' : loop_rel ops cfg iq st0 0 st3).
  { eapply loop_iter; [lia|exact H1|].
    eapply loop_iter; [lia|exact H2|].
    apply loop_exit. lia. }
  assert (st = st3) by (eapply loop_rel_det; eauto). subst st.
  exists st3. split.
  { rewrite Hw. unfold st0. cbn [lastAOA init_block].
    now rewrite to_complex64_zero. }
  repeat split.
  - simpl. simpl in Ht2. lia.
  - exact Hbins2.
Qed.

End Estimates.

(** ** Worked inputs for the properties above *)

Lemma synced_captured (cfg : @config R) : captured_inv cfg (synced cfg).
Proof.
  split; [simpl; lia|]. exists []. split; [reflexivity|].
  rewrite binned_nil. now apply bins_reset.
Qed.

(** A silence, a rising edge and the first samples of a frame, in two
    calls on two arrays. *)
Lemma bins_hold_the_frame_witness :
  exists st,
    Views.work_seq R_ops cfg_two (Views.init_block R_ops cfg_two)
      (map (fun iq => (memory_of [[lo; lo; lo; hi]; [hi; hi]], iq)) [0; 1])
    = Done st /\
    Views.total_sample_counter st <= total_frame_size cfg_two /\
    exists before captured after,
      concat (map (memory_of [[lo; lo; lo; hi]; [hi; hi]]) [0; 1])
      = before ++ captured ++ after /\
      length captured = Views.total_sample_counter st /\
      (Views.state st = CAPTURE_FRAME -> after = []) /\
      (forall z rest, captured = z :: rest -> is_high R_ops cfg_two z = true)
      /\
      forall i,
        i < max_antennas cfg_two ->
        nth_error
          (map (fun chunks =>
                  concat
                    (map (Views.read
                            (memory_of [[lo; lo; lo; hi]; [hi; hi]]))
                       chunks))
             (Views.antenna_data st)) i
        = Some (map snd
                  (filter (fun qz => in_window cfg_two i (fst qz))
                     (combine (seq 0 (length captured)) captured))) /\
        length (map snd
                  (filter (fun qz => in_window cfg_two i (fst qz))
                     (combine (seq 0 (length captured)) captured)))
        <= samples_per_antenna cfg_two - settling_samp cfg_two.
Proof.
  assert (E : exists st,
             Views.work_seq R_ops cfg_two (Views.init_block R_ops cfg_two)
               (map (fun iq => (memory_of [[lo; lo; lo; hi]; [hi; hi]], iq))
                  [0; 1])
             = Done st).
  { eexists. cbv [map]. vrun. reflexivity. }
  destruct E as [st E]. exists st. split; [exact E|].
  exact (bins_hold_the_frame R_ops
           (memory_of [[lo; lo; lo; hi]; [hi; hi]]) cfg_two [0; 1] st E).
Defined.

(** The only sample of each dwell of [cfg_settle] is a settling sample. *)
Lemma settling_covers_dwell_witness :
  exists st,
    work_seq R_ops cfg_settle (init_block R_ops cfg_settle) [[hi]; [lo]]
    = Done st /\
    lastAOA st = (0%R, 0%R).
Proof.
  assert (E : exists st,
             work_seq R_ops cfg_settle (init_block R_ops cfg_settle)
               [[hi]; [lo]] = Done st).
  { eexists. cbv [work_seq]. run. reflexivity. }
  destruct E as [st E]. exists st. split; [exact E|].
  apply (settling_covers_dwell R_ops cfg_settle [[hi]; [lo]] st);
    [cbn; lia|exact E].
Defined.

(** The one-sample frame of [cfg_one]. *)
Lemma completed_frame_gives_estimate_witness :
  exists st1 st2,
    capture_chunk cfg_one [hi] (synced cfg_one) 0 = Some (st1, 1) /\
    Forall (fun b => length b = 1) (bins st1) /\
    loop_body R_ops cfg_one [hi] (synced cfg_one) 0 = Some (st2, 1) /\
    lastAOA st2
    = vector_sum R_ops (map (magnitude_sum R_ops) (bins st1))
        (antenna_angles cfg_one) /\
    state st2 = SEARCH_RFX.
Proof.
  destruct (completed_frame_gives_estimate R_ops cfg_one [hi]
              (synced cfg_one) 0 (init_config_wf 1 0 1 1%R 0%R) eq_refl
              (synced_captured cfg_one) eq_refl)
    as (st1 & st2 & Hc & Hl & Hbody & Ha & Hs & _).
  - cbn. lia.
  - cbn. lia.
  - exists st1, st2. repeat split; assumption.
Defined.

(** Three samples of silence and a frame of [cfg_two]. *)
Lemma silence_then_frame_witness :
  exists st,
    work R_ops cfg_two (init_block R_ops cfg_two)
      ([lo; lo; lo] ++ hi :: [lo; hi; hi; hi; hi; lo; hi]) []
    = Done (st, [], 0) /\
    state st = SEARCH_RFX /\
    bins st = [[lo; hi; hi]; [hi; lo; hi]].
Proof.
  destruct (silence_then_frame R_ops cfg_two [lo; lo; lo] hi
              [lo; hi; hi; hi; hi; lo; hi] []
              (init_config_wf 4 1 2 1%R 0%R))
    as (st & Hw & Hs & _ & _ & Hb & _).
  - cbn. lia.
  - cbn. lia.
  - exact (low_run cfg_two 3 eq_refl).
  - cbn. lia.
  - exact (is_high_hi cfg_two eq_refl).
  - reflexivity.
  - exists st. split; [exact Hw|]. split; [exact Hs|].
    rewrite Hb. reflexivity.
Defined.

(** ** Properties of the switch driver *)

Module DriverFacts.

Import Stdlib.Strings.String Stdlib.Strings.Ascii.
Import Driver.

Section AnyPort.

Context {D : Type} (api : serial_api D).

(** X8.  [send_command] lets an exception out exactly when the port is
    there and open and [reset_input_buffer], which is called before the
    [try] block, raises it; what [write] and [readline] raise and the
    failures of the ascii codec never leave the method. *)
Theorem send_command_raises_iff (self : @driver D) (cmd : string) (e : exn) :
  raised (send_command api self cmd) = Some e <->
  exists d,
    ser self = Some d /\
    is_open api d = true /\
    fst (reset_input_buffer api d) = Some e.
Proof.
  unfold send_command.
  destruct (ser self) as [d|]; cbn [raised].
  2:{ split; [discriminate|]. intros (d & H & _). discriminate. }
  destruct (is_open api d) eqn:Ho.
  2:{ split; [discriminate|].
      intros (d' & H & Ho' & _). injection H as <-. congruence. }
  destruct (reset_input_buffer api d) as [[e1|] d1] eqn:Hr.
  - cbn [raised]. split.
    + intros E. exists d. rewrite Hr. auto.
    + intros (d' & H & _ & He). injection H as <-.
      rewrite Hr in He. exact He.
  - assert (Hno : forall r : @reply D,
               raised r = None ->
               (raised r = Some e <->
                exists d0, Some d = Some d0 /\ is_open api d0 = true /\
                           fst (reset_input_buffer api d0) = Some e)).
    { intros r Hn. rewrite Hn. split; [discriminate|].
      intros (d' & H & _ & He). injection H as <-.
      rewrite Hr in He. discriminate. }
    apply Hno.
    destruct (ascii_codec (cmd ++ newline)) as [data|]; [|reflexivity].
    destruct (write api d1 data) as [[e2|] d2]; [reflexivity|].
    destruct (readline api d2) as [[e3|line] d3]; [reflexivity|].
    destruct line; [reflexivity|].
    destruct (ascii_codec _); [|reflexivity].
    destruct (String.eqb _ _); reflexivity.
Qed.

(** X9.  The calls [send_command] makes on the port are, in this order,
    [reset_input_buffer], [write] of the command followed by a newline,
    and [readline], or the first of them up to the one that fails; on a
    driver without a port or with a closed port it makes none, prints
    nothing and leaves the driver as it is. *)
Theorem send_command_calls (self : @driver D) (cmd : string) :
  (exists k,
      filter is_call (trace (send_command api self cmd))
      = firstn k [CallReset; CallWrite (cmd ++ newline); CallReadline]) /\
  ((ser self = None \/
    exists d, ser self = Some d /\ is_open api d = false) ->
   send_command api self cmd
   = {| raised := None; self' := self; trace := [] |}).
Proof.
  unfold send_command. split.
  - destruct (ser self) as [d|]; [|exists 0; reflexivity].
    destruct (is_open api d); [|exists 0; reflexivity].
    destruct (reset_input_buffer api d) as [[e1|] d1];
      [exists 1; reflexivity|].
    unfold ascii_codec at 1.
    destruct (forallb is_ascii _); [|exists 1; reflexivity].
    destruct (write api d1 _) as [[e2|] d2]; [exists 2; reflexivity|].
    destruct (readline api d2) as [[e3|line] d3]; [exists 3; reflexivity|].
    destruct line; [exists 3; reflexivity|].
    destruct (ascii_codec _); [|exists 3; reflexivity].
    destruct (String.eqb _ _); exists 3; reflexivity.
  - intros [H|(d & H & Ho)]; rewrite H; [reflexivity|].
    rewrite Ho. reflexivity.
Qed.

Lemma send_command_keeps_port (self : @driver D) (cmd : string) (d : D) :
  ser self = Some d ->
  exists d', ser (self' (send_command api self cmd)) = Some d'.
Proof.
  intros H. unfold send_command. rewrite H.
  destruct (is_open api d); [|cbn; eauto].
  destruct (reset_input_buffer api d) as [[e1|] d1]; [cbn; eauto|].
  destruct (ascii_codec (cmd ++ newline)) as [data|]; [|cbn; eauto].
  destruct (write api d1 data) as [[e2|] d2]; [cbn; eauto|].
  destruct (readline api d2) as [[e3|line] d3]; [cbn; eauto|].
  destruct line; [cbn; eauto|].
  destruct (ascii_codec _); [|cbn; eauto].
  destruct (String.eqb _ _); cbn; eauto.
Qed.

(** X10.  [close] drops whatever the stop command raises: it lets an
    exception out only when [close] of the port raises it.  When it
    returns the port has been closed, and if a closed port reports that it
    is not open, no later command of the driver reaches the port. *)
Theorem close_then_silent (self : @driver D) :
  (forall d d',
      close_port api d = (None, d') -> is_open api d' = false) ->
  (forall e,
      raised (close api self) = Some e ->
      exists d, fst (close_port api d) = Some e /\
                last (trace (close api self)) (Print Connected) = CallClose) /\
  (raised (close api self) = None ->
   forall cmd,
     send_command api (self' (close api self)) cmd
     = {| raised := None; self' := self' (close api self); trace := [] |}).
Proof.
  intros Hcontract. unfold close.
  destruct (ser self) as [d|] eqn:Hs.
  2:{ cbn. split; [discriminate|]. intros _ cmd.
      unfold send_command. rewrite Hs. reflexivity. }
  destruct (send_command_keeps_port self "RFX" d Hs) as [d1 Hd1].
  unfold stop_cycle. rewrite Hd1.
  destruct (close_port api d1) as [[e1|] d2] eqn:Hc; cbn [raised self' trace].
  - split; [|discriminate]. intros e E. injection E as <-.
    exists d1. rewrite Hc. split; [reflexivity|].
    apply last_last.
  - split; [discriminate|]. intros _ cmd.
    unfold send_command. cbn [ser set_ser].
    rewrite (Hcontract d1 d2 Hc). reflexivity.
Qed.

(** X11.  When the port cannot be opened the constructor of [switch_sync]
    still goes through: the driver is kept without a port, the failure is
    printed, and no command is written.  With an empty [serial_port] there
    is no driver and nothing is done. *)
Theorem init_hardware_without_port (serial_port : string) (baud_rate : Z)
    (dwell_us : Z) :
  (serial_port = EmptyString ->
   init_hardware api serial_port baud_rate dwell_us = (None, None, [])) /\
  (forall e,
      serial_port <> EmptyString ->
      Serial api serial_port baud_rate = inl e ->
      init_hardware api serial_port baud_rate dwell_us
      = (None,
         Some {| port := serial_port; baud := baud_rate; ser := None |},
         [Print (Connecting serial_port baud_rate);
          CallSerial serial_port baud_rate;
          Print (CouldNotConnect e);
          Print HardwareNotFound])).
Proof.
  split.
  - intros ->. reflexivity.
  - intros e Hne He. unfold init_hardware.
    destruct serial_port as [|c s]; [congruence|].
    unfold new_driver, _connect. cbn [port baud]. rewrite He.
    reflexivity.
Qed.

End AnyPort.

(** *** Characters and strings *)

Lemma is_space_upper (c : ascii) : is_space (upper_char c) = is_space c.
Proof.
  destruct c as [[] [] [] [] [] [] [] []]; reflexivity.
Qed.

Lemma is_ascii_upper (c : ascii) : is_ascii (upper_char c) = is_ascii c.
Proof.
  destruct c as [[] [] [] [] [] [] [] []]; reflexivity.
Qed.

Lemma is_space_ascii (c : ascii) : is_space c = true -> is_ascii c = true.
Proof.
  destruct c as [[] [] [] [] [] [] [] []]; intros H;
    try reflexivity; discriminate.
Qed.

Lemma list_of_append (s1 s2 : string) :
  list_ascii_of_string (s1 ++ s2)
  = (list_ascii_of_string s1 ++ list_ascii_of_string s2)%list.
Proof.
  induction s1 as [|c s1 IH]; simpl.
  - reflexivity.
  - now rewrite IH.
Qed.

Lemma lstrip_spaces (ws l : list ascii) :
  forallb is_space ws = true -> lstrip (ws ++ l) = lstrip l.
Proof.
  induction ws as [|c ws IH]; simpl; intros H.
  - reflexivity.
  - apply andb_true_iff in H as [Hc Hws]. rewrite Hc. now apply IH.
Qed.

Lemma lstrip_spaces_only (ws : list ascii) :
  forallb is_space ws = true -> lstrip ws = [].
Proof.
  intros H. rewrite <- (app_nil_r ws). now rewrite lstrip_spaces.
Qed.

Lemma lstrip_length (l : list ascii) :
  List.length (lstrip l) <= List.length l.
Proof.
  induction l as [|a l IH]; simpl; [lia|].
  destruct (is_space a); simpl; lia.
Qed.

Lemma lstrip_fixed_app (l m : list ascii) :
  l <> [] -> lstrip l = l -> lstrip (l ++ m) = (l ++ m)%list.
Proof.
  destruct l as [|c l]; [congruence|]. simpl. intros _.
  destruct (is_space c) eqn:Hc; [|reflexivity].
  intros H.
  pose proof (lstrip_length l) as Hl.
  rewrite H in Hl. simpl in Hl. lia.
Qed.

Lemma forallb_reverse {A : Type} (f : A -> bool) (l : list A) :
  forallb f (rev l) = forallb f l.
Proof.
  induction l as [|a l IH]; simpl; [reflexivity|].
  rewrite forallb_app, IH. simpl.
  rewrite andb_true_r. apply andb_comm.
Qed.

(** Text without white space at either end, between two runs of white
    space: [strip] gives the text. *)
Lemma strip_surrounded (ws1 l ws2 : list ascii) :
  forallb is_space ws1 = true ->
  forallb is_space ws2 = true ->
  l <> [] -> lstrip l = l -> lstrip (rev l) = rev l ->
  rev (lstrip (rev (lstrip (ws1 ++ l ++ ws2)))) = l.
Proof.
  intros H1 H2 Hne Hl Hr.
  rewrite lstrip_spaces by exact H1.
  rewrite lstrip_fixed_app by assumption.
  rewrite rev_app_distr, lstrip_spaces by (now rewrite forallb_reverse).
  rewrite Hr. apply rev_involutive.
Qed.

Lemma lstrip_head (c : ascii) (l : list ascii) :
  is_space c = false -> lstrip (c :: l) = c :: l.
Proof. intros H. simpl. now rewrite H. Qed.

(** Text that agrees with [expected] up to the case of its letters begins
    and ends without white space when [expected] does. *)
Lemma same_upper_head (la le : list ascii) :
  map upper_char la = map upper_char le ->
  le <> [] -> lstrip le = le ->
  la <> [] /\ lstrip la = la.
Proof.
  destruct le as [|c le]; [congruence|].
  destruct la as [|a la]; [discriminate|].
  intros E _ Hl. injection E as Ea _.
  split; [discriminate|].
  apply lstrip_head.
  rewrite <- is_space_upper, Ea, is_space_upper.
  simpl in Hl. destruct (is_space c) eqn:Hc; [|reflexivity].
  exfalso.
  pose proof (lstrip_length le) as Hlen.
  rewrite Hl in Hlen. simpl in Hlen. lia.
Qed.

Lemma forallb_same_upper (la le : list ascii) :
  map upper_char la = map upper_char le ->
  forallb is_ascii le = true -> forallb is_ascii la = true.
Proof.
  revert le. induction la as [|a la IH]; intros [|c le] E H;
    try discriminate; [reflexivity|].
  injection E as Ea E. simpl in *.
  apply andb_true_iff in H as [Hc Hle].
  rewrite <- is_ascii_upper, Ea, is_ascii_upper, Hc.
  now apply (IH le).
Qed.

Lemma forallb_space_ascii (ws : list ascii) :
  forallb is_space ws = true -> forallb is_ascii ws = true.
Proof.
  induction ws as [|c ws IH]; simpl; intros H; [reflexivity|].
  apply andb_true_iff in H as [Hc Hws].
  rewrite (is_space_ascii c Hc). now apply IH.
Qed.

(** The decimal digits of an integer, and its sign, are below 128. *)
Lemma digits_ascii (d : Decimal.uint) :
  forallb is_ascii
    (list_ascii_of_string (DecimalString.NilEmpty.string_of_uint d)) = true.
Proof.
  induction d; simpl; auto.
Qed.

Lemma str_of_int_ascii (n : Z) :
  forallb is_ascii (list_ascii_of_string (str_of_int n)) = true.
Proof.
  unfold str_of_int, DecimalString.NilZero.string_of_int,
    DecimalString.NilZero.string_of_uint.
  destruct (Z.to_int n) as [d|d]; simpl.
  - destruct d; try apply digits_ascii. reflexivity.
  - destruct d; try apply digits_ascii. reflexivity.
Qed.

Lemma dwell_command_ascii (n : Z) :
  ascii_codec (("T" ++ str_of_int n) ++ newline)
  = Some (("T" ++ str_of_int n) ++ newline)%string.
Proof.
  unfold ascii_codec.
  rewrite !list_of_append, !forallb_app, str_of_int_ascii. reflexivity.
Qed.

Section AnyPortAck.

Context {D : Type} (api : serial_api D).

(** X12.  The acknowledgment is compared without regard to the case of
    letters or to white space around it: when the port answers a command
    that does not begin with white space with a line that holds
    [cmd ++ " set"] in any mix of upper and lower case, with any white
    space (a carriage return and a newline, say) before and after it,
    [send_command] prints no warning. *)
Theorem acknowledgment_accepted (self : @driver D) (cmd : string)
    (d d1 d2 d3 : D) (ws1 ack ws2 : string) :
  ser self = Some d ->
  is_open api d = true ->
  reset_input_buffer api d = (None, d1) ->
  ascii_codec (cmd ++ newline) = Some (cmd ++ newline)%string ->
  write api d1 (cmd ++ newline) = (None, d2) ->
  readline api d2 = (inr (ws1 ++ ack ++ ws2)%string, d3) ->
  forallb is_space (list_ascii_of_string ws1) = true ->
  forallb is_space (list_ascii_of_string ws2) = true ->
  upper ack = upper (cmd ++ " set") ->
  cmd <> EmptyString ->
  lstrip (list_ascii_of_string cmd) = list_ascii_of_string cmd ->
  send_command api self cmd
  = {| raised := None;
       self' := set_ser self (Some d3);
       trace := [CallReset; CallWrite (cmd ++ newline); CallReadline] |}.
Proof.
  intros Hs Ho Hr Hcodec Hw Hrl Hws1 Hws2 Hup Hne Hcmd.
  set (la := list_ascii_of_string ack).
  set (le := list_ascii_of_string (cmd ++ " set")).
  assert (Hmap : map upper_char la = map upper_char le).
  { unfold upper in Hup.
    apply (f_equal list_ascii_of_string) in Hup.
    now rewrite !list_ascii_of_string_of_list_ascii in Hup. }
  assert (Hle : le = (list_ascii_of_string cmd
                      ++ list_ascii_of_string " set")%list)
    by apply list_of_append.
  assert (Hcne : list_ascii_of_string cmd <> []).
  { destruct cmd; [congruence|discriminate]. }
  assert (Hle_ne : le <> []).
  { rewrite Hle. destruct (list_ascii_of_string cmd); [congruence|].
    discriminate. }
  assert (Hle_l : lstrip le = le).
  { rewrite Hle. now apply lstrip_fixed_app. }
  destruct (same_upper_head la le Hmap Hle_ne Hle_l) as [Hla_ne Hla_l].
  assert (Hla_r : lstrip (rev la) = rev la).
  { assert (Hrne : rev le <> []).
    { intros E. apply (f_equal (@rev ascii)) in E.
      rewrite rev_involutive in E. simpl in E. congruence. }
    assert (Hrl' : lstrip (rev le) = rev le).
    { rewrite Hle, rev_app_distr. reflexivity. }
    apply (same_upper_head (rev la) (rev le)); auto.
    now rewrite !map_rev, Hmap. }
  assert (Hascii_le : forallb is_ascii le = true).
  { unfold ascii_codec in Hcodec.
    destruct (forallb is_ascii (list_ascii_of_string (cmd ++ newline)))
      eqn:E; [|discriminate].
    rewrite list_of_append, forallb_app in E.
    apply andb_true_iff in E as [E _].
    rewrite Hle, forallb_app, E. reflexivity. }
  assert (Hline : list_ascii_of_string (ws1 ++ ack ++ ws2)
                  = (list_ascii_of_string ws1 ++ la
                     ++ list_ascii_of_string ws2)%list).
  { now rewrite !list_of_append. }
  assert (Hascii : ascii_codec (ws1 ++ ack ++ ws2)
                   = Some (ws1 ++ ack ++ ws2)%string).
  { unfold ascii_codec. rewrite Hline, !forallb_app.
    rewrite (forallb_space_ascii _ Hws1), (forallb_space_ascii _ Hws2).
    rewrite (forallb_same_upper la le Hmap Hascii_le). reflexivity. }
  assert (Hstrip : strip (ws1 ++ ack ++ ws2) = ack).
  { unfold strip. rewrite Hline.
    rewrite (strip_surrounded _ la _ Hws1 Hws2 Hla_ne Hla_l Hla_r).
    apply string_of_list_ascii_of_string. }
  assert (Hline_ne : (ws1 ++ ack ++ ws2)%string <> EmptyString).
  { intros E. apply (f_equal list_ascii_of_string) in E.
    rewrite Hline in E. simpl in E.
    destruct (list_ascii_of_string ws1); [|discriminate].
    destruct la; [congruence|discriminate]. }
  unfold send_command. rewrite Hs, Ho, Hr, Hcodec, Hw, Hrl.
  destruct (ws1 ++ ack ++ ws2)%string as [|c s] eqn:El; [congruence|].
  rewrite Hascii, Hstrip, Hup, String.eqb_refl. reflexivity.
Qed.

End AnyPortAck.

(** *** On a port that works *)

Section OnLink.

Variable script : list string.

(** A command that the ascii codec accepts, on an open link. *)
Lemma send_command_link (self : @driver link) (cmd : string) (d : link) :
  ser self = Some d ->
  link_open d = true ->
  ascii_codec (cmd ++ newline) = Some (cmd ++ newline)%string ->
  exists d',
    raised (send_command (link_api script) self cmd) = None /\
    self' (send_command (link_api script) self cmd)
    = set_ser self (Some d') /\
    link_open d' = true /\
    sent d' = (sent d ++ [(cmd ++ newline)%string])%list /\
    filter is_call (trace (send_command (link_api script) self cmd))
    = [CallReset; CallWrite (cmd ++ newline); CallReadline].
Proof.
  intros Hs Ho Hc. unfold send_command.
  rewrite Hs. cbn [is_open link_api reset_input_buffer write readline].
  rewrite Ho, Hc. cbn [replies link_open sent].
  destruct (replies d) as [|[|c r] rs]; cbv beta iota zeta.
  - eexists. cbn. repeat split; auto.
  - eexists. cbn. repeat split; auto.
  - destruct (ascii_codec (String c r)).
    + destruct (String.eqb _ _); eexists; cbn; repeat split; auto.
    + eexists. cbn. repeat split; auto.
Qed.

(** X13.  On a port that works, whatever the switch answers (nothing, a
    wrong line, bytes that are not ascii), the constructor of
    [switch_sync] with a [serial_port] raises nothing and writes exactly
    two commands, [T] followed by the dwell time in decimal and then
    [CYCLE], each ended by a newline. *)
Theorem init_hardware_sends_both (serial_port : string) (baud_rate : Z)
    (dwell_us : Z) :
  serial_port <> EmptyString ->
  exists drv d ev,
    init_hardware (link_api script) serial_port baud_rate dwell_us
    = (None, Some drv, ev) /\
    ser drv = Some d /\
    link_open d = true /\
    sent d = [(("T" ++ str_of_int dwell_us) ++ newline)%string;
              ("CYCLE" ++ newline)%string] /\
    filter is_call ev
    = [CallSerial serial_port baud_rate;
       CallReset;
       CallWrite (("T" ++ str_of_int dwell_us) ++ newline);
       CallReadline;
       CallReset;
       CallWrite ("CYCLE" ++ newline);
       CallReadline].
Proof.
  intros Hne. unfold init_hardware.
  destruct serial_port as [|c s] eqn:Ep; [congruence|]. rewrite <- Ep.
  cbn [new_driver _connect Serial link_api port baud].
  set (d0 := {| link_open := true; replies := script; sent := [] |}).
  set (drv0 := set_ser {| port := serial_port; baud := baud_rate;
                          ser := None |} (Some d0)).
  unfold set_dwell_time.
  destruct (send_command_link drv0 ("T" ++ str_of_int dwell_us) d0
              eq_refl eq_refl (dwell_command_ascii dwell_us))
    as (d1 & Hr1 & Hs1 & Ho1 & Hsent1 & Hc1).
  rewrite Hr1, Hs1. unfold start_cycle.
  destruct (send_command_link (set_ser drv0 (Some d1)) "CYCLE" d1
              eq_refl Ho1 eq_refl)
    as (d2 & Hr2 & Hs2 & Ho2 & Hsent2 & Hc2).
  rewrite Hr2, Hs2.
  eexists _, d2, _. split; [reflexivity|].
  split; [reflexivity|]. split; [exact Ho2|]. split.
  - rewrite Hsent2, Hsent1. reflexivity.
  - rewrite !filter_app, Hc1, Hc2. reflexivity.
Qed.

(** The constructor on a working link: the driver it leaves. *)
Lemma init_hardware_sends_both_aux (serial_port : string) (baud_rate : Z)
    (dwell_us : Z) :
  serial_port <> EmptyString ->
  exists drv d ev,
    init_hardware (link_api script) serial_port baud_rate dwell_us
    = (None, Some drv, ev) /\
    ser drv = Some d /\
    link_open d = true /\
    sent d = [(("T" ++ str_of_int dwell_us) ++ newline)%string;
              ("CYCLE" ++ newline)%string].
Proof.
  intros Hne. unfold init_hardware.
  destruct serial_port as [|c s] eqn:Ep; [congruence|]. rewrite <- Ep.
  cbn [new_driver _connect Serial link_api port baud].
  set (d0 := {| link_open := true; replies := script; sent := [] |}).
  set (drv0 := set_ser {| port := serial_port; baud := baud_rate;
                          ser := None |} (Some d0)).
  unfold set_dwell_time.
  destruct (send_command_link drv0 ("T" ++ str_of_int dwell_us) d0
              eq_refl eq_refl (dwell_command_ascii dwell_us))
    as (d1 & Hr1 & Hs1 & Ho1 & Hsent1 & _).
  rewrite Hr1, Hs1. unfold start_cycle.
  destruct (send_command_link (set_ser drv0 (Some d1)) "CYCLE" d1
              eq_refl Ho1 eq_refl)
    as (d2 & Hr2 & Hs2 & Ho2 & Hsent2 & _).
  rewrite Hr2, Hs2.
  eexists _, d2, _. split; [reflexivity|].
  split; [reflexivity|]. split; [exact Ho2|].
  rewrite Hsent2, Hsent1. reflexivity.
Qed.

(** X14.  On a port that works, [stop] after the constructor returns
    [True]; the last command written is [RFX], after which the port is
    closed: three commands in all have been written, in the order dwell
    time, [CYCLE], [RFX]. *)
Theorem stop_after_init (serial_port : string) (baud_rate : Z)
    (dwell_us : Z) :
  serial_port <> EmptyString ->
  exists arduino drv d ev1 ev2,
    init_hardware (link_api script) serial_port baud_rate dwell_us
    = (None, arduino, ev1) /\
    stop (link_api script) arduino = (inr true, Some drv, ev2) /\
    ser drv = Some d /\
    link_open d = false /\
    sent d = [(("T" ++ str_of_int dwell_us) ++ newline)%string;
              ("CYCLE" ++ newline)%string;
              ("RFX" ++ newline)%string] /\
    filter is_call ev2
    = [CallReset; CallWrite ("RFX" ++ newline); CallReadline; CallClose].
Proof.
  intros Hne.
  destruct (init_hardware_sends_both_aux serial_port baud_rate dwell_us Hne)
    as (drv & d & ev & Hi & Hs & Ho & Hsent).
  destruct (send_command_link drv "RFX" d Hs Ho eq_refl)
    as (d1 & Hr1 & Hs1 & Ho1 & Hsent1 & Hc1).
  exists (Some drv). eexists _, _, ev, _.
  split; [exact Hi|].
  unfold stop, close. rewrite Hs. unfold stop_cycle. rewrite Hs1.
  cbn [ser set_ser close_port link_api raised trace self'].
  split; [reflexivity|]. split; [reflexivity|].
  cbn [link_open sent]. split; [reflexivity|]. split.
  - rewrite Hsent1, Hsent. reflexivity.
  - rewrite filter_app, Hc1. reflexivity.
Qed.

End OnLink.

(** *** Worked inputs *)

(** An answer that is not the acknowledgment is reported and nothing
    else happens. *)
Example wrong_answer_warns :
  send_command (link_api []) (on_link [("T45 set" ++ crlf)%string]) "RFX"
  = {| raised := None;
       self' := set_ser (on_link [])
                  (Some {| link_open := true; replies := [];
                           sent := [("RFX" ++ newline)%string] |});
       trace := [CallReset; CallWrite ("RFX" ++ newline); CallReadline;
                 Print (ExpectedGot "RFX set" "T45 set")] |}.
Proof. reflexivity. Qed.

(** The dwell time of 45 microseconds. *)
Example dwell_command_text :
  ("T" ++ str_of_int 45)%string = "T45"%string /\
  ("T" ++ str_of_int 0)%string = "T0"%string.
Proof. split; reflexivity. Qed.

(** The switch answers in lower and upper case, with a carriage return
    and a newline. *)
Lemma acknowledgment_accepted_witness :
  send_command (link_api []) (on_link [("rfx SET" ++ crlf)%string]) "RFX"
  = {| raised := None;
       self' := set_ser (on_link [("rfx SET" ++ crlf)%string])
                  (Some {| link_open := true; replies := [];
                           sent := [("RFX" ++ newline)%string] |});
       trace := [CallReset; CallWrite ("RFX" ++ newline); CallReadline] |}.
Proof.
  apply (acknowledgment_accepted (link_api [])
           (on_link [("rfx SET" ++ crlf)%string]) "RFX"
           {| link_open := true; replies := [("rfx SET" ++ crlf)%string];
              sent := [] |}
           {| link_open := true; replies := [("rfx SET" ++ crlf)%string];
              sent := [] |}
           {| link_open := true; replies := [("rfx SET" ++ crlf)%string];
              sent := [("RFX" ++ newline)%string] |}
           {| link_open := true; replies := [];
              sent := [("RFX" ++ newline)%string] |}
           "" "rfx SET" crlf);
    try reflexivity.
  discriminate.
Defined.

(** The link reports a closed port as not open. *)
Lemma close_then_silent_witness :
  raised (close (link_api []) (on_link [])) = None /\
  send_command (link_api []) (self' (close (link_api []) (on_link [])))
    "CYCLE"
  = {| raised := None;
       self' := self' (close (link_api []) (on_link []));
       trace := [] |}.
Proof.
  destruct (close_then_silent (link_api []) (on_link [])) as [_ H].
  - intros d d' E. injection E as <-. reflexivity.
  - split; [reflexivity|]. apply H. reflexivity.
Defined.

Lemma init_hardware_sends_both_witness :
  exists drv d ev,
    init_hardware (link_api ["T45 set"%string]) "/dev/ttyACM0" 115200 45
    = (None, Some drv, ev) /\
    ser drv = Some d /\
    sent d = [("T45" ++ newline)%string; ("CYCLE" ++ newline)%string].
Proof.
  destruct (init_hardware_sends_both ["T45 set"%string] "/dev/ttyACM0"
              115200 45)
    as (drv & d & ev & Hi & Hs & _ & Hsent & _).
  - discriminate.
  - exists drv, d, ev. repeat split; assumption.
Defined.

Lemma stop_after_init_witness :
  exists arduino drv ev1 ev2,
    init_hardware (link_api []) "/dev/ttyACM0" 115200 45
    = (None, arduino, ev1) /\
    stop (link_api []) arduino = (inr true, Some drv, ev2).
Proof.
  destruct (stop_after_init [] "/dev/ttyACM0" 115200 45)
    as (arduino & drv & d & ev1 & ev2 & Hi & Hst & _).
  - discriminate.
  - exists arduino, drv, ev1, ev2. split; assumption.
Defined.

End DriverFacts.
